(** * Remote style manager: scan, rebind and materialize (src/code.ts)

    A shallow embedding of the plugin's core functions
    [findLayersWithRemoteStyles] (with its inner [traverse] and
    [checkStyle]), [getLocalStyles], [swapStyle] and [importRemoteStyle],
    written over an explicit model of the host document.

    The host ([figma]) is a [World]: the current page's node forest, the
    four local style collections, the outcome of a registry lookup for
    identifiers the document does not own, and the host's decisions to
    reject an update.  The plugin code runs in a small state-and-exception
    monad whose state survives a [throw], as a JavaScript heap does. *)

From Stdlib Require Import String List Bool Arith Lia.
Import ListNotations.
Open Scope string_scope.
Open Scope list_scope.

(* ===================================================================== *)
(** ** Data model *)
(* ===================================================================== *)

(** ['FILL' | 'TEXT' | 'EFFECT' | 'GRID'] *)
Inductive StyleKind : Type := FILL | TEXT | EFFECT | GRID.

(** The string a kind is written as in a message. *)
Definition kindTag (k : StyleKind) : string :=
  match k with
  | FILL => "FILL"
  | TEXT => "TEXT"
  | EFFECT => "EFFECT"
  | GRID => "GRID"
  end.

(** A property that is either the host's [figma.mixed] symbol or a value. *)
Inductive MixedOr (A : Type) : Type :=
| Mixed : MixedOr A
| Val : A -> MixedOr A.
Arguments Mixed {A}.
Arguments Val {A} _.

(** Host values the plugin only copies around (paint lists, font names,
    effect lists, ...) are kept as opaque payloads. *)
Definition Value := string.

(** One element of [RemoteStyleInfo.layers]. *)
Record LayerRec : Type := mkLayer {
  layer_id : string;
  layer_name : string;
  layer_type : string
}.

(** [interface RemoteStyleInfo] *)
Record RemoteStyleInfo : Type := mkRemote {
  styleId : string;
  styleName : string;
  styleType : StyleKind;
  layers : list LayerRec
}.

(** [interface LocalStyleInfo] *)
Record LocalStyleInfo : Type := mkLocal {
  local_id : string;
  local_name : string;
  local_type : StyleKind
}.

(** The properties of a scene node that the plugin reads.  A binding that
    the node type does not expose (['fillStyleId' in node] is false) is
    [None]. *)
Record NodeProps : Type := mkProps {
  node_id : string;
  node_name : string;
  node_type : string;
  fillStyleId : option (MixedOr string);
  strokeStyleId : option (MixedOr string);
  textStyleId : option (MixedOr string);
  effectStyleId : option (MixedOr string);
  gridStyleId : option (MixedOr string);
  fills : option (MixedOr Value);
  fontSize : MixedOr Value;
  fontName : MixedOr Value;
  lineHeight : MixedOr Value;
  letterSpacing : MixedOr Value;
  textCase : MixedOr Value;
  textDecoration : MixedOr Value;
  effects : option Value;
  layoutGrids : option Value
}.

(** A scene node: its properties and, for containers, its children. *)
#[local] Set Warnings "-register-all".
Inductive SceneNode : Type :=
| Node : NodeProps -> option (list SceneNode) -> SceneNode.

(** A style object of the host. *)
Record Style : Type := mkStyle {
  style_id : string;
  style_name : string;
  style_remote : bool;
  style_fields : list (string * Value)
}.

(** The five style bindings of a node. *)
Inductive Slot : Type := SFill | SStroke | SText | SEffect | SGrid.

(** Result of an operation that may throw. *)
Inductive Res (A : Type) : Type :=
| Ok : A -> Res A
| Throw : string -> Res A.
Arguments Ok {A} _.
Arguments Throw {A} _.

(** What the host was asked to do, in order of the calls. *)
Inductive HostEvent : Type :=
| EvLookup (sid : string)
| EvSet (nid : string) (sl : Slot) (new : string) (accepted : bool)
| EvCreate (k : StyleKind) (sid : string)
| EvAssign (sid : string) (field : string) (accepted : bool)
| EvError (msg : string).

(** The host. *)
Record World : Type := mkWorld {
  page : list SceneNode;
  paintStyles : list Style;
  textStyles : list Style;
  effectStyles : list Style;
  gridStyles : list Style;
  library : string -> Res (option Style);
  rejectsStyleId : string -> Slot -> string -> bool;
  rejectsField : string -> Value -> bool;
  styleIdSupply : nat -> string;
  hostLog : list HostEvent
}.

(** Record updates of the host. *)
Definition withLog (w : World) (l : list HostEvent) : World :=
  mkWorld (page w) (paintStyles w) (textStyles w) (effectStyles w)
    (gridStyles w) (library w) (rejectsStyleId w) (rejectsField w)
    (styleIdSupply w) l.

Definition withPage (w : World) (p : list SceneNode) : World :=
  mkWorld p (paintStyles w) (textStyles w) (effectStyles w)
    (gridStyles w) (library w) (rejectsStyleId w) (rejectsField w)
    (styleIdSupply w) (hostLog w).

Definition withStyles (w : World) (ps ts es gs : list Style) : World :=
  mkWorld (page w) ps ts es gs (library w) (rejectsStyleId w)
    (rejectsField w) (styleIdSupply w) (hostLog w).

(** The host logs one more event. *)
Definition logEvent (e : HostEvent) (w : World) : World :=
  withLog w (hostLog w ++ [e]).

(* ===================================================================== *)
(** ** The document: nodes, lookup by id, binding updates *)
(* ===================================================================== *)

(** Nodes of a subtree in depth-first pre-order. *)
Fixpoint nodesOf (n : SceneNode) : list NodeProps :=
  match n with
  | Node p ch =>
      p :: match ch with
           | Some cs => flat_map nodesOf cs
           | None => []
           end
  end.

(** All nodes of the current page, in depth-first pre-order. *)
Definition allNodes (w : World) : list NodeProps :=
  flat_map nodesOf (page w).

(** The same tree with [f] applied to the properties of every node. *)
Fixpoint mapNode (f : NodeProps -> NodeProps) (n : SceneNode) : SceneNode :=
  match n with
  | Node p ch => Node (f p) (option_map (map (mapNode f)) ch)
  end.

(** [node.fillStyleId], [node.strokeStyleId], ... *)
Definition binding (sl : Slot) (p : NodeProps) : option (MixedOr string) :=
  match sl with
  | SFill => fillStyleId p
  | SStroke => strokeStyleId p
  | SText => textStyleId p
  | SEffect => effectStyleId p
  | SGrid => gridStyleId p
  end.

(** The node with binding [sl] set to the identifier [v].  Only the
    binding is tracked: what the host then makes of the property the style
    drives (fills, font, effects, grids) is not modelled, those fields are
    carried over as they were, and no statement below is about them on a
    node one of whose bindings was set. *)
Definition setBinding (sl : Slot) (v : string) (p : NodeProps) : NodeProps :=
  let b := Some (Val v) in
  mkProps (node_id p) (node_name p) (node_type p)
    (match sl with SFill => b | _ => fillStyleId p end)
    (match sl with SStroke => b | _ => strokeStyleId p end)
    (match sl with SText => b | _ => textStyleId p end)
    (match sl with SEffect => b | _ => effectStyleId p end)
    (match sl with SGrid => b | _ => gridStyleId p end)
    (fills p) (fontSize p) (fontName p) (lineHeight p) (letterSpacing p)
    (textCase p) (textDecoration p) (effects p) (layoutGrids p).

(** Node ids are unique in a host document, so updating the node object
    that [getNodeByIdAsync] returned is updating the node with that id. *)
Definition atId (nid : string) (f : NodeProps -> NodeProps)
  (p : NodeProps) : NodeProps :=
  if node_id p =? nid then f p else p.

(** The node with a given id, as [getNodeByIdAsync] finds it. *)
Definition getNode (w : World) (nid : string) : option NodeProps :=
  find (fun p => node_id p =? nid) (allNodes w).

(** The document after binding [sl] of node [nid] was set to [new]. *)
Definition rebound (nid : string) (sl : Slot) (new : string) (w : World)
  : World :=
  withPage w (map (mapNode (atId nid (setBinding sl new))) (page w)).

(** No two nodes of the page share an id. *)
Definition uniqueIds (w : World) : Prop :=
  NoDup (map node_id (allNodes w)).

(** The local styles of the document, all kinds. *)
Definition localStyles (w : World) : list Style :=
  paintStyles w ++ textStyles w ++ effectStyles w ++ gridStyles w.

(** Outcome of the registry lookup: a style owned by the document
    resolves to itself, any other identifier to what the host's libraries
    answer (a style, nothing, or a fault). *)
Definition lookupStyle (w : World) (sid : string) : Res (option Style) :=
  match find (fun s => style_id s =? sid) (localStyles w) with
  | Some s => Ok (Some s)
  | None => library w sid
  end.

(** An update of the style object with identifier [sid], wherever the
    document lists it. *)
Definition updStyle (sid : string) (f : Style -> Style) (s : Style) : Style :=
  if style_id s =? sid then f s else s.

Definition mapStyles (w : World) (f : Style -> Style) : World :=
  withStyles w (map f (paintStyles w)) (map f (textStyles w))
    (map f (effectStyles w)) (map f (gridStyles w)).

(* ===================================================================== *)
(** ** The monad: local variables, the host, exceptions *)
(* ===================================================================== *)

(** A computation with local variables [L] over the host.  The state it
    reached is kept when it throws. *)
Definition M (L A : Type) : Type := L * World -> Res A * (L * World).

(** Return, sequencing and [throw]. *)
Definition ret {L A} (a : A) : M L A := fun s => (Ok a, s).

Definition bind {L A B} (c : M L A) (k : A -> M L B) : M L B :=
  fun s =>
    match c s with
    | (Ok a, s') => k a s'
    | (Throw e, s') => (Throw e, s')
    end.

Definition throw {L A} (e : string) : M L A := fun s => (Throw e, s).

(** [try { body } catch (e) { handler }] *)
Definition tryCatch {L A} (body : M L A) (handler : string -> M L A) : M L A :=
  fun s =>
    match body s with
    | (Ok a, s') => (Ok a, s')
    | (Throw e, s') => handler e s'
    end.

(** Reading and writing the local variables and the host. *)
Definition getL {L} : M L L := fun s => (Ok (fst s), s).
Definition putL {L} (l : L) : M L unit := fun s => (Ok tt, (l, snd s)).
Definition getW {L} : M L World := fun s => (Ok (snd s), s).
Definition modW {L} (f : World -> World) : M L unit :=
  fun s => (Ok tt, (fst s, f (snd s))).

(** Call of a function that has its own local variables. *)
Definition call {L L' A} (l0 : L') (c : M L' A) : M L A :=
  fun s =>
    match c (l0, snd s) with
    | (r, (_, w')) => (r, (fst s, w'))
    end.

Declare Scope m_scope.
Delimit Scope m_scope with m.
Notation "x <- c ;; k" := (bind c (fun x => k))
  (at level 61, c at next level, right associativity) : m_scope.
Notation "c ;; k" := (bind c (fun _ => k))
  (at level 61, right associativity) : m_scope.
Open Scope m_scope.

(* ===================================================================== *)
(** ** Host operations *)
(* ===================================================================== *)

(** [figma.getStyleByIdAsync(styleId)] *)
Definition getStyleByIdAsync {L} (sid : string) : M L (option Style) :=
  modW (logEvent (EvLookup sid)) ;;
  w <- getW ;;
  match lookupStyle w sid with
  | Ok r => ret r
  | Throw e => throw e
  end.

(** [figma.getNodeByIdAsync(id)]: the node with that id, [null] when
    there is none. *)
Definition getNodeByIdAsync {L} (nid : string) : M L (option NodeProps) :=
  w <- getW ;;
  ret (getNode w nid).

(** [node.setFillStyleIdAsync(newStyleId)] and its four siblings. *)
Definition setStyleIdAsync {L} (nid : string) (sl : Slot) (new : string)
  : M L unit :=
  w <- getW ;;
  if rejectsStyleId w nid sl new then
    modW (logEvent (EvSet nid sl new false)) ;;
    throw "style id rejected"
  else
    modW (fun w => logEvent (EvSet nid sl new true) (rebound nid sl new w)).

(** [console.error(msg, e)] *)
Definition consoleError {L} (msg : string) : M L unit :=
  modW (logEvent (EvError msg)).

(** [figma.createPaintStyle()] and its three siblings: a new, empty
    local style of the kind; the result is its identifier. *)
Definition createStyle {L} (k : StyleKind) : M L string :=
  w <- getW ;;
  let sid := styleIdSupply w (length (localStyles w)) in
  let s := mkStyle sid "" false [] in
  modW (fun w =>
          logEvent (EvCreate k sid)
            (match k with
             | FILL => withStyles w (paintStyles w ++ [s]) (textStyles w)
                         (effectStyles w) (gridStyles w)
             | TEXT => withStyles w (paintStyles w) (textStyles w ++ [s])
                         (effectStyles w) (gridStyles w)
             | EFFECT => withStyles w (paintStyles w) (textStyles w)
                           (effectStyles w ++ [s]) (gridStyles w)
             | GRID => withStyles w (paintStyles w) (textStyles w)
                         (effectStyles w) (gridStyles w ++ [s])
             end)) ;;
  ret sid.

(** [newStyle.name = styleName] *)
Definition assignName {L} (sid : string) (name : string) : M L unit :=
  w <- getW ;;
  if rejectsField w "name" name then
    modW (logEvent (EvAssign sid "name" false)) ;;
    throw "assignment rejected"
  else
    modW (fun w =>
            logEvent (EvAssign sid "name" true)
              (mapStyles w
                 (updStyle sid (fun s =>
                    mkStyle (style_id s) name (style_remote s)
                      (style_fields s))))).

(** [newStyle.<field> = v] for a property copied from the donor. *)
Definition assignField {L} (sid : string) (field : string) (v : Value)
  : M L unit :=
  w <- getW ;;
  if rejectsField w field v then
    modW (logEvent (EvAssign sid field false)) ;;
    throw "assignment rejected"
  else
    modW (fun w =>
            logEvent (EvAssign sid field true)
              (mapStyles w
                 (updStyle sid (fun s =>
                    mkStyle (style_id s) (style_name s) (style_remote s)
                      (style_fields s ++ [(field, v)]))))).


(* ===================================================================== *)
(** ** findLayersWithRemoteStyles *)
(* ===================================================================== *)

(** [remoteStylesMap]: a JavaScript [Map], which keeps insertion order. *)
Definition RMap := list (string * RemoteStyleInfo).

(** [Map.prototype.get] and [Map.prototype.has]. *)
Fixpoint map_get (k : string) (m : RMap) : option RemoteStyleInfo :=
  match m with
  | [] => None
  | (k', v) :: m' => if k' =? k then Some v else map_get k m'
  end.

Definition map_has (k : string) (m : RMap) : bool :=
  match map_get k m with Some _ => true | None => false end.

(** [Map.prototype.set]: a present key keeps its place, a new key goes
    last. *)
Fixpoint map_set (k : string) (v : RemoteStyleInfo) (m : RMap) : RMap :=
  match m with
  | [] => [(k, v)]
  | (k', v') :: m' =>
      if k' =? k then (k', v) :: m' else (k', v') :: map_set k v m'
  end.

(** [Array.from(map.values())] *)
Definition map_values (m : RMap) : list RemoteStyleInfo := map snd m.

(** [{ id: node.id, name: node.name, type: node.type }] *)
Definition layerOf (node : NodeProps) : LayerRec :=
  mkLayer (node_id node) (node_name node) (node_type node).

(** The name given to a style that cannot be resolved. *)
Definition unknownName : string := "Unknown Style (Remote)".

(** [if (!remoteStylesMap.has(styleId)) remoteStylesMap.set(styleId, {...})] *)
Definition ensureEntry (sid name : string) (k : StyleKind) : M RMap unit :=
  m <- getL ;;
  if negb (map_has sid m) then putL (map_set sid (mkRemote sid name k []) m)
  else ret tt.

(** [const info = remoteStylesMap.get(styleId)!; info.layers.push({...})]:
    [info] is the object held by the map, so the push is seen there. *)
Definition pushLayer (sid : string) (node : NodeProps) : M RMap unit :=
  m <- getL ;;
  match map_get sid m with
  | Some info =>
      putL (map_set sid
              (mkRemote (styleId info) (styleName info) (styleType info)
                 (layers info ++ [layerOf node])) m)
  | None => throw "TypeError: info is undefined"
  end.

(** [checkStyle] (code.ts, lines 57-115). *)
Definition checkStyle (node : NodeProps) (sid : MixedOr string)
  (k : StyleKind) : M RMap unit :=
  match sid with
  | Mixed => ret tt
  | Val sid =>
      tryCatch
        (style <- getStyleByIdAsync sid ;;
         match style with
         | None =>
             ensureEntry sid unknownName k ;;
             pushLayer sid node
         | Some st =>
             if style_remote st then
               ensureEntry sid (style_name st) k ;;
               pushLayer sid node
             else ret tt
         end)
        (fun _ =>
           ensureEntry sid unknownName k ;;
           pushLayer sid node)
  end.

(** JavaScript truthiness of a style-id value: a symbol is truthy, a
    string is truthy unless empty. *)
Definition truthy (v : MixedOr string) : bool :=
  match v with
  | Mixed => true
  | Val s => negb (s =? "")
  end.

(** [if ('xStyleId' in node && node.xStyleId) await checkStyle(...)] *)
Definition checkBinding (node : NodeProps) (sl : Slot) (k : StyleKind)
  : M RMap unit :=
  match binding sl node with
  | Some v => if truthy v then checkStyle node v k else ret tt
  | None => ret tt
  end.

(** The five checks of [traverse], in order (lines 27-48). *)
Definition checkBindings (p : NodeProps) : M RMap unit :=
  checkBinding p SFill FILL ;;
  checkBinding p SStroke FILL ;;
  checkBinding p SText TEXT ;;
  checkBinding p SEffect EFFECT ;;
  checkBinding p SGrid GRID.

(** [traverse] (lines 26-55): the bindings of the node, then its
    children in order. *)
Fixpoint traverse (node : SceneNode) : M RMap unit :=
  match node with
  | Node p ch =>
      checkBindings p ;;
      match ch with
      | Some cs =>
          (fix each (l : list SceneNode) : M RMap unit :=
             match l with
             | [] => ret tt
             | child :: l' => traverse child ;; each l'
             end) cs
      | None => ret tt
      end
  end.

(** [for (const child of figma.currentPage.children) await traverse(child)] *)
Fixpoint traverseAll (l : list SceneNode) : M RMap unit :=
  match l with
  | [] => ret tt
  | child :: l' => traverse child ;; traverseAll l'
  end.

(** [findLayersWithRemoteStyles] (lines 23-121): a fresh map, the
    traversal of the page, the values of the map. *)
Definition findLayersWithRemoteStyles {L} : M L (list RemoteStyleInfo) :=
  call ([] : RMap)
    (w <- getW ;;
     traverseAll (page w) ;;
     m <- getL ;;
     ret (map_values m)).

(* ===================================================================== *)
(** ** getLocalStyles *)
(* ===================================================================== *)

(** [xs.forEach(s => { if (!s.remote) styles.push({id, name, type}) })] *)
Definition pushLocal (k : StyleKind) (styles : list LocalStyleInfo)
  (s : Style) : list LocalStyleInfo :=
  if negb (style_remote s) then
    styles ++ [mkLocal (style_id s) (style_name s) k]
  else styles.

(** [getLocalStyles] (lines 124-157). *)
Definition getLocalStyles {L} : M L (list LocalStyleInfo) :=
  w <- getW ;;
  let styles := [] in
  let styles := fold_left (pushLocal FILL) (paintStyles w) styles in
  let styles := fold_left (pushLocal TEXT) (textStyles w) styles in
  let styles := fold_left (pushLocal EFFECT) (effectStyles w) styles in
  let styles := fold_left (pushLocal GRID) (gridStyles w) styles in
  ret styles.

(** The [scan] message: both reports. *)
Definition scan {L} : M L (list RemoteStyleInfo * list LocalStyleInfo) :=
  remoteStyles <- findLayersWithRemoteStyles ;;
  localStyles <- getLocalStyles ;;
  ret (remoteStyles, localStyles).

(* ===================================================================== *)
(** ** swapStyle *)
(* ===================================================================== *)

(** ['xStyleId' in node && node.xStyleId === oldStyleId] *)
Definition holds (sl : Slot) (node : NodeProps) (old : string) : bool :=
  match binding sl node with
  | Some (Val s) => s =? old
  | _ => false
  end.

(** [if (... === oldStyleId) { await node.setXStyleIdAsync(new); count++ }];
    the local variable is [count]. *)
Definition swapBinding (node : NodeProps) (sl : Slot) (old new : string)
  : M nat unit :=
  if holds sl node old then
    setStyleIdAsync (node_id node) sl new ;;
    count <- getL ;;
    putL (count + 1)
  else ret tt.

(** The [try]/[catch] of the loop body (lines 180-208). *)
Definition swapNode (node : NodeProps) (old new styleType : string)
  : M nat unit :=
  tryCatch
    (if styleType =? "FILL" then
       swapBinding node SFill old new ;;
       swapBinding node SStroke old new
     else if styleType =? "TEXT" then swapBinding node SText old new
     else if styleType =? "EFFECT" then swapBinding node SEffect old new
     else if styleType =? "GRID" then swapBinding node SGrid old new
     else ret tt)
    (fun _ => consoleError "Error swapping style:").

(** [for (const id of layerIds)] with its [continue] on a missing node. *)
Fixpoint swapLoop (layerIds : list string) (old new styleType : string)
  : M nat unit :=
  match layerIds with
  | [] => ret tt
  | id :: rest =>
      node <- getNodeByIdAsync id ;;
      match node with
      | None => swapLoop rest old new styleType
      | Some nd =>
          swapNode nd old new styleType ;;
          swapLoop rest old new styleType
      end
  end.

(** [swapStyle] (lines 173-212). *)
Definition swapStyle {L} (layerIds : list string)
  (oldStyleId newStyleId styleType : string) : M L nat :=
  call 0 (swapLoop layerIds oldStyleId newStyleId styleType ;; getL).

(* ===================================================================== *)
(** ** importRemoteStyle *)
(* ===================================================================== *)

(** ['fills' in node] and the like. *)
Definition isSome {A} (o : option A) : bool :=
  match o with Some _ => true | None => false end.

(** The body of the [try] in the loop; the local variable is [newStyle]
    (the identifier of the style object it refers to).  The result says
    whether the [break] was reached. *)
Definition importFrom (node : NodeProps) (styleType styleName : string)
  : M (option string) bool :=
  if (styleType =? "FILL") && isSome (fills node) then
    match fills node with
    | Some (Val fs) =>
        sid <- createStyle FILL ;;
        putL (Some sid) ;;
        assignName sid styleName ;;
        assignField sid "paints" fs ;;
        ret true
    | _ => ret false
    end
  else if (styleType =? "TEXT") && (node_type node =? "TEXT") then
    match fontSize node, fontName node, lineHeight node,
          letterSpacing node, textCase node, textDecoration node with
    | Val fsz, Val fnm, Val lh, Val ls, Val tc, Val td =>
        sid <- createStyle TEXT ;;
        putL (Some sid) ;;
        assignName sid styleName ;;
        assignField sid "fontSize" fsz ;;
        assignField sid "fontName" fnm ;;
        assignField sid "lineHeight" lh ;;
        assignField sid "letterSpacing" ls ;;
        assignField sid "textCase" tc ;;
        assignField sid "textDecoration" td ;;
        ret true
    | _, _, _, _, _, _ => ret false
    end
  else if (styleType =? "EFFECT") && isSome (effects node) then
    match effects node with
    | Some es =>
        sid <- createStyle EFFECT ;;
        putL (Some sid) ;;
        assignName sid styleName ;;
        assignField sid "effects" es ;;
        ret true
    | None => ret false
    end
  else if (styleType =? "GRID") && isSome (layoutGrids node) then
    match layoutGrids node with
    | Some gs =>
        sid <- createStyle GRID ;;
        putL (Some sid) ;;
        assignName sid styleName ;;
        assignField sid "layoutGrids" gs ;;
        ret true
    | None => ret false
    end
  else ret false.

(** The loop of [importRemoteStyle] (lines 219-265), left by [break]. *)
Fixpoint importLoop (layerIds : list string) (styleType styleName : string)
  : M (option string) unit :=
  match layerIds with
  | [] => ret tt
  | id :: rest =>
      node <- getNodeByIdAsync id ;;
      match node with
      | None => importLoop rest styleType styleName
      | Some nd =>
          broke <- tryCatch (importFrom nd styleType styleName)
                     (fun _ => consoleError "Error importing style:" ;;
                               ret false) ;;
          if broke then ret tt else importLoop rest styleType styleName
      end
  end.

(** [importRemoteStyle] (lines 215-273). *)
Definition importRemoteStyle {L} (layerIds : list string)
  (styleType styleName oldStyleId : string) : M L nat :=
  call (None : option string)
    (importLoop layerIds styleType styleName ;;
     newStyle <- getL ;;
     match newStyle with
     | Some sid => swapStyle layerIds oldStyleId sid styleType
     | None => ret 0
     end).

(* ===================================================================== *)
(** ** The message handler *)
(* ===================================================================== *)

(** [msg.type === 'swap-style']: rebind, then scan again.  The result is
    the count that is notified and the report that is posted. *)
Definition onSwapStyle {L} (layerIds : list string)
  (oldStyleId newStyleId styleType : string)
  : M L (nat * (list RemoteStyleInfo * list LocalStyleInfo)) :=
  count <- swapStyle layerIds oldStyleId newStyleId styleType ;;
  report <- scan ;;
  ret (count, report).

(** [msg.type === 'import-style']: materialize, then scan again. *)
Definition onImportStyle {L} (layerIds : list string)
  (styleType styleName styleId : string)
  : M L (nat * (list RemoteStyleInfo * list LocalStyleInfo)) :=
  count <- importRemoteStyle layerIds styleType styleName styleId ;;
  report <- scan ;;
  ret (count, report).

(* ===================================================================== *)
(** ** The scan as a fold over the style references of the page *)
(* ===================================================================== *)

(** How the registry classifies an identifier: [Some name] when the scan
    reports it (a remote-flagged style under its name; nothing found or a
    lookup fault under the placeholder), [None] for a local style. *)
Definition remoteName (w : World) (sid : string) : option string :=
  match lookupStyle w sid with
  | Ok None => Some unknownName
  | Ok (Some st) => if style_remote st then Some (style_name st) else None
  | Throw _ => Some unknownName
  end.

(** [info] with more layers pushed. *)
Definition addLayers (info : RemoteStyleInfo) (ls : list LayerRec)
  : RemoteStyleInfo :=
  mkRemote (styleId info) (styleName info) (styleType info)
    (layers info ++ ls).

(** Effect of one reported reference on the working map. *)
Definition record (sid name : string) (k : StyleKind) (lr : LayerRec)
  (m : RMap) : RMap :=
  match map_get sid m with
  | Some info => map_set sid (addLayers info [lr]) m
  | None => m ++ [(sid, mkRemote sid name k [lr])]
  end.

(** A style reference: the layer record of the node, the identifier the
    binding holds, the kind of the binding. *)
Definition Ref : Type := LayerRec * string * StyleKind.
Definition ref_layer (r : Ref) : LayerRec := fst (fst r).
Definition ref_sid (r : Ref) : string := snd (fst r).
Definition ref_kind (r : Ref) : StyleKind := snd r.

(** What [checkStyle] makes of the map at one reference. *)
Definition stepRef (w : World) (m : RMap) (r : Ref) : RMap :=
  match remoteName w (ref_sid r) with
  | Some name => record (ref_sid r) name (ref_kind r) (ref_layer r) m
  | None => m
  end.

(** The kind under which [traverse] checks a binding: fill and stroke are
    both checked as ['FILL']. *)
Definition slotKind (sl : Slot) : StyleKind :=
  match sl with
  | SFill | SStroke => FILL
  | SText => TEXT
  | SEffect => EFFECT
  | SGrid => GRID
  end.

(** The reference a binding makes, when it holds a non-empty string. *)
Definition refOf (p : NodeProps) (sl : Slot) (k : StyleKind) : list Ref :=
  match binding sl p with
  | Some (Val s) => if s =? "" then [] else [(layerOf p, s, k)]
  | _ => []
  end.

(** The references of a node, in the order [traverse] checks them. *)
Definition refsOf (p : NodeProps) : list Ref :=
  refOf p SFill FILL ++ refOf p SStroke FILL ++ refOf p SText TEXT ++
  refOf p SEffect EFFECT ++ refOf p SGrid GRID.

(** The references of a list of nodes, and the lookups they cause. *)
Definition refs (nodes : list NodeProps) : list Ref := flat_map refsOf nodes.

Definition lookups (rs : list Ref) : list HostEvent :=
  map (fun r => EvLookup (ref_sid r)) rs.

(** The world [w] after the host logged the events [evs]. *)
Definition after (w : World) (evs : list HostEvent) : World :=
  withLog w (hostLog w ++ evs).

(** What [traverse] computes on a subtree. *)
Definition traverse_spec (n : SceneNode) : Prop :=
  forall m w,
    traverse n (m, w) =
    (Ok tt, (fold_left (stepRef w) (refs (nodesOf n)) m,
             after w (lookups (refs (nodesOf n))))).

(** Is the reference reported, i.e. is its identifier not a local style? *)
Definition reported (w : World) (r : Ref) : bool :=
  isSome (remoteName w (ref_sid r)).

(** The references of the page, in traversal order, and those of them
    that the scan reports. *)
Definition pageRefs (w : World) : list Ref := refs (allNodes w).
Definition remoteRefs (w : World) : list Ref :=
  filter (reported w) (pageRefs w).

(** Does the reference hold identifier [s]? *)
Definition sidIs (s : string) (r : Ref) : bool := ref_sid r =? s.

(** The layer records pushed for identifier [s] by the references [rs]. *)
Definition layersFor (s : string) (rs : list Ref) : list LayerRec :=
  map ref_layer (filter (sidIs s) rs).

(** The records of layer [nid] in a layer list. *)
Definition recordsOf (nid : string) (ls : list LayerRec) : list LayerRec :=
  filter (fun r => layer_id r =? nid) ls.

(** A list of identifiers reduced to the first occurrence of each. *)
Fixpoint firstOccurrences (l : list string) : list string :=
  match l with
  | [] => []
  | x :: t => x :: filter (fun y => negb (y =? x)) (firstOccurrences t)
  end.

(** Is [x] none of the identifiers seen? *)
Definition notIn (seen : list string) (x : string) : bool :=
  negb (existsb (String.eqb x) seen).

(** Every value of the map sits under its own [styleId]. *)
Definition keyed (m : RMap) : Prop :=
  forall k v, In (k, v) m -> styleId v = k.

(** A node none of whose bindings share a reported identifier. *)
Definition distinctBindings (w : World) (p : NodeProps) : Prop :=
  NoDup (map ref_sid (filter (reported w) (refsOf p))).

(** The identifier [s] is held by fill and stroke bindings only. *)
Definition paintOnly (w : World) (s : string) : Prop :=
  forall q sl,
    In q (allNodes w) -> binding sl q = Some (Val s) -> slotKind sl = FILL.

(** The node with its [figma.mixed] bindings taken away. *)
Definition dropMixed (b : option (MixedOr string)) : option (MixedOr string) :=
  match b with
  | Some Mixed => None
  | _ => b
  end.

Definition clearMixed (p : NodeProps) : NodeProps :=
  mkProps (node_id p) (node_name p) (node_type p)
    (dropMixed (fillStyleId p)) (dropMixed (strokeStyleId p))
    (dropMixed (textStyleId p)) (dropMixed (effectStyleId p))
    (dropMixed (gridStyleId p))
    (fills p) (fontSize p) (fontName p) (lineHeight p) (letterSpacing p)
    (textCase p) (textDecoration p) (effects p) (layoutGrids p).

(** The invariant the specification states for every entry of a scan. *)
Definition noDuplicateLayers (w : World) : Prop :=
  forall entries s',
    findLayersWithRemoteStyles (tt, w) = (Ok entries, s') ->
    forall entry, In entry entries -> NoDup (map layer_id (layers entry)).

(* ===================================================================== *)
(** ** The local-style catalog *)
(* ===================================================================== *)

(** The local-style catalog in the specification's words: per kind, the
    styles whose remote flag is unset, tagged with the kind; the kinds in
    the order Fill, Text, Effect, Grid. *)
Definition summaries (k : StyleKind) (xs : list Style) : list LocalStyleInfo :=
  map (fun s => mkLocal (style_id s) (style_name s) k)
    (filter (fun s => negb (style_remote s)) xs).

Definition localCatalog (w : World) : list LocalStyleInfo :=
  summaries FILL (paintStyles w) ++ summaries TEXT (textStyles w) ++
  summaries EFFECT (effectStyles w) ++ summaries GRID (gridStyles w).

(* ===================================================================== *)
(** ** swapStyle as a sequence of host events *)
(* ===================================================================== *)

(** The bindings a rebind of a given kind looks at, in order. *)
Definition slotsOf (styleType : string) : list Slot :=
  if styleType =? "FILL" then [SFill; SStroke]
  else if styleType =? "TEXT" then [SText]
  else if styleType =? "EFFECT" then [SEffect]
  else if styleType =? "GRID" then [SGrid]
  else [].

(** The [try] block of [swapStyle] as a sequence over those bindings. *)
Fixpoint swapSlots (node : NodeProps) (old new : string) (sls : list Slot)
  : M nat unit :=
  match sls with
  | [] => ret tt
  | sl :: rest => swapBinding node sl old new ;; swapSlots node old new rest
  end.

(** The five bindings, and their equality test. *)
Definition allSlots : list Slot := [SFill; SStroke; SText; SEffect; SGrid].

Definition slot_eqb (a b : Slot) : bool :=
  match a, b with
  | SFill, SFill | SStroke, SStroke | SText, SText
  | SEffect, SEffect | SGrid, SGrid => true
  | _, _ => false
  end.

(** An update the host accepted. *)
Definition accepted (e : HostEvent) : bool :=
  match e with
  | EvSet _ _ _ true => true
  | _ => false
  end.

(** An accepted update of binding [sl]. *)
Definition acceptedOn (sl : Slot) (e : HostEvent) : bool :=
  match e with
  | EvSet _ s _ true => slot_eqb s sl
  | _ => false
  end.

(** Every accepted update among the events is one of node [nid] to [new]. *)
Definition onNode (nid new : string) (e : HostEvent) : Prop :=
  match e with
  | EvSet n _ v true => n = nid /\ v = new
  | _ => True
  end.

(** What an event did to the document, and the world after it. *)
Definition effect (e : HostEvent) (w : World) : World :=
  match e with
  | EvSet nid sl new true => rebound nid sl new w
  | _ => w
  end.

Definition perform (w : World) (e : HostEvent) : World :=
  logEvent e (effect e w).

(** What an event does to a node. *)
Definition evUpdate (e : HostEvent) (p : NodeProps) : NodeProps :=
  match e with
  | EvSet nid sl new true => atId nid (setBinding sl new) p
  | _ => p
  end.

Definition applyEvs (evs : list HostEvent) (p : NodeProps) : NodeProps :=
  fold_left (fun p e => evUpdate e p) evs p.

(** The events of [swapStyle] on one node: an accepted update for each
    binding that holds [old], up to the first one the host rejects, which
    ends the [try] block with a diagnostic. *)
Fixpoint attempt (rej : Slot -> bool) (node : NodeProps) (old new : string)
  (sls : list Slot) : list HostEvent :=
  match sls with
  | [] => []
  | sl :: rest =>
      if holds sl node old then
        if rej sl then
          [EvSet (node_id node) sl new false; EvError "Error swapping style:"]
        else EvSet (node_id node) sl new true :: attempt rej node old new rest
      else attempt rej node old new rest
  end.

(** The events of the loop body on [node] in world [w]. *)
Definition nodeEvents (w : World) (node : NodeProps)
  (old new styleType : string) : list HostEvent :=
  attempt (fun sl => rejectsStyleId w (node_id node) sl new) node old new
    (slotsOf styleType).

(** The events of a whole [swapStyle] call. *)
Fixpoint swapEvents (w : World) (layerIds : list string)
  (old new styleType : string) : list HostEvent :=
  match layerIds with
  | [] => []
  | id :: rest =>
      match getNode w id with
      | None => swapEvents w rest old new styleType
      | Some nd =>
          let evs := nodeEvents w nd old new styleType in
          evs ++ swapEvents (fold_left perform evs w) rest old new styleType
      end
  end.

(** The number of accepted updates among the events. *)
Definition countAccepted (evs : list HostEvent) : nat :=
  length (filter accepted evs).

(** A further [swapStyle] step on layer [nid] would change nothing. *)
Definition settled (w : World) (old new styleType : string) (nid : string)
  : Prop :=
  match getNode w nid with
  | Some nd => countAccepted (nodeEvents w nd old new styleType) = 0
  | None => True
  end.

(** How a rebind may change a node: a binding keeps its value, or it held
    [old], is looked at by the kind, belongs to a listed layer, and now
    holds [new]. *)
Definition reboundFrom (layerIds : list string) (old new styleType : string)
  (p p' : NodeProps) : Prop :=
  node_id p' = node_id p /\
  forall sl,
    binding sl p' = binding sl p \/
    (binding sl p = Some (Val old) /\ binding sl p' = Some (Val new) /\
     In sl (slotsOf styleType) /\ In (node_id p) layerIds).

(** Idempotence of rebinding as the specification states it: once a
    first call went through with every update accepted, the same call
    again changes no binding and returns 0. *)
Definition rebindTwiceReturnsZero (w : World) (layerIds : list string)
  (old new styleType : string) : Prop :=
  forall c1 w1 evs,
    swapStyle layerIds old new styleType (tt, w) = (Ok c1, (tt, w1)) ->
    hostLog w1 = hostLog w ++ evs ->
    forallb accepted evs = true ->
    exists w2,
      swapStyle layerIds old new styleType (tt, w1) = (Ok 0, (tt, w2)) /\
      page w2 = page w1.

(** The number of bindings of a node that hold an identifier. *)
Definition bindingsHolding (p : NodeProps) (s : string) : nat :=
  length (filter (fun sl => holds sl p s) allSlots).

(** Equality test of binding values. *)
Definition binding_eqb (a b : option (MixedOr string)) : bool :=
  match a, b with
  | None, None => true
  | Some Mixed, Some Mixed => true
  | Some (Val x), Some (Val y) => x =? y
  | _, _ => false
  end.

(** Does binding [sl] of layer [nid] differ between two worlds? *)
Definition changed (w w' : World) (x : string * Slot) : bool :=
  match getNode w (fst x), getNode w' (fst x) with
  | Some p, Some p' => negb (binding_eqb (binding (snd x) p) (binding (snd x) p'))
  | _, _ => false
  end.

(** The number of bindings of the layers [ids] that differ between two
    worlds. *)
Definition changedBindings (w w' : World) (ids : list string) : nat :=
  length (filter (changed w w') (list_prod ids allSlots)).

(* ===================================================================== *)
(** ** importRemoteStyle, every assignment accepted *)
(* ===================================================================== *)

(** Does the layer qualify as the donor of a new style of the kind? *)
Definition donor (styleType : string) (node : NodeProps) : bool :=
  if (styleType =? "FILL") && isSome (fills node) then
    match fills node with
    | Some (Val _) => true
    | _ => false
    end
  else if (styleType =? "TEXT") && (node_type node =? "TEXT") then
    match fontSize node, fontName node, lineHeight node,
          letterSpacing node, textCase node, textDecoration node with
    | Val _, Val _, Val _, Val _, Val _, Val _ => true
    | _, _, _, _, _, _ => false
    end
  else if (styleType =? "EFFECT") && isSome (effects node) then true
  else if (styleType =? "GRID") && isSome (layoutGrids node) then true
  else false.

(** The styles created by the host, as its log has them. *)
Definition creations (evs : list HostEvent) : list string :=
  flat_map (fun e => match e with EvCreate _ sid => [sid] | _ => [] end) evs.

(** A computation that, every assignment being accepted, returns a value
    in [P], leaves the page and the local variables alone and creates no
    style. *)
Definition copies {L A} (c : M L A) (P : A -> Prop) : Prop :=
  forall l w,
    (forall f v, rejectsField w f v = false) ->
    exists a w1,
      c (l, w) = (Ok a, (l, w1)) /\ P a /\
      page w1 = page w /\ rejectsField w1 = rejectsField w /\
      creations (hostLog w1) = creations (hostLog w).

(* ===================================================================== *)
(** ** Sample documents *)
(* ===================================================================== *)

(** A rectangle and a text layer with given bindings. *)
Definition leaf (nid : string) (fill stroke text : option (MixedOr string))
  : NodeProps :=
  mkProps nid (String.append "layer " nid) "RECTANGLE" fill stroke text None None
    (Some (Val "solid")) Mixed Mixed Mixed Mixed Mixed Mixed
    (Some "none") None.

Definition textLeaf (nid : string) (text : option (MixedOr string))
  (font : Value) : NodeProps :=
  mkProps nid (String.append "layer " nid) "TEXT" None None text None None
    (Some (Val "solid")) (Val "12") (Val font) (Val "auto") (Val "0")
    (Val "ORIGINAL") (Val "NONE") (Some "none") None.

(** A host with an empty page and no styles, whose libraries know no
    style and which accepts every update. *)
Definition emptyWorld : World :=
  mkWorld [] [] [] [] [] (fun _ => Ok None) (fun _ _ _ => false)
    (fun _ _ => false) (fun n => String.append "S:new" (String (Ascii.ascii_of_nat (48 + n)) ""))
    [].

(** A page with one rectangle whose fill and stroke hold the same
    identifier, which no style of the document has. *)
Definition twiceBound : NodeProps :=
  leaf "1:1" (Some (Val "S:999")) (Some (Val "S:999")) None.

Definition twiceBoundWorld : World := withPage emptyWorld [Node twiceBound None].

(** The page of [twiceBoundWorld] on a host whose registry lookup always
    throws. *)
Definition faultyWorld : World :=
  mkWorld [Node twiceBound None] [] [] [] []
    (fun _ => Throw "host error") (fun _ _ _ => false) (fun _ _ => false)
    (fun _ => "S:new") [].

(** A rectangle with a child; no node holds an identifier twice. *)
Definition plainWorld : World :=
  withPage emptyWorld
    [Node (leaf "1:1" (Some (Val "S:999")) None None)
       (Some [Node (leaf "1:2" (Some (Val "S:999")) (Some (Val "S:7")) None) None])].

(** Two text layers set in a font the host has not loaded: it accepts
    every assignment to a style but that of such a font name. *)
Definition robotoWorld : World :=
  mkWorld
    [Node (textLeaf "1" (Some (Val "S:999")) "Roboto") None;
     Node (textLeaf "2" (Some (Val "S:999")) "Roboto") None]
    [] [] [] [] (fun _ => Ok None) (fun _ _ _ => false)
    (fun field v => (field =? "fontName") && negb (v =? "Inter"))
    (styleIdSupply emptyWorld) [].

(** Three rectangles filled with a style no library has, in a document
    that owns one paint style. *)
Definition threeLayers : World :=
  mkWorld
    [Node (leaf "L1" (Some (Val "S:999")) None None) None;
     Node (leaf "L2" (Some (Val "S:999")) None None) None;
     Node (leaf "L3" (Some (Val "S:999")) None None) None]
    [mkStyle "S:111" "Brand" false []] [] [] []
    (fun _ => Ok None) (fun _ _ _ => false) (fun _ _ => false)
    (styleIdSupply emptyWorld) [].

(** The layer record of [leaf n]. *)
Definition layerL (n : string) : LayerRec :=
  mkLayer n (String.append "layer " n) "RECTANGLE".

(** The three layers, the first with a stroke of the same style, on a
    host that rejects any update of the first layer's fill. *)
Definition stubbornWorld : World :=
  mkWorld
    [Node (leaf "L1" (Some (Val "S:999")) (Some (Val "S:999")) None) None;
     Node (leaf "L2" (Some (Val "S:999")) None None) None;
     Node (leaf "L3" (Some (Val "S:999")) None None) None]
    [mkStyle "S:111" "Brand" false []] [] [] []
    (fun _ => Ok None)
    (fun nid sl _ => (nid =? "L1") && slot_eqb sl SFill)
    (fun _ _ => false) (styleIdSupply emptyWorld) [].

(* ===================================================================== *)
(** ** selectLayers and the message handler *)
(* ===================================================================== *)

From Stdlib Require Import DecimalString.

(** [figma.ui.postMessage({ type: 'scan-result', remoteStyles, localStyles })] *)
Inductive UiMessage : Type :=
| ScanResult : list RemoteStyleInfo -> list LocalStyleInfo -> UiMessage.

(** The side of the host that faces the user: the selection of the
    current page, the calls of [figma.viewport.scrollAndZoomIntoView],
    the messages posted to the UI, the notifications shown, whether the
    plugin was closed, and whether the host can load the font
    [Inter Regular]. *)
Record Ui : Type := mkUi {
  selection : list NodeProps;
  focused : list (list NodeProps);
  posted : list UiMessage;
  notified : list string;
  closed : bool;
  interLoads : bool
}.

(** [figma.currentPage.selection = nodes] *)
Definition setSelection (nodes : list NodeProps) : M Ui unit :=
  u <- getL ;;
  putL (mkUi nodes (focused u) (posted u) (notified u) (closed u)
          (interLoads u)).

(** [figma.viewport.scrollAndZoomIntoView(nodes)] *)
Definition scrollAndZoomIntoView (nodes : list NodeProps) : M Ui unit :=
  u <- getL ;;
  putL (mkUi (selection u) (focused u ++ [nodes]) (posted u) (notified u)
          (closed u) (interLoads u)).

(** [figma.ui.postMessage(m)] *)
Definition postMessage (m : UiMessage) : M Ui unit :=
  u <- getL ;;
  putL (mkUi (selection u) (focused u) (posted u ++ [m]) (notified u)
          (closed u) (interLoads u)).

(** [figma.notify(text)] *)
Definition notify (text : string) : M Ui unit :=
  u <- getL ;;
  putL (mkUi (selection u) (focused u) (posted u) (notified u ++ [text])
          (closed u) (interLoads u)).

(** [figma.closePlugin()] *)
Definition closePlugin : M Ui unit :=
  u <- getL ;;
  putL (mkUi (selection u) (focused u) (posted u) (notified u) true
          (interLoads u)).

(** [figma.loadFontAsync({ family: "Inter", style: "Regular" })] *)
Definition loadFontAsync : M Ui unit :=
  u <- getL ;;
  if interLoads u then ret tt else throw "font could not be loaded".

(** The loop of [selectLayers] (lines 161-165); [nodes] is the array the
    resolved nodes are pushed to. *)
Fixpoint selectLoop (layerIds : list string) (nodes : list NodeProps)
  : M Ui (list NodeProps) :=
  match layerIds with
  | [] => ret nodes
  | id :: rest =>
      node <- getNodeByIdAsync id ;;
      match node with
      | Some nd => selectLoop rest (nodes ++ [nd])
      | None => selectLoop rest nodes
      end
  end.

(** [selectLayers] (lines 160-170). *)
Definition selectLayers (layerIds : list string) : M Ui unit :=
  nodes <- selectLoop layerIds [] ;;
  setSelection nodes ;;
  if (0 <? length nodes)%nat then scrollAndZoomIntoView nodes else ret tt.

(** A number as a template literal prints it. *)
Definition showNat (n : nat) : string :=
  NilEmpty.string_of_uint (Nat.to_uint n).

(** The texts of the two notifications (lines 289 and 302). *)
Definition swappedText (count : nat) : string :=
  String.append (showNat count) "個のレイヤーのスタイルを変更しました".

Definition importedText (count : nat) : string :=
  String.append "スタイルをインポートし、"
    (String.append (showNat count) "個のレイヤーに適用しました").

(** The scan and the post of its result, as every branch of the handler
    that reports ends (lines 277-284, 292-298, 305-311) and as the plugin
    starts (lines 318-326). *)
Definition postScan : M Ui unit :=
  remoteStyles <- findLayersWithRemoteStyles ;;
  localStyles <- getLocalStyles ;;
  postMessage (ScanResult remoteStyles localStyles).

(** A message of the UI.  The handler looks at [msg.type] and hands the
    other fields on as they are, so a field the message does not carry
    reaches the code as [undefined]: [None] here.  A message without a
    type takes no branch, as one of an unknown type does.  The fields
    [newStyleId] and [styleName] are read by the host alone
    ([set...StyleIdAsync], [newStyle.name]), whose interface takes
    strings: they are strings here. *)
Record Msg : Type := mkMsg {
  msg_type : string;
  msg_layerIds : option (list string);
  msg_oldStyleId : option string;
  msg_newStyleId : string;
  msg_styleType : option string;
  msg_styleName : string;
  msg_styleId : option string
}.

(** [for (const id of layerIds)] when [layerIds] is [undefined]: the
    iteration throws before the body of the loop is entered (lines 162,
    176 and 219, none of them inside a [try]). *)
Definition notIterable : string := "TypeError: layerIds is not iterable".

(** [selectLayers(msg.layerIds)] *)
Definition selectLayersOf (layerIds : option (list string)) : M Ui unit :=
  match layerIds with
  | Some ids => selectLayers ids
  | None => throw notIterable
  end.

(** [swapStyle(msg.layerIds, msg.oldStyleId, msg.newStyleId, msg.styleType)].
    A binding is a string or [figma.mixed] and the kinds are four strings:
    with [oldStyleId] or [styleType] [undefined] none of the comparisons
    of lines 181-205 holds, every layer is resolved and left alone, and
    the count stays 0. *)
Definition swapStyleOf (layerIds : option (list string))
  (oldStyleId : option string) (newStyleId : string)
  (styleType : option string) : M Ui nat :=
  match layerIds with
  | None => throw notIterable
  | Some ids =>
      match oldStyleId, styleType with
      | Some old, Some ty => swapStyle ids old newStyleId ty
      | _, _ => ret 0
      end
  end.

(** [importRemoteStyle(msg.layerIds, msg.styleType, msg.styleName, msg.styleId)].
    With [styleType] [undefined] no condition of lines 224-260 holds and
    [newStyle] stays [null]; with [styleId] [undefined] the style is
    created as usual and the rebind of line 269 matches no binding. *)
Definition importRemoteStyleOf (layerIds : option (list string))
  (styleType : option string) (styleName : string)
  (oldStyleId : option string) : M Ui nat :=
  match layerIds with
  | None => throw notIterable
  | Some ids =>
      match styleType with
      | None => ret 0
      | Some ty =>
          match oldStyleId with
          | Some old => importRemoteStyle ids ty styleName old
          | None =>
              call (None : option string)
                (importLoop ids ty styleName ;; ret 0)
          end
      end
  end.

(** [figma.ui.onmessage] (lines 275-315). *)
Definition onmessage (msg : Msg) : M Ui unit :=
  if msg_type msg =? "scan" then postScan
  else if msg_type msg =? "select-layers" then
    selectLayersOf (msg_layerIds msg)
  else if msg_type msg =? "swap-style" then
    count <- swapStyleOf (msg_layerIds msg) (msg_oldStyleId msg)
               (msg_newStyleId msg) (msg_styleType msg) ;;
    notify (swappedText count) ;;
    postScan
  else if msg_type msg =? "import-style" then
    loadFontAsync ;;
    count <- importRemoteStyleOf (msg_layerIds msg) (msg_styleType msg)
               (msg_styleName msg) (msg_styleId msg) ;;
    notify (importedText count) ;;
    postScan
  else if msg_type msg =? "close" then closePlugin
  else ret tt.

(** The state a handler leaves, whether it returned or threw; a closed
    plugin handles no message. *)
Definition deliver (s : Ui * World) (msg : Msg) : Ui * World :=
  if closed (fst s) then s else snd (onmessage msg s).

(** A session: the scan the plugin starts with, then the messages of the
    UI, one after the other. *)
Definition session (msgs : list Msg) (s : Ui * World) : Ui * World :=
  fold_left deliver msgs (snd (postScan s)).

(** The pair of reports a scan of [w] yields. *)
Definition reportOf (w : World)
  : list RemoteStyleInfo * list LocalStyleInfo :=
  (map_values (fold_left (stepRef w) (pageRefs w) []), localCatalog w).

(** The nodes the ids resolve to, in the order of the ids. *)
Definition resolved (w : World) (layerIds : list string) : list NodeProps :=
  flat_map (fun id => match getNode w id with
                      | Some nd => [nd]
                      | None => []
                      end) layerIds.

(** The last message posted is the report of the document as it is. *)
Definition current (s : Ui * World) : Prop :=
  exists earlier,
    posted (fst s) =
    earlier ++ [ScanResult (fst (reportOf (snd s))) (snd (reportOf (snd s)))].

(** An update the host refused, and a diagnostic written to the console. *)
Definition refused (e : HostEvent) : bool :=
  match e with
  | EvSet _ _ _ false => true
  | _ => false
  end.

Definition diagnostic (e : HostEvent) : bool :=
  match e with
  | EvError _ => true
  | _ => false
  end.

(** What [swapStyle] may ask of the host: an update, to [new], of a
    binding the kind looks at on a listed layer that resolves, or the
    diagnostic of its [catch] block. *)
Definition swapRequest (w : World) (layerIds : list string)
  (new styleType : string) (e : HostEvent) : Prop :=
  e = EvError "Error swapping style:" \/
  exists nid sl ok,
    e = EvSet nid sl new ok /\ In nid layerIds /\
    getNode w nid <> None /\ In sl (slotsOf styleType).

(** The entry is named after what the registry answers for its
    identifier: the name of a style flagged remote, or the placeholder. *)
Definition namedBy (w : World) (entry : RemoteStyleInfo) : Prop :=
  match lookupStyle w (styleId entry) with
  | Ok (Some st) => style_remote st = true /\ styleName entry = style_name st
  | Ok None => styleName entry = unknownName
  | Throw _ => styleName entry = unknownName
  end.

(** The registry lookups of identifier [s] among the events. *)
Definition lookupsOf (s : string) (evs : list HostEvent) : list HostEvent :=
  filter (fun e => match e with EvLookup x => x =? s | _ => false end) evs.

(** A binding, taken away when it holds the empty string. *)
Definition dropEmpty (b : option (MixedOr string)) : option (MixedOr string) :=
  match b with
  | Some (Val s) => if s =? "" then None else b
  | _ => b
  end.

(** The node with the bindings that hold the empty string taken away. *)
Definition clearEmpty (p : NodeProps) : NodeProps :=
  mkProps (node_id p) (node_name p) (node_type p)
    (dropEmpty (fillStyleId p)) (dropEmpty (strokeStyleId p))
    (dropEmpty (textStyleId p)) (dropEmpty (effectStyleId p))
    (dropEmpty (gridStyleId p))
    (fills p) (fontSize p) (fontName p) (lineHeight p) (letterSpacing p)
    (textCase p) (textDecoration p) (effects p) (layoutGrids p).

(** The number of layer records a map holds. *)
Definition recordCount (m : RMap) : nat :=
  list_sum (map (fun kv => length (layers (snd kv))) m).

(* ===================================================================== *)
(** ** importRemoteStyle as a change of the style collections *)
(* ===================================================================== *)

(** The local styles of one kind. *)
Definition stylesOf (k : StyleKind) (w : World) : list Style :=
  match k with
  | FILL => paintStyles w
  | TEXT => textStyles w
  | EFFECT => effectStyles w
  | GRID => gridStyles w
  end.

(** The properties [importRemoteStyle] copies from a donor to the new
    style, in the order of the assignments. *)
Definition donorFields (styleType : string) (node : NodeProps)
  : list (string * Value) :=
  if (styleType =? "FILL") && isSome (fills node) then
    match fills node with
    | Some (Val fs) => [("paints", fs)]
    | _ => []
    end
  else if (styleType =? "TEXT") && (node_type node =? "TEXT") then
    match fontSize node, fontName node, lineHeight node,
          letterSpacing node, textCase node, textDecoration node with
    | Val fsz, Val fnm, Val lh, Val ls, Val tc, Val td =>
        [("fontSize", fsz); ("fontName", fnm); ("lineHeight", lh);
         ("letterSpacing", ls); ("textCase", tc); ("textDecoration", td)]
    | _, _, _, _, _, _ => []
    end
  else if (styleType =? "EFFECT") && isSome (effects node) then
    match effects node with
    | Some es => [("effects", es)]
    | None => []
    end
  else if (styleType =? "GRID") && isSome (layoutGrids node) then
    match layoutGrids node with
    | Some gs => [("layoutGrids", gs)]
    | None => []
    end
  else [].

(** The first layer of the list that qualifies as a donor. *)
Definition firstDonor (w : World) (layerIds : list string)
  (styleType : string) : option NodeProps :=
  find (donor styleType) (resolved w layerIds).

(** The host after an empty style of kind [k] was created as [sid]. *)
Definition createdWorld (k : StyleKind) (sid : string) (w : World) : World :=
  logEvent (EvCreate k sid)
    (match k with
     | FILL => withStyles w (paintStyles w ++ [mkStyle sid "" false []])
                 (textStyles w) (effectStyles w) (gridStyles w)
     | TEXT => withStyles w (paintStyles w)
                 (textStyles w ++ [mkStyle sid "" false []])
                 (effectStyles w) (gridStyles w)
     | EFFECT => withStyles w (paintStyles w) (textStyles w)
                   (effectStyles w ++ [mkStyle sid "" false []])
                   (gridStyles w)
     | GRID => withStyles w (paintStyles w) (textStyles w)
                 (effectStyles w) (gridStyles w ++ [mkStyle sid "" false []])
     end).

(** The host after the style [sid] was given its name. *)
Definition namedWorld (sid name : string) (w : World) : World :=
  logEvent (EvAssign sid "name" true)
    (mapStyles w
       (updStyle sid (fun s =>
          mkStyle (style_id s) name (style_remote s) (style_fields s)))).

(** The host after one more property was assigned to the style [sid]. *)
Definition fieldedWorld (w : World) (sid : string) (fv : string * Value)
  : World :=
  logEvent (EvAssign sid (fst fv) true)
    (mapStyles w
       (updStyle sid (fun s =>
          mkStyle (style_id s) (style_name s) (style_remote s)
            (style_fields s ++ [(fst fv, snd fv)])))).

(** The host after the style was created, named and given the fields
    one after the other. *)
Definition materialized (k : StyleKind) (sid name : string)
  (fields : list (string * Value)) (w : World) : World :=
  fold_left (fun w fv => fieldedWorld w sid fv) fields
    (namedWorld sid name (createdWorld k sid w)).

(** Equality of kinds. *)
Definition kind_eqb (a b : StyleKind) : bool :=
  match a, b with
  | FILL, FILL | TEXT, TEXT | EFFECT, EFFECT | GRID, GRID => true
  | _, _ => false
  end.

(* ===================================================================== *)
(** ** Running computations *)
(* ===================================================================== *)

Lemma bind_ok {L A B} (c : M L A) (k : A -> M L B) s a s' :
  c s = (Ok a, s') -> bind c k s = k a s'.
Proof. intros H. unfold bind. rewrite H. reflexivity. Qed.

Lemma bind_throw {L A B} (c : M L A) (k : A -> M L B) s e s' :
  c s = (Throw e, s') -> bind c k s = (Throw e, s').
Proof. intros H. unfold bind. rewrite H. reflexivity. Qed.

Lemma after_nil w : after w [] = w.
Proof. destruct w. unfold after, withLog. simpl. rewrite app_nil_r. reflexivity. Qed.

Lemma after_after w a b : after (after w a) b = after w (a ++ b).
Proof. unfold after, withLog. simpl. rewrite app_assoc. reflexivity. Qed.

(* ===================================================================== *)
(** ** The working map *)
(* ===================================================================== *)

Lemma map_get_set_same k v m : map_get k (map_set k v m) = Some v.
Proof.
  induction m as [|[k' v'] m IH]; simpl.
  - rewrite String.eqb_refl. reflexivity.
  - destruct (k' =? k) eqn:E; simpl; rewrite E; auto.
Qed.

Lemma map_get_set_other k k' v m :
  k <> k' -> map_get k (map_set k' v m) = map_get k m.
Proof.
  intros Hne. induction m as [|[k2 v2] m IH]; simpl.
  - destruct (k' =? k) eqn:E; [apply String.eqb_eq in E; congruence | reflexivity].
  - destruct (k2 =? k') eqn:E; simpl.
    + apply String.eqb_eq in E. subst k2.
      destruct (k' =? k) eqn:E2; [apply String.eqb_eq in E2; congruence | reflexivity].
    + rewrite IH. reflexivity.
Qed.

Lemma map_set_absent k v m :
  map_get k m = None -> map_set k v m = m ++ [(k, v)].
Proof.
  induction m as [|[k' v'] m IH]; simpl; intros H; [reflexivity|].
  destruct (k' =? k); [discriminate|]. rewrite IH; auto.
Qed.

Lemma map_set_keys k v m :
  map_get k m <> None -> map fst (map_set k v m) = map fst m.
Proof.
  induction m as [|[k' v'] m IH]; simpl; intros H; [congruence|].
  destruct (k' =? k) eqn:E; simpl; [reflexivity|]. rewrite IH; auto.
Qed.

Lemma map_get_app k m1 m2 :
  map_get k (m1 ++ m2) =
  match map_get k m1 with Some v => Some v | None => map_get k m2 end.
Proof.
  induction m1 as [|[k' v'] m1 IH]; simpl; [reflexivity|].
  destruct (k' =? k); auto.
Qed.

Lemma map_get_In k v m : map_get k m = Some v -> In (k, v) m.
Proof.
  induction m as [|[k' v'] m IH]; simpl; [discriminate|].
  destruct (k' =? k) eqn:E.
  - apply String.eqb_eq in E. intros H. inversion H. subst. auto.
  - auto.
Qed.

Lemma In_map_get k v m :
  NoDup (map fst m) -> In (k, v) m -> map_get k m = Some v.
Proof.
  induction m as [|[k' v'] m IH]; simpl; intros Hnd Hin; [contradiction|].
  inversion Hnd as [|? ? Hni Hnd']; subst.
  destruct Hin as [Heq|Hin].
  - inversion Heq; subst. rewrite String.eqb_refl. reflexivity.
  - destruct (k' =? k) eqn:E.
    + apply String.eqb_eq in E. subst k'. exfalso. apply Hni.
      change k with (fst (k, v)). apply in_map. exact Hin.
    + auto.
Qed.

Lemma map_get_None_keys k m : map_get k m = None <-> ~ In k (map fst m).
Proof.
  induction m as [|[k' v'] m IH]; simpl.
  - tauto.
  - destruct (k' =? k) eqn:E.
    + apply String.eqb_eq in E. subst. split; [discriminate|]. intros H. exfalso. auto.
    + apply String.eqb_neq in E. rewrite IH. tauto.
Qed.

(* ===================================================================== *)
(** ** The scan is a fold over the references *)
(* ===================================================================== *)

Lemma map_set_last k v v' m :
  map_get k m = None -> map_set k v' (m ++ [(k, v)]) = m ++ [(k, v')].
Proof.
  induction m as [|[k' v0] m IH]; simpl; intros H.
  - rewrite String.eqb_refl. reflexivity.
  - destruct (k' =? k); [discriminate|]. rewrite IH; auto.
Qed.

Lemma ensure_push_run sid name k p m w :
  bind (ensureEntry sid name k) (fun _ => pushLayer sid p) (m, w) =
  (Ok tt, (record sid name k (layerOf p) m, w)).
Proof.
  unfold ensureEntry, pushLayer, record, map_has.
  cbv [bind getL putL ret fst snd].
  destruct (map_get sid m) as [info|] eqn:E; cbv [negb].
  - rewrite E. reflexivity.
  - rewrite map_get_set_same. cbv [addLayers styleId styleName styleType layers].
    rewrite (map_set_absent _ _ _ E), (map_set_last _ _ _ _ E).
    reflexivity.
Qed.

Lemma stepRef_after w evs : stepRef (after w evs) = stepRef w.
Proof. reflexivity. Qed.

Lemma tryCatch_ok {L A} (body : M L A) h s a s' :
  body s = (Ok a, s') -> tryCatch body h s = (Ok a, s').
Proof. intros H. unfold tryCatch. rewrite H. reflexivity. Qed.

Lemma tryCatch_throw {L A} (body : M L A) h s e s' :
  body s = (Throw e, s') -> tryCatch body h s = h e s'.
Proof. intros H. unfold tryCatch. rewrite H. reflexivity. Qed.

Lemma getStyleByIdAsync_run {L} sid (l : L) w :
  getStyleByIdAsync sid (l, w) =
  (match lookupStyle w sid with Ok r => Ok r | Throw e => Throw e end,
   (l, after w [EvLookup sid])).
Proof.
  unfold getStyleByIdAsync. cbv [bind modW getW fst snd].
  change (lookupStyle (logEvent (EvLookup sid) w) sid) with (lookupStyle w sid).
  destruct (lookupStyle w sid); reflexivity.
Qed.

Lemma checkStyle_run p sid k m w :
  checkStyle p (Val sid) k (m, w) =
  (Ok tt, (stepRef w m (layerOf p, sid, k), after w [EvLookup sid])).
Proof.
  unfold checkStyle, stepRef, remoteName.
  cbv [ref_sid ref_kind ref_layer fst snd].
  destruct (lookupStyle w sid) as [[st|]|e] eqn:E.
  - apply tryCatch_ok. erewrite bind_ok by (rewrite getStyleByIdAsync_run, E; reflexivity).
    cbv beta iota. destruct (style_remote st).
    + apply ensure_push_run.
    + reflexivity.
  - apply tryCatch_ok. erewrite bind_ok by (rewrite getStyleByIdAsync_run, E; reflexivity).
    apply ensure_push_run.
  - erewrite tryCatch_throw.
    2:{ erewrite bind_throw by (rewrite getStyleByIdAsync_run, E; reflexivity). reflexivity. }
    apply ensure_push_run.
Qed.

Lemma checkBinding_run p sl k m w :
  checkBinding p sl k (m, w) =
  (Ok tt, (fold_left (stepRef w) (refOf p sl k) m,
           after w (lookups (refOf p sl k)))).
Proof.
  unfold checkBinding, refOf.
  destruct (binding sl p) as [[|s]|]; simpl;
    try (unfold ret; rewrite after_nil; reflexivity).
  destruct (s =? ""); simpl.
  - unfold ret; rewrite after_nil; reflexivity.
  - apply checkStyle_run.
Qed.

Lemma lookups_app a b : lookups (a ++ b) = lookups a ++ lookups b.
Proof. apply map_app. Qed.

Lemma checkBindings_run p m w :
  checkBindings p (m, w) =
  (Ok tt, (fold_left (stepRef w) (refsOf p) m, after w (lookups (refsOf p)))).
Proof.
  unfold checkBindings, refsOf.
  repeat (erewrite bind_ok by apply checkBinding_run).
  rewrite checkBinding_run.
  repeat rewrite stepRef_after.
  repeat rewrite after_after.
  repeat rewrite fold_left_app.
  repeat rewrite lookups_app.
  repeat rewrite <- app_assoc.
  reflexivity.
Qed.

Lemma SceneNode_ind' (P : SceneNode -> Prop) :
  (forall p, P (Node p None)) ->
  (forall p cs, Forall P cs -> P (Node p (Some cs))) ->
  forall n, P n.
Proof.
  intros Hleaf Hcont. fix IH 1. intros [p [cs|]].
  - apply Hcont. induction cs as [|c cs IHcs]; constructor.
    + apply IH.
    + exact IHcs.
  - apply Hleaf.
Qed.

Lemma traverse_unfold p ch :
  traverse (Node p ch) =
  (checkBindings p ;;
   match ch with Some cs => traverseAll cs | None => ret tt end).
Proof.
  destruct ch as [cs|]; reflexivity.
Qed.

Lemma refs_app a b : refs (a ++ b) = refs a ++ refs b.
Proof. apply flat_map_app. Qed.

Lemma traverseAll_run cs :
  Forall traverse_spec cs ->
  forall m w,
    traverseAll cs (m, w) =
    (Ok tt, (fold_left (stepRef w) (refs (flat_map nodesOf cs)) m,
             after w (lookups (refs (flat_map nodesOf cs))))).
Proof.
  induction 1 as [|c cs Hc Hcs IH]; intros m w; simpl.
  - unfold ret. rewrite after_nil. reflexivity.
  - erewrite bind_ok by apply Hc.
    rewrite IH, stepRef_after, after_after, refs_app, fold_left_app, lookups_app.
    reflexivity.
Qed.

Lemma traverse_run n : traverse_spec n.
Proof.
  induction n as [p|p cs IH] using SceneNode_ind'; intros m w;
    rewrite traverse_unfold; erewrite bind_ok by apply checkBindings_run.
  - simpl. unfold ret, refs. simpl. rewrite app_nil_r. reflexivity.
  - rewrite (traverseAll_run cs IH), stepRef_after, after_after.
    change (nodesOf (Node p (Some cs))) with ([p] ++ flat_map nodesOf cs).
    rewrite refs_app, fold_left_app, lookups_app.
    unfold refs at 1 3. simpl. rewrite app_nil_r. reflexivity.
Qed.

(* ===================================================================== *)
(** ** What the fold builds *)
(* ===================================================================== *)

Lemma filter_filter {A} (f g : A -> bool) l :
  filter f (filter g l) = filter (fun x => g x && f x) l.
Proof.
  induction l as [|a l IH]; simpl; [reflexivity|].
  destruct (g a); simpl; [destruct (f a)|]; rewrite IH; reflexivity.
Qed.

Lemma notIn_spec seen x : notIn seen x = true <-> ~ In x seen.
Proof.
  unfold notIn. rewrite negb_true_iff. split.
  - intros H Hin. assert (existsb (String.eqb x) seen = true) as E.
    { apply existsb_exists. exists x. split; [exact Hin|apply String.eqb_refl]. }
    congruence.
  - intros H. destruct (existsb (String.eqb x) seen) eqn:E; [|reflexivity].
    apply existsb_exists in E. destruct E as [y [Hy Hxy]].
    apply String.eqb_eq in Hxy. subst. contradiction.
Qed.

Lemma notIn_false seen x : notIn seen x = false <-> In x seen.
Proof.
  destruct (notIn seen x) eqn:E.
  - apply notIn_spec in E. split; [discriminate|contradiction].
  - split; [|reflexivity]. intros _.
    destruct (in_dec string_dec x seen) as [H|H]; [exact H|].
    apply notIn_spec in H. congruence.
Qed.

Lemma map_has_keys k m : map_get k m = None <-> notIn (map fst m) k = true.
Proof. rewrite notIn_spec. apply map_get_None_keys. Qed.

Lemma record_keys_present sid name k lr m :
  map_get sid m <> None -> map fst (record sid name k lr m) = map fst m.
Proof.
  intros H. unfold record. destruct (map_get sid m) eqn:E; [|congruence].
  apply map_set_keys. congruence.
Qed.

Lemma record_keys_absent sid name k lr m :
  map_get sid m = None -> map fst (record sid name k lr m) = map fst m ++ [sid].
Proof.
  intros H. unfold record. rewrite H. rewrite map_app. reflexivity.
Qed.

(** K1: the keys of the map, in order. *)
Lemma fold_keys w rs : forall m,
  map fst (fold_left (stepRef w) rs m) =
  map fst m ++
  filter (notIn (map fst m))
    (firstOccurrences (map ref_sid (filter (reported w) rs))).
Proof.
  induction rs as [|r rs IH]; intros m; simpl.
  - rewrite app_nil_r. reflexivity.
  - rewrite IH. unfold stepRef at 1 2, reported at 2.
    destruct (remoteName w (ref_sid r)) as [name|] eqn:E; simpl; [|reflexivity].
    destruct (map_get (ref_sid r) m) eqn:G.
    + rewrite record_keys_present by congruence.
      assert (notIn (map fst m) (ref_sid r) = false) as N.
      { apply notIn_false. destruct (in_dec string_dec (ref_sid r) (map fst m)) as [H|H]; [exact H|].
        apply map_get_None_keys in H. congruence. }
      rewrite N. f_equal. rewrite filter_filter. apply filter_ext_in.
      intros a _. destruct (a =? ref_sid r) eqn:Ea; simpl; [|reflexivity].
      apply String.eqb_eq in Ea. subst a. rewrite N. reflexivity.
    + rewrite record_keys_absent by exact G.
      assert (notIn (map fst m) (ref_sid r) = true) as N by (apply map_has_keys; exact G).
      rewrite N. rewrite <- app_assoc. simpl. do 2 f_equal.
      rewrite filter_filter. apply filter_ext.
      intros a. unfold notIn. rewrite existsb_app. simpl.
      rewrite orb_false_r, negb_orb.
      apply andb_comm.
Qed.

(** K2: values stay under their own identifier. *)
Lemma keyed_nil : keyed [].
Proof. intros k v []. Qed.

Lemma map_set_In k v m k' v' :
  In (k', v') (map_set k v m) -> (k' = k /\ v' = v) \/ In (k', v') m.
Proof.
  induction m as [|[k2 v2] m IH]; simpl.
  - intros [H|[]]. inversion H. auto.
  - destruct (k2 =? k) eqn:E; simpl.
    + apply String.eqb_eq in E. subst. intros [H|H]; [inversion H; auto|auto].
    + intros [H|H]; [auto|]. destruct (IH H); auto.
Qed.

Lemma stepRef_keyed w m r : keyed m -> keyed (stepRef w m r).
Proof.
  intros K. unfold stepRef. destruct (remoteName w (ref_sid r)); [|exact K].
  unfold record. destruct (map_get (ref_sid r) m) as [info|] eqn:G.
  - intros k v H. apply map_set_In in H. destruct H as [[-> ->]|H]; [|auto].
    simpl. apply K. apply map_get_In. exact G.
  - intros k v H. apply in_app_or in H. destruct H as [H|[H|[]]]; [auto|].
    inversion H. reflexivity.
Qed.

Lemma fold_keyed w rs : forall m, keyed m -> keyed (fold_left (stepRef w) rs m).
Proof.
  induction rs as [|r rs IH]; intros m K; simpl; [exact K|].
  apply IH, stepRef_keyed, K.
Qed.

(** K3: the entry of each identifier. *)
Lemma addLayers_app info a b :
  addLayers (addLayers info a) b = addLayers info (a ++ b).
Proof. unfold addLayers. simpl. rewrite app_assoc. reflexivity. Qed.

Lemma stepRef_get_other w m r s :
  ref_sid r <> s -> map_get s (stepRef w m r) = map_get s m.
Proof.
  intros Hne. unfold stepRef. destruct (remoteName w (ref_sid r)); [|reflexivity].
  unfold record. destruct (map_get (ref_sid r) m) eqn:G.
  - apply map_get_set_other. congruence.
  - rewrite map_get_app. destruct (map_get s m); [reflexivity|]. simpl.
    destruct (ref_sid r =? s) eqn:E; [apply String.eqb_eq in E; contradiction|reflexivity].
Qed.

Lemma fold_get_local w s rs : forall m,
  remoteName w s = None ->
  map_get s (fold_left (stepRef w) rs m) = map_get s m.
Proof.
  induction rs as [|r rs IH]; intros m Hs; simpl; [reflexivity|].
  rewrite IH by exact Hs.
  destruct (string_dec (ref_sid r) s) as [Heq|Hne].
  - unfold stepRef. rewrite Heq, Hs. reflexivity.
  - apply stepRef_get_other. exact Hne.
Qed.

Lemma fold_get_remote w s name rs : forall m,
  remoteName w s = Some name ->
  map_get s (fold_left (stepRef w) rs m) =
  match map_get s m with
  | Some info => Some (addLayers info (layersFor s rs))
  | None =>
      match find (sidIs s) rs with
      | Some r => Some (mkRemote s name (ref_kind r) (layersFor s rs))
      | None => None
      end
  end.
Proof.
  induction rs as [|r rs IH]; intros m Hs; simpl.
  - destruct (map_get s m) as [info|]; [|reflexivity].
    unfold layersFor, addLayers. simpl. rewrite app_nil_r. destruct info; reflexivity.
  - rewrite IH by exact Hs. unfold layersFor, sidIs. simpl.
    destruct (ref_sid r =? s) eqn:E.
    + apply String.eqb_eq in E. unfold stepRef. rewrite E, Hs. unfold record.
      destruct (map_get s m) as [info|] eqn:G.
      * rewrite map_get_set_same, addLayers_app. reflexivity.
      * rewrite map_get_app, G. simpl. rewrite String.eqb_refl.
        reflexivity.
    + apply String.eqb_neq in E. rewrite stepRef_get_other by exact E.
      reflexivity.
Qed.

Lemma firstOccurrences_In x l : In x (firstOccurrences l) <-> In x l.
Proof.
  induction l as [|a l IH]; simpl; [tauto|].
  rewrite filter_In, IH, negb_true_iff, String.eqb_neq.
  destruct (string_dec a x); [subst; tauto|]. split; [tauto|].
  intros [H|H]; [tauto|]. right. split; [exact H|congruence].
Qed.

Lemma firstOccurrences_NoDup l : NoDup (firstOccurrences l).
Proof.
  induction l as [|a l IH]; simpl; constructor.
  - rewrite filter_In, String.eqb_refl. simpl. intros [_ H]. discriminate.
  - apply NoDup_filter. exact IH.
Qed.

(* ===================================================================== *)
(** ** The scan *)
(* ===================================================================== *)

Lemma traverseAll_page cs m w :
  traverseAll cs (m, w) =
  (Ok tt, (fold_left (stepRef w) (refs (flat_map nodesOf cs)) m,
           after w (lookups (refs (flat_map nodesOf cs))))).
Proof.
  apply traverseAll_run. apply Forall_forall. intros n _. apply traverse_run.
Qed.

Lemma findLayersWithRemoteStyles_run {L} (l : L) w :
  findLayersWithRemoteStyles (l, w) =
  (Ok (map_values (fold_left (stepRef w) (pageRefs w) [])),
   (l, after w (lookups (pageRefs w)))).
Proof.
  unfold findLayersWithRemoteStyles, call. simpl snd.
  erewrite bind_ok by reflexivity. simpl snd.
  erewrite bind_ok by apply traverseAll_page.
  reflexivity.
Qed.

(** The catalog of local styles, as the specification words it. *)
Lemma fold_pushLocal k xs acc :
  fold_left (pushLocal k) xs acc =
  acc ++ map (fun s => mkLocal (style_id s) (style_name s) k)
           (filter (fun s => negb (style_remote s)) xs).
Proof.
  revert acc. induction xs as [|s xs IH]; intros acc; simpl.
  - rewrite app_nil_r. reflexivity.
  - rewrite IH. unfold pushLocal. destruct (style_remote s); simpl.
    + reflexivity.
    + rewrite <- app_assoc. reflexivity.
Qed.

Lemma getLocalStyles_run {L} (l : L) w :
  getLocalStyles (l, w) = (Ok (localCatalog w), (l, w)).
Proof.
  unfold getLocalStyles, localCatalog, summaries. erewrite bind_ok by reflexivity.
  simpl snd. cbv zeta. rewrite !fold_pushLocal. simpl.
  rewrite <- !app_assoc. reflexivity.
Qed.

Lemma scan_run {L} (l : L) w :
  scan (l, w) =
  (Ok (map_values (fold_left (stepRef w) (pageRefs w) []), localCatalog w),
   (l, after w (lookups (pageRefs w)))).
Proof.
  unfold scan.
  erewrite bind_ok by apply findLayersWithRemoteStyles_run.
  erewrite bind_ok by apply getLocalStyles_run.
  reflexivity.
Qed.

(* ===================================================================== *)
(** ** References of the page *)
(* ===================================================================== *)

Lemma refOf_layer p sl k r : In r (refOf p sl k) -> ref_layer r = layerOf p.
Proof.
  unfold refOf. destruct (binding sl p) as [[|s]|]; try contradiction.
  destruct (s =? ""); [contradiction|]. intros [<-|[]]. reflexivity.
Qed.

Lemma refsOf_layer p r : In r (refsOf p) -> ref_layer r = layerOf p.
Proof.
  unfold refsOf. rewrite !in_app_iff.
  intros [H|[H|[H|[H|H]]]]; eapply refOf_layer; exact H.
Qed.

Lemma refOf_In p sl s :
  binding sl p = Some (Val s) -> s <> "" ->
  In (layerOf p, s, slotKind sl) (refsOf p).
Proof.
  intros Hb Hs. apply String.eqb_neq in Hs.
  assert (refOf p sl (slotKind sl) = [(layerOf p, s, slotKind sl)]) as E.
  { unfold refOf. rewrite Hb, Hs. reflexivity. }
  unfold refsOf. rewrite !in_app_iff.
  destruct sl; simpl in E; rewrite E; simpl; auto 10.
Qed.

Lemma pageRefs_In w p sl s :
  In p (allNodes w) -> binding sl p = Some (Val s) -> s <> "" ->
  In (layerOf p, s, slotKind sl) (pageRefs w).
Proof.
  intros Hp Hb Hs. unfold pageRefs, refs. apply in_flat_map.
  exists p. split; [exact Hp|]. apply refOf_In; assumption.
Qed.

Lemma find_sidIs_In s r rs :
  In r rs -> ref_sid r = s -> exists r', find (sidIs s) rs = Some r'.
Proof.
  intros Hin Hs. destruct (find (sidIs s) rs) as [r'|] eqn:E; [eauto|].
  exfalso. pose proof (find_none _ _ E _ Hin) as H.
  unfold sidIs in H. rewrite Hs, String.eqb_refl in H. discriminate.
Qed.

Lemma scan_keys_NoDup w rs : NoDup (map fst (fold_left (stepRef w) rs [])).
Proof.
  rewrite fold_keys. simpl. apply NoDup_filter, firstOccurrences_NoDup.
Qed.

(** The entries of a scan: one per reported identifier, holding the layer
    records of the references to it. *)
Lemma scan_entry w rs entry :
  In entry (map_values (fold_left (stepRef w) rs [])) ->
  exists name r,
    remoteName w (styleId entry) = Some name /\
    find (sidIs (styleId entry)) rs = Some r /\
    entry = mkRemote (styleId entry) name (ref_kind r)
              (layersFor (styleId entry) rs).
Proof.
  unfold map_values. intros H. apply in_map_iff in H.
  destruct H as [[k v] [Hv Hin]]. simpl in Hv. subst v.
  assert (styleId entry = k) as Hk by (eapply fold_keyed; [apply keyed_nil|exact Hin]).
  pose proof (In_map_get _ _ _ (scan_keys_NoDup w rs) Hin) as G.
  rewrite Hk. destruct (remoteName w k) as [name|] eqn:E.
  - rewrite (fold_get_remote w k name rs [] E) in G. simpl in G.
    destruct (find (sidIs k) rs) as [r|]; [|discriminate].
    exists name, r. inversion G. auto.
  - rewrite (fold_get_local w k rs [] E) in G. discriminate.
Qed.

Lemma scan_has_entry w rs r name :
  In r rs -> remoteName w (ref_sid r) = Some name ->
  exists r0,
    find (sidIs (ref_sid r)) rs = Some r0 /\
    In (mkRemote (ref_sid r) name (ref_kind r0) (layersFor (ref_sid r) rs))
       (map_values (fold_left (stepRef w) rs [])).
Proof.
  intros Hin Hn. destruct (find_sidIs_In (ref_sid r) r rs Hin eq_refl) as [r0 Hr0].
  exists r0. split; [exact Hr0|].
  pose proof (fold_get_remote w (ref_sid r) name rs [] Hn) as G.
  simpl in G. rewrite Hr0 in G. apply map_get_In in G.
  unfold map_values. apply in_map_iff. eexists. split; [|exact G]. reflexivity.
Qed.

(* ===================================================================== *)
(** ** Properties of the scan *)
(* ===================================================================== *)

(** C7. Scanning a document twice in a row, with nothing changing it in
    between, yields the same [remoteStyles] and [localStyles] reports: a
    scan leaves nothing behind but the host's record of its lookups, and
    the second scan makes the same lookups again. *)
Theorem C7_scan_twice_same_reports :
  forall (L : Type) (l : L) (w : World),
    exists report evs,
      scan (l, w) = (Ok report, (l, after w evs)) /\
      scan (l, after w evs) = (Ok report, (l, after w (evs ++ evs))).
Proof.
  intros L l w. do 2 eexists. split.
  - apply scan_run.
  - rewrite scan_run, after_after. reflexivity.
Qed.

(** C8. The reported [remoteStyles] list has exactly one entry per
    distinct non-local style identifier referenced on the page, and the
    entries come in the order in which the depth-first traversal first
    met their identifiers: the identifier met first comes first. *)
Theorem C8_remote_styles_in_first_encounter_order :
  forall (L : Type) (l : L) (w : World),
    exists entries w',
      findLayersWithRemoteStyles (l, w) = (Ok entries, (l, w')) /\
      map styleId entries = firstOccurrences (map ref_sid (remoteRefs w)) /\
      NoDup (map styleId entries) /\
      (forall s, In s (map styleId entries) <->
                 exists r, In r (pageRefs w) /\ ref_sid r = s /\
                           remoteName w s <> None) /\
      (forall r rest, remoteRefs w = r :: rest ->
                      exists entry others,
                        entries = entry :: others /\
                        styleId entry = ref_sid r).
Proof.
  intros L l w. do 2 eexists. split; [apply findLayersWithRemoteStyles_run|].
  assert (map styleId (map_values (fold_left (stepRef w) (pageRefs w) [])) =
          firstOccurrences (map ref_sid (remoteRefs w))) as E.
  { pose proof (fold_keys w (pageRefs w) []) as K. simpl in K.
    rewrite (filter_ext _ (fun _ => true)), filter_true in K by reflexivity.
    fold (remoteRefs w) in K. rewrite <- K.
    pose proof (fold_keyed w (pageRefs w) [] keyed_nil) as Hk.
    unfold map_values. rewrite map_map.
    apply map_ext_in. intros [k v] Hin. simpl. apply Hk. exact Hin. }
  rewrite E. split; [reflexivity|]. split; [apply firstOccurrences_NoDup|].
  split.
  - intros s. rewrite firstOccurrences_In, in_map_iff. unfold remoteRefs. split.
    + intros [r [Hs Hr]]. apply filter_In in Hr. destruct Hr as [Hr Hrep].
      exists r. split; [exact Hr|]. split; [exact Hs|].
      unfold reported in Hrep. rewrite Hs in Hrep.
      destruct (remoteName w s); [discriminate|discriminate].
    + intros [r [Hr [Hs Hn]]]. exists r. split; [exact Hs|].
      apply filter_In. split; [exact Hr|]. unfold reported. rewrite Hs.
      destruct (remoteName w s); [reflexivity|congruence].
  - intros r rest Hr. rewrite Hr in E. simpl in E.
    destruct (map_values _) as [|entry others]; [discriminate|].
    exists entry, others. split; [reflexivity|]. inversion E. reflexivity.
Qed.

(** C9. The local-style catalog holds exactly the styles of the document
    whose remote flag is unset, each tagged with its kind, grouped by kind
    in the order Fill, Text, Effect, Grid and, within a kind, in the order
    in which the document enumerates them. *)
Theorem C9_local_catalog_grouped_by_kind :
  forall (L : Type) (l : L) (w : World),
    getLocalStyles (l, w) =
    (Ok (summaries FILL (paintStyles w) ++ summaries TEXT (textStyles w) ++
         summaries EFFECT (effectStyles w) ++ summaries GRID (gridStyles w)),
     (l, w)).
Proof.
  intros L l w. unfold getLocalStyles.
  erewrite bind_ok by reflexivity. simpl snd. cbv zeta.
  rewrite !fold_pushLocal. simpl. unfold summaries.
  rewrite <- !app_assoc. reflexivity.
Qed.

(** C5. When the registry lookup for an identifier met during a scan
    throws, the scan still completes: the identifier is treated as remote,
    its entry carries the placeholder name ['Unknown Style (Remote)'], and
    the record of the layer that references it (its id, its name and its
    type) is in that entry's layer list. *)
Theorem C5_lookup_fault_degrades_to_remote :
  forall (L : Type) (l : L) (w : World) (p : NodeProps) (sl : Slot)
         (s e : string),
    In p (allNodes w) ->
    binding sl p = Some (Val s) -> s <> "" ->
    lookupStyle w s = Throw e ->
    exists entries w' entry,
      findLayersWithRemoteStyles (l, w) = (Ok entries, (l, w')) /\
      In entry entries /\
      styleId entry = s /\
      styleName entry = "Unknown Style (Remote)" /\
      In (mkLayer (node_id p) (node_name p) (node_type p)) (layers entry).
Proof.
  intros L l w p sl s e Hp Hb Hs Hthrow.
  assert (remoteName w s = Some "Unknown Style (Remote)") as Hn
    by (unfold remoteName; rewrite Hthrow; reflexivity).
  pose proof (pageRefs_In w p sl s Hp Hb Hs) as Hin.
  destruct (scan_has_entry w (pageRefs w) _ _ Hin Hn) as [r0 [_ He]].
  do 3 eexists. split; [apply findLayersWithRemoteStyles_run|].
  split; [exact He|]. simpl. repeat split.
  unfold layersFor. apply in_map_iff.
  exists (mkLayer (node_id p) (node_name p) (node_type p), s, slotKind sl).
  split; [reflexivity|]. apply filter_In. split; [exact Hin|].
  apply String.eqb_refl.
Qed.

Lemma C5_witness :
  exists entries w' entry,
    findLayersWithRemoteStyles (tt, faultyWorld) = (Ok entries, (tt, w')) /\
    In entry entries /\
    styleId entry = "S:999" /\
    styleName entry = "Unknown Style (Remote)" /\
    In (mkLayer "1:1" "layer 1:1" "RECTANGLE") (layers entry).
Proof.
  apply (C5_lookup_fault_degrades_to_remote unit tt faultyWorld twiceBound
           SStroke "S:999" "host error").
  - simpl. auto.
  - reflexivity.
  - discriminate.
  - reflexivity.
Defined.

(** C2 (as stated). A node whose fill and stroke hold the same remote
    identifier is recorded twice in that identifier's entry, so the layer
    list does hold two records with one layer id. *)
Lemma C2_duplicate_layer_id : ~ noDuplicateLayers twiceBoundWorld.
Proof.
  intros H.
  specialize (H _ _ (findLayersWithRemoteStyles_run tt twiceBoundWorld)).
  specialize (H _ (or_introl eq_refl)). simpl in H.
  inversion H as [|x xs Hni _]. apply Hni. left. reflexivity.
Qed.

Lemma filter_sid_le_one (k : string) (rs : list Ref) :
  NoDup (map ref_sid rs) -> length (filter (sidIs k) rs) <= 1.
Proof.
  induction rs as [|r rs IH]; simpl; intros Hnd; [lia|].
  inversion Hnd as [|? ? Hni Hnd']; subst.
  unfold sidIs at 1. destruct (ref_sid r =? k) eqn:E; [|auto].
  apply String.eqb_eq in E. simpl.
  assert (filter (sidIs k) rs = []) as Z.
  { destruct (filter (sidIs k) rs) as [|r' t] eqn:F; [reflexivity|].
    exfalso. assert (In r' (filter (sidIs k) rs)) as Hin by (rewrite F; left; reflexivity).
    apply filter_In in Hin. destruct Hin as [Hin Hk].
    apply String.eqb_eq in Hk. apply Hni. rewrite E, <- Hk.
    apply in_map. exact Hin. }
  rewrite Z. simpl. lia.
Qed.

Lemma layersFor_app s a b : layersFor s (a ++ b) = layersFor s a ++ layersFor s b.
Proof. unfold layersFor. rewrite filter_app, map_app. reflexivity. Qed.

Lemma layersFor_ids s nodes x :
  In x (map layer_id (layersFor s (refs nodes))) -> In x (map node_id nodes).
Proof.
  unfold layersFor. rewrite map_map. intros H. apply in_map_iff in H.
  destruct H as [r [Hx Hr]]. apply filter_In in Hr. destruct Hr as [Hr _].
  unfold refs in Hr. apply in_flat_map in Hr. destruct Hr as [p [Hp Hr]].
  apply refsOf_layer in Hr. rewrite Hr in Hx. simpl in Hx. subst x.
  apply in_map. exact Hp.
Qed.

Lemma layersFor_node w s name p :
  remoteName w s = Some name -> distinctBindings w p ->
  map layer_id (layersFor s (refsOf p)) = [] \/
  map layer_id (layersFor s (refsOf p)) = [node_id p].
Proof.
  intros Hn Hd. unfold layersFor.
  assert (filter (sidIs s) (refsOf p) =
          filter (sidIs s) (filter (reported w) (refsOf p))) as E.
  { rewrite filter_filter. apply filter_ext. intros r. unfold sidIs, reported.
    destruct (ref_sid r =? s) eqn:Er; [|rewrite andb_false_r; reflexivity].
    apply String.eqb_eq in Er. rewrite Er, Hn. reflexivity. }
  pose proof (filter_sid_le_one s _ Hd) as Hle. rewrite <- E in Hle.
  destruct (filter (sidIs s) (refsOf p)) as [|r [|r' t]] eqn:F; simpl in Hle.
  - left. reflexivity.
  - right. simpl. f_equal.
    assert (In r (refsOf p)) as Hr.
    { assert (In r (filter (sidIs s) (refsOf p))) as H by (rewrite F; left; reflexivity).
      apply filter_In in H. tauto. }
    rewrite (refsOf_layer _ _ Hr). reflexivity.
  - lia.
Qed.

Lemma layersFor_NoDup w s name nodes :
  remoteName w s = Some name ->
  NoDup (map node_id nodes) ->
  (forall p, In p nodes -> distinctBindings w p) ->
  NoDup (map layer_id (layersFor s (refs nodes))).
Proof.
  intros Hn. induction nodes as [|p nodes IH]; simpl; intros Hnd Hd.
  - constructor.
  - inversion Hnd as [|? ? Hni Hnd']; subst.
    rewrite layersFor_app, map_app.
    assert (NoDup (map layer_id (layersFor s (refs nodes)))) as Hrest
      by (apply IH; auto).
    destruct (layersFor_node w s name p Hn (Hd p (or_introl eq_refl))) as [E|E];
      rewrite E; simpl; [exact Hrest|].
    constructor; [|exact Hrest].
    intros Hin. apply Hni. eapply layersFor_ids. exact Hin.
Qed.

Lemma nodesOf_mapNode f n : nodesOf (mapNode f n) = map f (nodesOf n).
Proof.
  induction n as [p|p cs IH] using SceneNode_ind'; simpl; [reflexivity|].
  f_equal. induction IH as [|c cs Hc Hcs IHcs]; simpl; [reflexivity|].
  rewrite map_app, Hc, IHcs. reflexivity.
Qed.

Lemma allNodes_map f cs :
  flat_map nodesOf (map (mapNode f) cs) = map f (flat_map nodesOf cs).
Proof.
  induction cs as [|c cs IH]; simpl; [reflexivity|].
  rewrite map_app, nodesOf_mapNode, IH. reflexivity.
Qed.

Lemma refOf_clearMixed p sl k : refOf (clearMixed p) sl k = refOf p sl k.
Proof.
  unfold refOf. destruct sl; simpl;
    match goal with |- context [dropMixed ?b] => destruct b as [[|?]|] end;
    reflexivity.
Qed.

Lemma refsOf_clearMixed p : refsOf (clearMixed p) = refsOf p.
Proof. unfold refsOf. rewrite !refOf_clearMixed. reflexivity. Qed.

Lemma refs_clearMixed nodes : refs (map clearMixed nodes) = refs nodes.
Proof.
  induction nodes as [|p nodes IH]; simpl; [reflexivity|].
  rewrite refsOf_clearMixed, IH. reflexivity.
Qed.

(** C10. A binding whose value is not a string (the host's [mixed]
    symbol) is skipped by the scan: checking it asks the registry nothing
    and leaves the working map as it was, and the whole scan reports and
    looks up exactly what it would if those bindings were absent. *)
Theorem C10_mixed_binding_is_skipped :
  (forall (p : NodeProps) (k : StyleKind) (m : RMap) (w : World),
      checkStyle p Mixed k (m, w) = (Ok tt, (m, w))) /\
  (forall (L : Type) (l : L) (w : World),
      let w' := withPage w (map (mapNode clearMixed) (page w)) in
      fst (findLayersWithRemoteStyles (l, w)) =
      fst (findLayersWithRemoteStyles (l, w')) /\
      hostLog (snd (snd (findLayersWithRemoteStyles (l, w)))) =
      hostLog (snd (snd (findLayersWithRemoteStyles (l, w'))))).
Proof.
  split; [reflexivity|].
  intros L l w w'. rewrite !findLayersWithRemoteStyles_run.
  assert (pageRefs w' = pageRefs w) as E.
  { unfold pageRefs, allNodes, w'. simpl.
    rewrite allNodes_map. apply refs_clearMixed. }
  rewrite E. split; reflexivity.
Qed.

(* ===================================================================== *)
(** ** swapStyle as a sequence of host events *)
(* ===================================================================== *)

Lemma setStyleIdAsync_accepted {L} nid sl new (l : L) w :
  rejectsStyleId w nid sl new = false ->
  setStyleIdAsync nid sl new (l, w) =
  (Ok tt, (l, perform w (EvSet nid sl new true))).
Proof.
  intros H. unfold setStyleIdAsync. cbv [bind getW snd]. rewrite H.
  reflexivity.
Qed.

Lemma setStyleIdAsync_rejected {L} nid sl new (l : L) w :
  rejectsStyleId w nid sl new = true ->
  setStyleIdAsync nid sl new (l, w) =
  (Throw "style id rejected", (l, perform w (EvSet nid sl new false))).
Proof.
  intros H. unfold setStyleIdAsync. cbv [bind getW snd]. rewrite H.
  reflexivity.
Qed.

Lemma rejects_perform w e : rejectsStyleId (perform w e) = rejectsStyleId w.
Proof. destruct e as [| ? ? ? []| | |]; reflexivity. Qed.

Lemma countAccepted_app a b :
  countAccepted (a ++ b) = countAccepted a + countAccepted b.
Proof. unfold countAccepted. rewrite filter_app, length_app. reflexivity. Qed.

Lemma tryCatch_bind_ok {L A B} (c : M L A) (k : A -> M L B) h s a s' :
  c s = (Ok a, s') -> tryCatch (bind c k) h s = tryCatch (k a) h s'.
Proof. intros H. unfold tryCatch, bind. rewrite H. reflexivity. Qed.

Lemma tryCatch_bind_throw {L A B} (c : M L A) (k : A -> M L B) h s e s' :
  c s = (Throw e, s') -> tryCatch (bind c k) h s = h e s'.
Proof. intros H. unfold tryCatch, bind. rewrite H. reflexivity. Qed.

Lemma swapBinding_skip node sl old new c w :
  holds sl node old = false ->
  swapBinding node sl old new (c, w) = (Ok tt, (c, w)).
Proof. intros H. unfold swapBinding. rewrite H. reflexivity. Qed.

Lemma swapBinding_accepted node sl old new c w :
  holds sl node old = true ->
  rejectsStyleId w (node_id node) sl new = false ->
  swapBinding node sl old new (c, w) =
  (Ok tt, (c + 1, perform w (EvSet (node_id node) sl new true))).
Proof.
  intros H R. unfold swapBinding. rewrite H.
  erewrite bind_ok by (apply setStyleIdAsync_accepted; exact R).
  reflexivity.
Qed.

Lemma swapBinding_rejected node sl old new c w :
  holds sl node old = true ->
  rejectsStyleId w (node_id node) sl new = true ->
  swapBinding node sl old new (c, w) =
  (Throw "style id rejected",
   (c, perform w (EvSet (node_id node) sl new false))).
Proof.
  intros H R. unfold swapBinding. rewrite H.
  erewrite bind_throw by (apply setStyleIdAsync_rejected; exact R).
  reflexivity.
Qed.

Lemma swapSlots_run node old new sls : forall c w rej,
  (forall sl, rejectsStyleId w (node_id node) sl new = rej sl) ->
  tryCatch (swapSlots node old new sls)
    (fun _ => consoleError "Error swapping style:") (c, w) =
  (Ok tt, (c + countAccepted (attempt rej node old new sls),
           fold_left perform (attempt rej node old new sls) w)).
Proof.
  induction sls as [|sl sls IH]; intros c w rej Hrej; simpl.
  - unfold tryCatch, ret. rewrite Nat.add_0_r. reflexivity.
  - destruct (holds sl node old) eqn:Hh.
    + destruct (rej sl) eqn:Hr; rewrite <- Hrej in Hr.
      * erewrite tryCatch_bind_throw by (apply swapBinding_rejected; assumption).
        simpl. rewrite Nat.add_0_r. reflexivity.
      * erewrite tryCatch_bind_ok by (apply swapBinding_accepted; assumption).
        rewrite (IH _ _ rej).
        -- change (EvSet (node_id node) sl new true :: attempt rej node old new sls)
             with ([EvSet (node_id node) sl new true] ++ attempt rej node old new sls).
           rewrite countAccepted_app, fold_left_app, Nat.add_assoc. reflexivity.
        -- intros sl'. rewrite rejects_perform. apply Hrej.
    + erewrite tryCatch_bind_ok by (apply swapBinding_skip; assumption).
      apply IH. exact Hrej.
Qed.

Lemma swapNode_body node old new ty s h :
  tryCatch
    (if ty =? "FILL" then
       swapBinding node SFill old new ;;
       swapBinding node SStroke old new
     else if ty =? "TEXT" then swapBinding node SText old new
     else if ty =? "EFFECT" then swapBinding node SEffect old new
     else if ty =? "GRID" then swapBinding node SGrid old new
     else ret tt) h s =
  tryCatch (swapSlots node old new (slotsOf ty)) h s.
Proof.
  assert (forall sl, tryCatch (swapBinding node sl old new) h s =
                     tryCatch (swapBinding node sl old new ;; ret tt) h s) as E.
  { intros sl. unfold tryCatch, bind, ret.
    destruct (swapBinding node sl old new s) as [[[]|e] s']; reflexivity. }
  unfold slotsOf.
  destruct (ty =? "FILL").
  - simpl. unfold tryCatch, bind, ret.
    destruct (swapBinding node SFill old new s) as [[[]|e] s']; [|reflexivity].
    destruct (swapBinding node SStroke old new s') as [[[]|e] s'']; reflexivity.
  - destruct (ty =? "TEXT"); [apply E|].
    destruct (ty =? "EFFECT"); [apply E|].
    destruct (ty =? "GRID"); [apply E|]. reflexivity.
Qed.

Lemma swapNode_run node old new ty c w :
  swapNode node old new ty (c, w) =
  (Ok tt, (c + countAccepted (nodeEvents w node old new ty),
           fold_left perform (nodeEvents w node old new ty) w)).
Proof.
  unfold swapNode. rewrite swapNode_body. apply swapSlots_run. reflexivity.
Qed.

Lemma getNodeByIdAsync_run {L} nid (l : L) w :
  getNodeByIdAsync nid (l, w) = (Ok (getNode w nid), (l, w)).
Proof. reflexivity. Qed.

Lemma swapLoop_run ids old new ty : forall c w,
  swapLoop ids old new ty (c, w) =
  (Ok tt, (c + countAccepted (swapEvents w ids old new ty),
           fold_left perform (swapEvents w ids old new ty) w)).
Proof.
  induction ids as [|id ids IH]; intros c w; simpl.
  - unfold ret. rewrite Nat.add_0_r. reflexivity.
  - erewrite bind_ok by apply getNodeByIdAsync_run.
    destruct (getNode w id) as [nd|].
    + erewrite bind_ok by apply swapNode_run.
      rewrite IH, countAccepted_app, fold_left_app, Nat.add_assoc. reflexivity.
    + apply IH.
Qed.

Lemma swapStyle_run {L} ids old new ty (l : L) w :
  swapStyle ids old new ty (l, w) =
  (Ok (countAccepted (swapEvents w ids old new ty)),
   (l, fold_left perform (swapEvents w ids old new ty) w)).
Proof.
  unfold swapStyle, call. simpl snd.
  erewrite bind_ok by apply swapLoop_run. reflexivity.
Qed.

(* ===================================================================== *)
(** ** The document seen through node ids *)
(* ===================================================================== *)

Lemma slot_eqb_eq a b : slot_eqb a b = true <-> a = b.
Proof. destruct a, b; simpl; split; intros H; congruence. Qed.

Lemma slot_eqb_refl a : slot_eqb a a = true.
Proof. destruct a; reflexivity. Qed.

Lemma node_id_evUpdate e p : node_id (evUpdate e p) = node_id p.
Proof.
  destruct e as [|nid sl new []| | |]; simpl; try reflexivity.
  unfold atId. destruct (node_id p =? nid); reflexivity.
Qed.

Lemma node_id_applyEvs evs : forall p, node_id (applyEvs evs p) = node_id p.
Proof.
  induction evs as [|e evs IH]; intros p; simpl; [reflexivity|].
  unfold applyEvs in *. simpl. rewrite IH. apply node_id_evUpdate.
Qed.

Lemma binding_setBinding sl sl' v p :
  binding sl (setBinding sl' v p) =
  if slot_eqb sl' sl then Some (Val v) else binding sl p.
Proof. destruct sl, sl'; reflexivity. Qed.

Lemma find_map_id (g : NodeProps -> NodeProps) nid nodes :
  (forall p, node_id (g p) = node_id p) ->
  find (fun p => node_id p =? nid) (map g nodes) =
  option_map g (find (fun p => node_id p =? nid) nodes).
Proof.
  intros Hg. induction nodes as [|p nodes IH]; simpl; [reflexivity|].
  rewrite Hg. destruct (node_id p =? nid); [reflexivity|exact IH].
Qed.

Lemma allNodes_effect e w : allNodes (effect e w) = map (evUpdate e) (allNodes w).
Proof.
  destruct e as [|nid sl new []| | |]; simpl; try (rewrite map_id; reflexivity).
  unfold rebound, allNodes. simpl. apply allNodes_map.
Qed.

Lemma getNode_perform w e nid :
  getNode (perform w e) nid = option_map (evUpdate e) (getNode w nid).
Proof.
  unfold getNode.
  change (allNodes (perform w e)) with (allNodes (effect e w)).
  rewrite allNodes_effect. apply find_map_id. intros p. apply node_id_evUpdate.
Qed.

Lemma getNode_performs evs : forall w nid,
  getNode (fold_left perform evs w) nid = option_map (applyEvs evs) (getNode w nid).
Proof.
  induction evs as [|e evs IH]; intros w nid; simpl.
  - destruct (getNode w nid); reflexivity.
  - rewrite IH, getNode_perform. destruct (getNode w nid); reflexivity.
Qed.

Lemma getNode_id w nid p : getNode w nid = Some p -> node_id p = nid.
Proof.
  unfold getNode. intros H. apply find_some in H. destruct H as [_ H].
  apply String.eqb_eq. exact H.
Qed.

Lemma rejects_performs evs : forall w,
  rejectsStyleId (fold_left perform evs w) = rejectsStyleId w.
Proof.
  induction evs as [|e evs IH]; intros w; simpl; [reflexivity|].
  rewrite IH. apply rejects_perform.
Qed.

Lemma hostLog_performs evs : forall w,
  hostLog (fold_left perform evs w) = hostLog w ++ evs.
Proof.
  induction evs as [|e evs IH]; intros w; simpl.
  - rewrite app_nil_r. reflexivity.
  - rewrite IH. destruct e as [|? ? ? []| | |]; simpl; rewrite <- app_assoc; reflexivity.
Qed.

(** Events of one node's [try] block. *)
Lemma attempt_onNode rej nd old new sls :
  Forall (onNode (node_id nd) new) (attempt rej nd old new sls).
Proof.
  induction sls as [|sl sls IH]; simpl; [constructor|].
  destruct (holds sl nd old); [|exact IH].
  destruct (rej sl); repeat constructor; simpl; auto.
Qed.

Lemma attempt_slots rej nd old new sls sl e :
  In e (attempt rej nd old new sls) -> acceptedOn sl e = true ->
  In sl sls /\ holds sl nd old = true.
Proof.
  induction sls as [|s sls IH]; simpl; [contradiction|].
  destruct (holds s nd old) eqn:Hh.
  - destruct (rej s).
    + intros [<-|[<-|[]]]; simpl; discriminate.
    + intros [<-|H] Ha.
      * simpl in Ha. apply slot_eqb_eq in Ha. subst. auto.
      * destruct (IH H Ha). auto.
  - intros H Ha. destruct (IH H Ha). auto.
Qed.

Lemma applyEvs_binding nid new sl evs : forall p,
  Forall (onNode nid new) evs -> node_id p = nid ->
  binding sl (applyEvs evs p) =
  if existsb (acceptedOn sl) evs then Some (Val new) else binding sl p.
Proof.
  induction evs as [|e evs IH]; intros p Hall Hid; simpl; [reflexivity|].
  inversion Hall as [|? ? He Hall']; subst.
  unfold applyEvs in *. simpl.
  rewrite IH by (auto; rewrite node_id_evUpdate; reflexivity).
  destruct (existsb (acceptedOn sl) evs); [rewrite orb_true_r; reflexivity|].
  rewrite orb_false_r.
  destruct e as [|n s v []| | |]; simpl; try reflexivity.
  simpl in He. destruct He as [-> ->].
  unfold atId. rewrite String.eqb_refl. apply binding_setBinding.
Qed.

Lemma applyEvs_other nid new evs : forall p,
  Forall (onNode nid new) evs -> node_id p <> nid -> applyEvs evs p = p.
Proof.
  induction evs as [|e evs IH]; intros p Hall Hid; [reflexivity|].
  inversion Hall as [|? ? He Hall']; subst.
  unfold applyEvs in *. simpl.
  assert (evUpdate e p = p) as E.
  { destruct e as [|n s v []| | |]; simpl; try reflexivity.
    simpl in He. destruct He as [-> ->]. unfold atId.
    apply String.eqb_neq in Hid. rewrite Hid. reflexivity. }
  rewrite E. apply IH; assumption.
Qed.

Lemma slotsOf_NoDup ty : NoDup (slotsOf ty).
Proof.
  unfold slotsOf.
  destruct (ty =? "FILL"); [repeat constructor; simpl; intuition discriminate|].
  destruct (ty =? "TEXT"); [repeat constructor; simpl; tauto|].
  destruct (ty =? "EFFECT"); [repeat constructor; simpl; tauto|].
  destruct (ty =? "GRID"); repeat constructor; simpl; tauto.
Qed.

Lemma holds_true sl p old : holds sl p old = true <-> binding sl p = Some (Val old).
Proof.
  unfold holds. destruct (binding sl p) as [[|s]|]; split; intros H; try discriminate.
  - apply String.eqb_eq in H. subst. reflexivity.
  - inversion H. apply String.eqb_refl.
Qed.

(** After the [try] block ran on a node, running it again updates
    nothing. *)
Lemma attempt_again rej nd old new sls : forall nd',
  old <> new -> NoDup sls ->
  (forall sl, In sl sls ->
     binding sl nd' =
     if existsb (acceptedOn sl) (attempt rej nd old new sls)
     then Some (Val new) else binding sl nd) ->
  countAccepted (attempt rej nd' old new sls) = 0.
Proof.
  intros nd' Hne. induction sls as [|sl sls IH]; intros Hnd Hb; [reflexivity|].
  inversion Hnd as [|? ? Hni Hnd']; subst.
  pose proof (Hb sl (or_introl eq_refl)) as Hsl. simpl in Hsl, Hb |- *.
  destruct (holds sl nd old) eqn:Hh.
  - destruct (rej sl) eqn:Hr.
    + simpl in Hsl.
      assert (holds sl nd' old = true) as Hh'
        by (apply holds_true; rewrite Hsl; apply holds_true; exact Hh).
      rewrite Hh'. reflexivity.
    + simpl in Hsl. rewrite slot_eqb_refl in Hsl. simpl in Hsl.
      assert (holds sl nd' old = false) as Hh'.
      { destruct (holds sl nd' old) eqn:E; [|reflexivity].
        apply holds_true in E. rewrite E in Hsl. congruence. }
      rewrite Hh'. apply IH; [exact Hnd'|].
      intros s Hs. rewrite (Hb s (or_intror Hs)). simpl.
      destruct (slot_eqb sl s) eqn:E; [|reflexivity].
      apply slot_eqb_eq in E. subst. contradiction.
  - assert (existsb (acceptedOn sl) (attempt rej nd old new sls) = false) as Hex.
    { destruct (existsb (acceptedOn sl) (attempt rej nd old new sls)) eqn:E; [|reflexivity].
      apply existsb_exists in E. destruct E as [e [He Ha]].
      destruct (attempt_slots _ _ _ _ _ _ _ He Ha). contradiction. }
    rewrite Hex in Hsl.
    assert (holds sl nd' old = false) as Hh'.
    { destruct (holds sl nd' old) eqn:E; [|reflexivity].
      apply holds_true in E. rewrite Hsl in E. apply holds_true in E. congruence. }
    rewrite Hh'. apply IH; [exact Hnd'|].
    intros s Hs. apply (Hb s (or_intror Hs)).
Qed.

(* ===================================================================== *)
(** ** Rebinding twice *)
(* ===================================================================== *)

Lemma page_performs evs : forall w,
  countAccepted evs = 0 -> page (fold_left perform evs w) = page w.
Proof.
  induction evs as [|e evs IH]; intros w H; simpl; [reflexivity|].
  destruct e as [|n s v []| | |];
    try (rewrite IH by exact H; reflexivity).
  unfold countAccepted in H. simpl in H. discriminate.
Qed.

Lemma nodeEvents_same w w' nd old new ty :
  rejectsStyleId w' = rejectsStyleId w ->
  nodeEvents w' nd old new ty = nodeEvents w nd old new ty.
Proof. intros H. unfold nodeEvents. rewrite H. reflexivity. Qed.

Section RebindTwice.

Variables old new ty : string.
Hypothesis distinct : old <> new.

Lemma settled_same w w' nid :
  page w' = page w -> rejectsStyleId w' = rejectsStyleId w ->
  settled w old new ty nid -> settled w' old new ty nid.
Proof.
  intros Hp Hr. unfold settled, getNode, allNodes. rewrite Hp.
  destruct (find _ _) as [nd|]; [|auto].
  rewrite (nodeEvents_same w w') by exact Hr. auto.
Qed.

(** A layer is settled once its step ran. *)
Lemma settled_after_step w nid nd :
  getNode w nid = Some nd ->
  settled (fold_left perform (nodeEvents w nd old new ty) w) old new ty nid.
Proof.
  intros Hg. unfold settled. rewrite getNode_performs, Hg. simpl.
  rewrite (nodeEvents_same w) by apply rejects_performs.
  unfold nodeEvents at 1. rewrite node_id_applyEvs.
  apply (attempt_again _ nd); [exact distinct|apply slotsOf_NoDup|].
  intros sl _.
  apply (applyEvs_binding (node_id nd)); [apply attempt_onNode|reflexivity].
Qed.

(** A settled layer stays settled through the step of any layer. *)
Lemma settled_step w nid nd i :
  getNode w nid = Some nd ->
  settled w old new ty i ->
  settled (fold_left perform (nodeEvents w nd old new ty) w) old new ty i.
Proof.
  intros Hg Hs. destruct (string_dec i nid) as [->|Hi].
  - apply settled_after_step; assumption.
  - unfold settled in *. rewrite getNode_performs.
    destruct (getNode w i) as [p|] eqn:Gi; simpl; [|exact I].
    rewrite (applyEvs_other (node_id nd) new).
    + rewrite (nodeEvents_same w) by apply rejects_performs. exact Hs.
    + apply attempt_onNode.
    + rewrite (getNode_id _ _ _ Gi), (getNode_id _ _ _ Hg). exact Hi.
Qed.

(** After a call, every listed layer is settled. *)
Lemma settled_all ids : forall w,
  let w' := fold_left perform (swapEvents w ids old new ty) w in
  (forall i, settled w old new ty i -> settled w' old new ty i) /\
  (forall i, In i ids -> settled w' old new ty i).
Proof.
  induction ids as [|j ids IH]; intros w; simpl.
  - split; [auto|contradiction].
  - destruct (getNode w j) as [nd|] eqn:Gj.
    + rewrite fold_left_app.
      destruct (IH (fold_left perform (nodeEvents w nd old new ty) w))
        as [Hkeep Hnew].
      split.
      * intros i Hi. apply Hkeep. apply (settled_step w j); assumption.
      * intros i [<-|Hi]; [|auto].
        apply Hkeep. apply settled_after_step; assumption.
    + destruct (IH w) as [Hkeep Hnew]. split; [exact Hkeep|].
      intros i [<-|Hi]; [|auto].
      apply Hkeep. unfold settled. rewrite Gj. exact I.
Qed.

(** A call on settled layers updates nothing. *)
Lemma settled_quiet ids : forall w,
  (forall i, In i ids -> settled w old new ty i) ->
  countAccepted (swapEvents w ids old new ty) = 0.
Proof.
  induction ids as [|j ids IH]; intros w Hs; simpl; [reflexivity|].
  pose proof (Hs j (or_introl eq_refl)) as Hj. unfold settled in Hj.
  destruct (getNode w j) as [nd|] eqn:Gj.
  - rewrite countAccepted_app, Hj. simpl. apply IH.
    intros i Hi. apply (settled_same w).
    + apply page_performs. exact Hj.
    + apply rejects_performs.
    + apply Hs. right. exact Hi.
  - apply IH. intros i Hi. apply Hs. right. exact Hi.
Qed.

End RebindTwice.

(* ===================================================================== *)
(** ** A node bound twice to one remote style *)
(* ===================================================================== *)

Lemma refOf_origin p sl k r :
  In r (refOf p sl k) ->
  binding sl p = Some (Val (ref_sid r)) /\ ref_kind r = k /\
  ref_layer r = layerOf p.
Proof.
  unfold refOf. destruct (binding sl p) as [[|s]|]; try contradiction.
  destruct (s =? ""); [contradiction|]. intros [<-|[]]. auto.
Qed.

Lemma refsOf_origin p r :
  In r (refsOf p) ->
  exists sl, binding sl p = Some (Val (ref_sid r)) /\
             ref_kind r = slotKind sl /\ ref_layer r = layerOf p.
Proof.
  unfold refsOf. rewrite !in_app_iff.
  intros [H|[H|[H|[H|H]]]]; apply refOf_origin in H;
    [exists SFill|exists SStroke|exists SText|exists SEffect|exists SGrid];
    exact H.
Qed.

Lemma pageRefs_origin w r :
  In r (pageRefs w) ->
  exists q sl, In q (allNodes w) /\ binding sl q = Some (Val (ref_sid r)) /\
               ref_kind r = slotKind sl /\ ref_layer r = layerOf q.
Proof.
  unfold pageRefs, refs. intros H. apply in_flat_map in H.
  destruct H as [q [Hq Hr]]. apply refsOf_origin in Hr.
  destruct Hr as [sl Hsl]. exists q, sl. auto.
Qed.

Lemma find_unique nodes p :
  NoDup (map node_id nodes) -> In p nodes ->
  find (fun q => node_id q =? node_id p) nodes = Some p.
Proof.
  induction nodes as [|q nodes IH]; simpl; intros Hnd Hin; [contradiction|].
  inversion Hnd as [|? ? Hni Hnd']; subst.
  destruct Hin as [->|Hin].
  - rewrite String.eqb_refl. reflexivity.
  - destruct (node_id q =? node_id p) eqn:E; [|auto].
    apply String.eqb_eq in E. exfalso. apply Hni. rewrite E.
    apply in_map. exact Hin.
Qed.

Lemma recordsOf_app nid a b : recordsOf nid (a ++ b) = recordsOf nid a ++ recordsOf nid b.
Proof. apply filter_app. Qed.

Lemma recordsOf_own s p :
  recordsOf (node_id p) (layersFor s (refsOf p)) = layersFor s (refsOf p).
Proof.
  unfold recordsOf, layersFor. apply forallb_filter_id. apply forallb_forall.
  intros lr H. apply in_map_iff in H. destruct H as [r [<- Hr]].
  apply filter_In in Hr. destruct Hr as [Hr _].
  rewrite (refsOf_layer _ _ Hr). simpl. apply String.eqb_refl.
Qed.

Lemma recordsOf_foreign nid s nodes :
  ~ In nid (map node_id nodes) ->
  recordsOf nid (layersFor s (refs nodes)) = [].
Proof.
  intros Hni. unfold recordsOf.
  destruct (filter _ _) as [|lr t] eqn:F; [reflexivity|]. exfalso.
  assert (In lr (filter (fun r => layer_id r =? nid) (layersFor s (refs nodes)))) as H
    by (rewrite F; left; reflexivity).
  apply filter_In in H. destruct H as [Hin Hid]. apply String.eqb_eq in Hid.
  apply Hni. rewrite <- Hid. eapply layersFor_ids. apply in_map. exact Hin.
Qed.

Lemma recordsOf_page s p nodes :
  NoDup (map node_id nodes) -> In p nodes ->
  recordsOf (node_id p) (layersFor s (refs nodes)) = layersFor s (refsOf p).
Proof.
  induction nodes as [|q nodes IH]; simpl; intros Hnd Hin; [contradiction|].
  inversion Hnd as [|? ? Hni Hnd']; subst.
  rewrite layersFor_app, recordsOf_app.
  destruct Hin as [->|Hin].
  - rewrite recordsOf_own, recordsOf_foreign by exact Hni. apply app_nil_r.
  - rewrite IH by assumption.
    assert (recordsOf (node_id p) (layersFor s (refsOf q)) = []) as E.
    { assert (node_id q <> node_id p) as Hne.
      { intros E. apply Hni. rewrite E. apply in_map. exact Hin. }
      pose proof (recordsOf_foreign (node_id p) s [q]) as H.
      simpl in H. unfold refs in H. simpl in H. rewrite app_nil_r in H.
      apply H. intros [E|[]]. contradiction. }
    rewrite E. reflexivity.
Qed.

Lemma refOf_sid p sl k s :
  s <> "" ->
  length (filter (sidIs s) (refOf p sl k)) =
  if holds sl p s then 1 else 0.
Proof.
  intros Hs. unfold refOf, holds.
  destruct (binding sl p) as [[|v]|]; try reflexivity.
  destruct (v =? "") eqn:Ev; simpl.
  - apply String.eqb_eq in Ev. subst v.
    destruct ("" =? s) eqn:E; [apply String.eqb_eq in E; congruence|reflexivity].
  - unfold sidIs, ref_sid. simpl. destruct (v =? s); reflexivity.
Qed.

Lemma layersFor_length s p :
  s <> "" -> length (layersFor s (refsOf p)) = bindingsHolding p s.
Proof.
  intros Hs. unfold layersFor, refsOf, bindingsHolding, allSlots.
  rewrite length_map, !filter_app, !length_app, !refOf_sid by exact Hs.
  simpl.
  destruct (holds SFill p s), (holds SStroke p s), (holds SText p s),
    (holds SEffect p s), (holds SGrid p s); reflexivity.
Qed.

Lemma find_sidIs_nonempty w s r :
  find (sidIs s) (pageRefs w) = Some r -> s <> "".
Proof.
  intros H. apply find_some in H. destruct H as [Hin Hs].
  apply String.eqb_eq in Hs. subst s.
  unfold pageRefs, refs in Hin. apply in_flat_map in Hin.
  destruct Hin as [p [_ Hr]]. unfold refsOf in Hr. rewrite !in_app_iff in Hr.
  assert (forall sl k, In r (refOf p sl k) -> ref_sid r <> "") as H.
  { intros sl k. unfold refOf. destruct (binding sl p) as [[|v]|]; try contradiction.
    destruct (v =? "") eqn:E; [contradiction|]. intros [<-|[]].
    apply String.eqb_neq in E. exact E. }
  destruct Hr as [Hr|[Hr|[Hr|[Hr|Hr]]]]; eapply H; exact Hr.
Qed.

Lemma map_constant {A B} (f : A -> B) c xs :
  (forall x, In x xs -> f x = c) -> map f xs = repeat c (length xs).
Proof.
  induction xs as [|x xs IH]; simpl; intros H; [reflexivity|].
  rewrite (H x) by (left; reflexivity). f_equal. apply IH.
  intros y Hy. apply H. right. exact Hy.
Qed.

(** C2 (amended). In a document with unique node ids, every entry of a
    scan holds, for each node of the page, as many records of that node as
    the node has bindings that hold the entry's identifier: one per such
    binding.  So where no node holds the same reported identifier in two
    of its bindings, no entry has two layer records with the same layer
    id. *)
Theorem C2_no_duplicate_layers_when_bindings_distinct :
  forall (L : Type) (l : L) (w : World),
    uniqueIds w ->
    exists entries w',
      findLayersWithRemoteStyles (l, w) = (Ok entries, (l, w')) /\
      (forall entry p, In entry entries -> In p (allNodes w) ->
         recordsOf (node_id p) (layers entry) =
         repeat (mkLayer (node_id p) (node_name p) (node_type p))
           (bindingsHolding p (styleId entry))) /\
      ((forall p, In p (allNodes w) -> distinctBindings w p) ->
       forall entry, In entry entries ->
                     NoDup (map layer_id (layers entry))).
Proof.
  intros L l w Hu. do 2 eexists.
  split; [apply findLayersWithRemoteStyles_run|]. split.
  - intros entry p Hin Hp. apply scan_entry in Hin.
    destruct Hin as [name [r [Hn [Hf He]]]]. rewrite He. simpl.
    unfold pageRefs. rewrite (recordsOf_page _ p _ Hu Hp).
    rewrite <- (layersFor_length _ p (find_sidIs_nonempty w _ r Hf)).
    unfold layersFor. rewrite length_map. apply map_constant.
    intros x Hx. apply filter_In in Hx. apply (refsOf_layer p). tauto.
  - intros Hd entry Hin. apply scan_entry in Hin.
    destruct Hin as [name [r [Hn [_ He]]]]. rewrite He. simpl.
    eapply layersFor_NoDup; eauto.
Qed.

Lemma C2_witness :
  exists entries w',
    findLayersWithRemoteStyles (tt, plainWorld) = (Ok entries, (tt, w')) /\
    (forall entry p, In entry entries -> In p (allNodes plainWorld) ->
       recordsOf (node_id p) (layers entry) =
       repeat (mkLayer (node_id p) (node_name p) (node_type p))
         (bindingsHolding p (styleId entry))) /\
    forall entry, In entry entries -> NoDup (map layer_id (layers entry)).
Proof.
  destruct (C2_no_duplicate_layers_when_bindings_distinct unit tt plainWorld)
    as [entries [w' [E [Hrec Hnd]]]].
  - unfold uniqueIds. simpl. repeat constructor; simpl; intuition discriminate.
  - exists entries, w'. split; [exact E|]. split; [exact Hrec|].
    apply Hnd. intros p Hp. simpl in Hp. unfold distinctBindings.
    destruct Hp as [<-|[<-|[]]]; simpl; repeat constructor; simpl;
      intuition discriminate.
Defined.

Lemma holds_paintOnly w s p sl :
  paintOnly w s -> In p (allNodes w) -> slotKind sl <> FILL ->
  holds sl p s = false.
Proof.
  intros Hp Hin Hk. destruct (holds sl p s) eqn:E; [|reflexivity].
  apply holds_true in E. elim Hk. eapply Hp; eauto.
Qed.

(** C1. A node whose fill and stroke bindings hold the same identifier,
    the identifier being remote or unresolvable (and, as a paint style's,
    held by fill and stroke bindings only), has exactly two records in
    that identifier's entry after a scan, the entry being of kind Fill;
    and a following rebind of that layer from that identifier, of kind
    Fill, whose two updates the host accepts, returns 2. *)
Theorem C1_fill_and_stroke_recorded_and_counted_twice :
  forall (L : Type) (l : L) (w : World) (p : NodeProps) (s new : string),
    uniqueIds w ->
    In p (allNodes w) ->
    fillStyleId p = Some (Val s) ->
    strokeStyleId p = Some (Val s) ->
    s <> "" ->
    remoteName w s <> None ->
    paintOnly w s ->
    rejectsStyleId w (node_id p) SFill new = false ->
    rejectsStyleId w (node_id p) SStroke new = false ->
    exists entries w1 entry w2,
      findLayersWithRemoteStyles (l, w) = (Ok entries, (l, w1)) /\
      In entry entries /\
      styleId entry = s /\
      styleType entry = FILL /\
      recordsOf (node_id p) (layers entry) = [layerOf p; layerOf p] /\
      swapStyle [node_id p] s new "FILL" (l, w1) = (Ok 2, (l, w2)).
Proof.
  intros L l w p s new Hu Hp Hfill Hstroke Hs Hrem Hpaint Hrf Hrs.
  destruct (remoteName w s) as [name|] eqn:Hn; [clear Hrem|congruence].
  pose proof (pageRefs_In w p SFill s Hp Hfill Hs) as Hin.
  destruct (scan_has_entry w (pageRefs w) _ name Hin Hn) as [r0 [Hr0 He]].
  change (ref_sid (layerOf p, s, slotKind SFill)) with s in He, Hr0.
  do 4 eexists. split; [apply findLayersWithRemoteStyles_run|].
  split; [exact He|]. split; [reflexivity|]. split; [|split].
  - simpl. apply find_some in Hr0. destruct Hr0 as [Hr0 Hsid].
    apply String.eqb_eq in Hsid.
    destruct (pageRefs_origin w r0 Hr0) as [q [sl [Hq [Hb [Hk _]]]]].
    rewrite Hk. rewrite Hsid in Hb. eapply Hpaint; eauto.
  - simpl. change (ref_sid (layerOf p, s, FILL)) with s.
    unfold pageRefs. rewrite (recordsOf_page s p _ Hu Hp).
    unfold refsOf, layersFor. rewrite !filter_app, !map_app.
    unfold refOf at 1 2. simpl. rewrite Hfill, Hstroke.
    apply String.eqb_neq in Hs. rewrite Hs. simpl. unfold sidIs at 1 2. simpl.
    rewrite String.eqb_refl. simpl.
    assert (forall sl k, slotKind sl <> FILL ->
              map ref_layer (filter (sidIs s) (refOf p sl k)) = []) as Z.
    { intros sl k Hk. apply length_zero_iff_nil.
      rewrite length_map, refOf_sid by (apply String.eqb_neq; exact Hs).
      rewrite (holds_paintOnly w s p sl Hpaint Hp Hk). reflexivity. }
    rewrite !Z by (simpl; discriminate). reflexivity.
  - rewrite swapStyle_run. simpl.
    change (getNode (after w (lookups (pageRefs w))) (node_id p))
      with (getNode w (node_id p)).
    unfold getNode. rewrite (find_unique _ p Hu Hp).
    unfold nodeEvents. simpl. unfold holds. simpl.
    rewrite Hfill, Hstroke, String.eqb_refl.
    change (rejectsStyleId (after w (lookups (pageRefs w)))) with (rejectsStyleId w).
    rewrite Hrf, Hrs. simpl. reflexivity.
Qed.

Lemma C1_witness :
  exists entries w1 entry w2,
    findLayersWithRemoteStyles (tt, twiceBoundWorld) = (Ok entries, (tt, w1)) /\
    In entry entries /\
    styleId entry = "S:999" /\
    styleType entry = FILL /\
    recordsOf "1:1" (layers entry) = [layerOf twiceBound; layerOf twiceBound] /\
    swapStyle ["1:1"] "S:999" "S:111" "FILL" (tt, w1) = (Ok 2, (tt, w2)).
Proof.
  apply (C1_fill_and_stroke_recorded_and_counted_twice unit tt twiceBoundWorld
           twiceBound "S:999" "S:111").
  - unfold uniqueIds. simpl. repeat constructor. simpl. tauto.
  - simpl. auto.
  - reflexivity.
  - reflexivity.
  - discriminate.
  - discriminate.
  - intros q sl [<-|[]]. destruct sl; simpl; intros; try reflexivity; discriminate.
  - reflexivity.
  - reflexivity.
Defined.

(* ===================================================================== *)
(** ** What a rebind changes *)
(* ===================================================================== *)

Lemma applyEvs_app a b p : applyEvs (a ++ b) p = applyEvs b (applyEvs a p).
Proof. unfold applyEvs. apply fold_left_app. Qed.

Section Frame.

Variables old new ty : string.

Lemma reboundFrom_refl ids p : reboundFrom ids old new ty p p.
Proof. split; [reflexivity|]. intros sl. left. reflexivity. Qed.

Lemma reboundFrom_trans j ids p p1 p2 :
  reboundFrom [j] old new ty p p1 ->
  reboundFrom ids old new ty p1 p2 ->
  reboundFrom (j :: ids) old new ty p p2.
Proof.
  intros [Hid1 H1] [Hid2 H2]. split; [congruence|].
  intros sl. destruct (H1 sl) as [E1|[Ho [Hn [Hs Hi]]]];
    destruct (H2 sl) as [E2|[Ho2 [Hn2 [Hs2 Hi2]]]].
  - left. congruence.
  - right. rewrite <- E1. repeat split; auto. right. rewrite <- Hid1. exact Hi2.
  - right. repeat split; auto; [congruence|].
    destruct Hi as [<-|[]]. left. reflexivity.
  - right. repeat split; auto. destruct Hi as [<-|[]]. left. reflexivity.
Qed.

Lemma nodeEvents_rebound w nd :
  reboundFrom [node_id nd] old new ty nd
    (applyEvs (nodeEvents w nd old new ty) nd).
Proof.
  split; [apply node_id_applyEvs|]. intros sl.
  unfold nodeEvents.
  rewrite (applyEvs_binding (node_id nd) new) by (auto using attempt_onNode).
  destruct (existsb _ _) eqn:E; [|left; reflexivity].
  apply existsb_exists in E. destruct E as [e [He Ha]].
  destruct (attempt_slots _ _ _ _ _ _ _ He Ha) as [Hs Hh].
  right. apply holds_true in Hh. repeat split; auto. left. reflexivity.
Qed.

Lemma step_rebound w j nd nid p :
  getNode w j = Some nd -> getNode w nid = Some p ->
  reboundFrom [j] old new ty p (applyEvs (nodeEvents w nd old new ty) p).
Proof.
  intros Gj Gn. destruct (string_dec nid j) as [->|Hne].
  - assert (p = nd) by congruence. subst p.
    rewrite <- (getNode_id _ _ _ Gj) at 1. apply nodeEvents_rebound.
  - rewrite (applyEvs_other (node_id nd) new).
    + apply reboundFrom_refl.
    + apply attempt_onNode.
    + rewrite (getNode_id _ _ _ Gj), (getNode_id _ _ _ Gn). exact Hne.
Qed.

(** Every node is related to what the call made of it. *)
Lemma swap_frame ids : forall w nid p,
  getNode w nid = Some p ->
  reboundFrom ids old new ty p (applyEvs (swapEvents w ids old new ty) p).
Proof.
  induction ids as [|j ids IH]; intros w nid p G; simpl.
  - apply reboundFrom_refl.
  - destruct (getNode w j) as [nd|] eqn:Gj.
    + rewrite applyEvs_app. eapply reboundFrom_trans.
      * eapply step_rebound; eauto.
      * apply (IH _ nid). rewrite getNode_performs, G. reflexivity.
    + destruct (IH w nid p G) as [Hid H]. split; [exact Hid|].
      intros sl. destruct (H sl) as [E|[Ho [Hn [Hs Hi]]]]; [left; exact E|].
      right. repeat split; auto. right. exact Hi.
Qed.

End Frame.

(** Stale layer ids are skipped. *)
Lemma swapEvents_skip old new ty nid ids2 ids1 : forall w,
  getNode w nid = None ->
  swapEvents w (ids1 ++ nid :: ids2) old new ty =
  swapEvents w (ids1 ++ ids2) old new ty.
Proof.
  induction ids1 as [|j ids1 IH]; intros w G; simpl.
  - rewrite G. reflexivity.
  - destruct (getNode w j) as [nd|]; [|apply IH; exact G].
    f_equal. apply IH. rewrite getNode_performs, G. reflexivity.
Qed.

(** With no update rejected, every binding of the kind that holds [old]
    on a listed layer is updated, each on its own. *)
Lemma attempt_accepting rej nd old new sls sl :
  (forall s, rej s = false) ->
  existsb (acceptedOn sl) (attempt rej nd old new sls) =
  holds sl nd old && existsb (slot_eqb sl) sls.
Proof.
  intros Hrej. induction sls as [|s sls IH]; simpl.
  - rewrite andb_false_r. reflexivity.
  - destruct (holds s nd old) eqn:Hs; [rewrite Hrej|]; simpl; rewrite IH.
    + destruct (slot_eqb s sl) eqn:E.
      * apply slot_eqb_eq in E. subst s. rewrite Hs, slot_eqb_refl. reflexivity.
      * assert (slot_eqb sl s = false) as E'.
        { destruct (slot_eqb sl s) eqn:E2; [|reflexivity].
          apply slot_eqb_eq in E2. subst. rewrite slot_eqb_refl in E. discriminate. }
        rewrite E'. reflexivity.
    + destruct (slot_eqb sl s) eqn:E; [|reflexivity].
      apply slot_eqb_eq in E. subst s. rewrite Hs. reflexivity.
Qed.

Lemma holds_same sl p p' old :
  binding sl p' = binding sl p -> holds sl p' old = holds sl p old.
Proof. intros H. unfold holds. rewrite H. reflexivity. Qed.

Lemma swap_exact old new ty ids : forall w nid p sl,
  (forall n s, rejectsStyleId w n s new = false) ->
  getNode w nid = Some p ->
  binding sl (applyEvs (swapEvents w ids old new ty) p) =
  if existsb (String.eqb nid) ids && holds sl p old &&
     existsb (slot_eqb sl) (slotsOf ty)
  then Some (Val new) else binding sl p.
Proof.
  induction ids as [|j ids IH]; intros w nid p sl Hrej G; simpl; [reflexivity|].
  destruct (getNode w j) as [nd|] eqn:Gj.
  - rewrite applyEvs_app.
    assert (getNode (fold_left perform (nodeEvents w nd old new ty) w) nid =
            Some (applyEvs (nodeEvents w nd old new ty) p)) as G1
      by (rewrite getNode_performs, G; reflexivity).
    rewrite (IH _ nid _ sl) by
      (try exact G1; intros n s; rewrite rejects_performs; apply Hrej).
    destruct (nid =? j) eqn:E.
    + apply String.eqb_eq in E. subst nid.
      assert (p = nd) by congruence. subst p. simpl.
      assert (binding sl (applyEvs (nodeEvents w nd old new ty) nd) =
              if holds sl nd old && existsb (slot_eqb sl) (slotsOf ty)
              then Some (Val new) else binding sl nd) as B.
      { unfold nodeEvents.
        rewrite (applyEvs_binding (node_id nd) new)
          by (auto using attempt_onNode).
        rewrite attempt_accepting by (intros s; apply Hrej). reflexivity. }
      destruct (holds sl nd old && existsb (slot_eqb sl) (slotsOf ty)) eqn:C.
      * rewrite B. destruct (_ && _ && _); reflexivity.
      * rewrite (holds_same _ _ _ _ B), B.
        rewrite <- andb_assoc, C, andb_false_r. reflexivity.
    + simpl. rewrite (applyEvs_other (node_id nd) new); [reflexivity| |].
      * apply attempt_onNode.
      * apply String.eqb_neq in E.
        rewrite (getNode_id _ _ _ Gj), (getNode_id _ _ _ G). exact E.
  - rewrite (IH w nid p sl Hrej G).
    destruct (nid =? j) eqn:E; [|reflexivity].
    apply String.eqb_eq in E. subst. congruence.
Qed.

(* ===================================================================== *)
(** ** Rebinding again after a call that succeeded *)
(* ===================================================================== *)

(** No binding the kind looks at holds [old] on the node. *)
Lemma attempt_idle rej nd old new sls :
  (forall sl, In sl sls -> holds sl nd old = false) ->
  attempt rej nd old new sls = [].
Proof.
  induction sls as [|sl sls IH]; intros H; simpl; [reflexivity|].
  rewrite (H sl) by (left; reflexivity). apply IH.
  intros s Hs. apply H. right. exact Hs.
Qed.

(** When no update of the [try] block was refused, every binding it looks
    at that held [old] was updated. *)
Lemma attempt_all_accepted rej nd old new sls sl :
  forallb accepted (attempt rej nd old new sls) = true ->
  In sl sls -> holds sl nd old = true ->
  existsb (acceptedOn sl) (attempt rej nd old new sls) = true.
Proof.
  induction sls as [|s sls IH]; simpl; intros Ha Hin Hh; [contradiction|].
  destruct (holds s nd old) eqn:Hs.
  - destruct (rej s); [simpl in Ha; discriminate|].
    simpl in Ha |- *. destruct Hin as [->|Hin].
    + rewrite slot_eqb_refl. reflexivity.
    + rewrite IH by assumption. apply orb_true_r.
  - destruct Hin as [->|Hin]; [congruence|]. apply IH; assumption.
Qed.

Lemma nodeEvents_all_accepted w nd old new ty sl :
  old <> new ->
  forallb accepted (nodeEvents w nd old new ty) = true ->
  In sl (slotsOf ty) ->
  holds sl (applyEvs (nodeEvents w nd old new ty) nd) old = false.
Proof.
  intros Hne Ha Hin. unfold holds, nodeEvents in *.
  rewrite (applyEvs_binding (node_id nd) new)
    by (auto using attempt_onNode).
  destruct (existsb _ _) eqn:E.
  - apply String.eqb_neq. congruence.
  - destruct (binding sl nd) as [[|s]|] eqn:B; try reflexivity.
    destruct (s =? old) eqn:Es; [|reflexivity].
    rewrite attempt_all_accepted in E; [discriminate|exact Ha|exact Hin|].
    unfold holds. rewrite B. exact Es.
Qed.

(** A rebind to another identifier makes no binding hold [old]. *)
Lemma reboundFrom_no_old ids old new ty p p' sl :
  old <> new -> reboundFrom ids old new ty p p' ->
  holds sl p old = false -> holds sl p' old = false.
Proof.
  intros Hne [_ H] Hh. destruct (H sl) as [E|[Ho [Hn _]]].
  - unfold holds in *. rewrite E. exact Hh.
  - unfold holds. rewrite Hn. apply String.eqb_neq. congruence.
Qed.

(** After a call none of whose updates was refused, no listed layer holds
    [old] in a binding the kind looks at. *)
Lemma swapEvents_all_accepted old new ty ids : forall w,
  old <> new ->
  forallb accepted (swapEvents w ids old new ty) = true ->
  forall i nd sl,
    In i ids ->
    getNode (fold_left perform (swapEvents w ids old new ty) w) i = Some nd ->
    In sl (slotsOf ty) -> holds sl nd old = false.
Proof.
  induction ids as [|j ids IH]; intros w Hne Ha i nd' sl Hi; [contradiction|].
  simpl in Ha |- *. destruct (getNode w j) as [nd|] eqn:Gj.
  - rewrite forallb_app in Ha. apply andb_prop in Ha. destruct Ha as [Ha1 Ha2].
    rewrite fold_left_app.
    set (w1 := fold_left perform (nodeEvents w nd old new ty) w) in *.
    destruct (string_dec i j) as [->|Hij].
    + intros G Hsl. rewrite getNode_performs in G.
      assert (getNode w1 j = Some (applyEvs (nodeEvents w nd old new ty) nd))
        as G1 by (unfold w1; rewrite getNode_performs, Gj; reflexivity).
      rewrite G1 in G. simpl in G. inversion G; subst nd'.
      eapply reboundFrom_no_old;
        [exact Hne|apply (swap_frame old new ty ids w1 j); exact G1|].
      apply nodeEvents_all_accepted; assumption.
    + destruct Hi as [E|Hi]; [congruence|]. intros G Hsl.
      apply (IH w1 Hne Ha2 i nd' sl Hi G Hsl).
  - destruct (string_dec i j) as [->|Hij].
    + intros G. rewrite getNode_performs, Gj in G. discriminate.
    + destruct Hi as [E|Hi]; [congruence|]. apply IH; assumption.
Qed.

(** A call on layers none of which holds [old] asks nothing of the host. *)
Lemma swapEvents_idle old new ty ids : forall w,
  (forall i nd sl, In i ids -> getNode w i = Some nd ->
                   In sl (slotsOf ty) -> holds sl nd old = false) ->
  swapEvents w ids old new ty = [].
Proof.
  induction ids as [|j ids IH]; intros w H; simpl; [reflexivity|].
  destruct (getNode w j) as [nd|] eqn:Gj.
  - assert (nodeEvents w nd old new ty = []) as E.
    { apply attempt_idle. intros sl Hsl. apply (H j nd sl); auto.
      left. reflexivity. }
    rewrite E. simpl. apply IH. intros i n sl Hi. apply H. right. exact Hi.
  - apply IH. intros i n sl Hi. apply H. right. exact Hi.
Qed.

(** C4 (as stated). With the new identifier equal to the old one, the
    first call succeeds and the second call still finds every binding
    equal to the old identifier: it returns 2 again, not 0. *)
Lemma C4_same_identifier_counts_again :
  ~ rebindTwiceReturnsZero twiceBoundWorld ["1:1"] "S:999" "S:999" "FILL".
Proof.
  intros H.
  destruct (H _ _ _ (swapStyle_run _ _ _ _ tt twiceBoundWorld)
              eq_refl eq_refl) as [w2 [E _]].
  rewrite swapStyle_run in E. vm_compute in E. discriminate.
Qed.

(** C4 (amended). When the new identifier differs from the old one: after
    a first rebind that succeeded (the host accepted every update the call
    asked for), and nothing else having changed the document, the same
    call again finds no binding that holds the old identifier; it asks the
    host for nothing, changes no binding and returns 0. *)
Theorem C4_second_rebind_changes_nothing :
  forall (w : World) (layerIds : list string) (old new styleType : string),
    old <> new ->
    rebindTwiceReturnsZero w layerIds old new styleType.
Proof.
  intros w ids old new ty Hne c1 w1 evs E Hlog Hacc.
  rewrite swapStyle_run in E. inversion E as [[Hc Hw]].
  rewrite <- Hw, hostLog_performs in Hlog. apply app_inv_head in Hlog.
  rewrite <- Hlog in Hacc.
  assert (swapEvents (fold_left perform (swapEvents w ids old new ty) w)
            ids old new ty = []) as Hq.
  { apply swapEvents_idle. intros i nd sl Hi G Hsl.
    apply (swapEvents_all_accepted old new ty ids w Hne Hacc i nd sl Hi G Hsl). }
  exists (fold_left perform (swapEvents w ids old new ty) w).
  rewrite swapStyle_run, Hq. split; reflexivity.
Qed.

Lemma C4_witness :
  let first := swapStyle ["1:1"] "S:999" "S:111" "FILL" (tt, twiceBoundWorld) in
  fst first = Ok 2 /\
  exists w2,
    swapStyle ["1:1"] "S:999" "S:111" "FILL" (tt, snd (snd first)) =
    (Ok 0, (tt, w2)) /\
    page w2 = page (snd (snd first)).
Proof.
  split; [reflexivity|].
  apply (C4_second_rebind_changes_nothing twiceBoundWorld
           ["1:1"] "S:999" "S:111" "FILL"
           ltac:(discriminate) 2
           (snd (snd (swapStyle ["1:1"] "S:999" "S:111" "FILL"
                        (tt, twiceBoundWorld))))
           [EvSet "1:1" SFill "S:111" true; EvSet "1:1" SStroke "S:111" true]).
  - reflexivity.
  - reflexivity.
  - reflexivity.
Defined.

(* ===================================================================== *)
(** ** The count is the number of bindings changed *)
(* ===================================================================== *)

Lemma binding_eqb_refl b : binding_eqb b b = true.
Proof. destruct b as [[|s]|]; simpl; auto using String.eqb_refl. Qed.

Lemma filter_or_length {A} (f g : A -> bool) l :
  (forall x, In x l -> f x = true -> g x = false) ->
  length (filter (fun x => f x || g x) l) =
  length (filter f l) + length (filter g l).
Proof.
  induction l as [|a l IH]; intros H; simpl; [reflexivity|].
  assert (length (filter (fun x => f x || g x) l) =
          length (filter f l) + length (filter g l)) as E
    by (apply IH; intros x Hx; apply H; right; exact Hx).
  destruct (f a) eqn:Fa; simpl.
  - rewrite (H a (or_introl eq_refl) Fa), E. reflexivity.
  - destruct (g a); simpl; rewrite E; lia.
Qed.

Lemma filter_none {A} (f : A -> bool) l :
  (forall x, In x l -> f x = false) -> filter f l = [].
Proof.
  induction l as [|a l IH]; intros H; simpl; [reflexivity|].
  rewrite (H a (or_introl eq_refl)). apply IH. intros x Hx. apply H. right. exact Hx.
Qed.

(** Pairs of layer [j] and a binding that satisfies [g], among the pairs
    of the layers [ids]. *)
Lemma count_pairs_of (g : Slot -> bool) j ids :
  NoDup ids -> In j ids ->
  length (filter (fun x : string * Slot => (fst x =? j) && g (snd x))
            (list_prod ids allSlots)) =
  length (filter g allSlots).
Proof.
  induction ids as [|a ids IH]; intros Hnd Hin; [contradiction|].
  inversion Hnd as [|? ? Hni Hnd']; subst.
  cbn [list_prod]. rewrite filter_app, length_app.
  destruct Hin as [->|Hin].
  - rewrite (filter_none _ (list_prod ids allSlots)).
    + simpl. rewrite !String.eqb_refl. simpl.
      repeat match goal with |- context [g ?s] => destruct (g s) end;
        reflexivity.
    + intros [i sl] Hx. apply in_prod_iff in Hx. destruct Hx as [Hi _]. simpl.
      destruct (i =? j) eqn:E; [|reflexivity].
      apply String.eqb_eq in E. subst. contradiction.
  - rewrite IH by assumption.
    assert (a <> j) as Hne by (intros ->; contradiction).
    apply String.eqb_neq in Hne. simpl. rewrite !Hne. reflexivity.
Qed.

Ltac case_rejects :=
  repeat match goal with
         | |- context [rejectsStyleId ?w ?n ?s ?v] =>
             destruct (rejectsStyleId w n s v)
         end.

(** The updates one node's [try] block makes are of distinct bindings. *)
Lemma nodeEvents_count w nd old new ty :
  length (filter (fun sl => existsb (acceptedOn sl) (nodeEvents w nd old new ty))
            allSlots) =
  countAccepted (nodeEvents w nd old new ty).
Proof.
  unfold nodeEvents, slotsOf.
  destruct (ty =? "FILL").
  { simpl. destruct (holds SFill nd old), (holds SStroke nd old);
      case_rejects; reflexivity. }
  destruct (ty =? "TEXT").
  { simpl. destruct (holds SText nd old); case_rejects; reflexivity. }
  destruct (ty =? "EFFECT").
  { simpl. destruct (holds SEffect nd old); case_rejects; reflexivity. }
  destruct (ty =? "GRID").
  { simpl. destruct (holds SGrid nd old); case_rejects; reflexivity. }
  reflexivity.
Qed.

Lemma changed_none w ids : changedBindings w w ids = 0.
Proof.
  unfold changedBindings. rewrite filter_none; [reflexivity|].
  intros [i sl] _. unfold changed. simpl.
  destruct (getNode w i); [|reflexivity]. rewrite binding_eqb_refl. reflexivity.
Qed.

Section Counting.

Variables old new ty : string.
Hypothesis distinct : old <> new.

Lemma binding_eqb_old_new :
  binding_eqb (Some (Val old)) (Some (Val new)) = false.
Proof. simpl. apply String.eqb_neq. exact distinct. Qed.

(** A binding the step updated held [old] and holds [new]. *)
Lemma updated_binding w nd sl :
  existsb (acceptedOn sl) (nodeEvents w nd old new ty) = true ->
  binding sl nd = Some (Val old) /\
  binding sl (applyEvs (nodeEvents w nd old new ty) nd) = Some (Val new).
Proof.
  intros Hex. split.
  - apply existsb_exists in Hex. destruct Hex as [e [He Ha]].
    destruct (attempt_slots _ _ _ _ _ _ _ He Ha) as [_ Hh].
    apply holds_true. exact Hh.
  - unfold nodeEvents in *.
    rewrite (applyEvs_binding (node_id nd) new) by (auto using attempt_onNode).
    rewrite Hex. reflexivity.
Qed.

(** A binding the step did not update is as it was. *)
Lemma kept_binding w j nd i p sl :
  getNode w j = Some nd -> getNode w i = Some p ->
  (i =? j) && existsb (acceptedOn sl) (nodeEvents w nd old new ty) = false ->
  binding sl (applyEvs (nodeEvents w nd old new ty) p) = binding sl p.
Proof.
  intros Gj Gi C. destruct (string_dec i j) as [->|Hij].
  - assert (p = nd) by congruence. subst p.
    rewrite String.eqb_refl in C. simpl in C. unfold nodeEvents in *.
    rewrite (applyEvs_binding (node_id nd) new) by (auto using attempt_onNode).
    rewrite C. reflexivity.
  - rewrite (applyEvs_other (node_id nd) new); [reflexivity| |].
    + apply attempt_onNode.
    + rewrite (getNode_id _ _ _ Gj), (getNode_id _ _ _ Gi). exact Hij.
Qed.

(** One step of the loop: the bindings it updates are changed for good,
    every other binding is as it was. *)
Lemma changed_step w j nd ids (x : string * Slot) :
  getNode w j = Some nd ->
  let evs := nodeEvents w nd old new ty in
  let w1 := fold_left perform evs w in
  let w' := fold_left perform (swapEvents w1 ids old new ty) w1 in
  changed w w' x =
  ((fst x =? j) && existsb (acceptedOn (snd x)) evs) || changed w1 w' x.
Proof.
  intros Gj evs w1 w'. destruct x as [i sl]. unfold changed. simpl.
  unfold w'. rewrite !getNode_performs. fold w1.
  assert (getNode w1 i = option_map (applyEvs evs) (getNode w i)) as G1
    by (unfold w1; apply getNode_performs).
  rewrite G1.
  destruct (getNode w i) as [p|] eqn:Gi; simpl.
  2:{ destruct (i =? j) eqn:E; [|reflexivity].
      apply String.eqb_eq in E. subst. congruence. }
  assert (getNode w1 i = Some (applyEvs evs p)) as G1' by (rewrite G1; reflexivity).
  pose proof (swap_frame old new ty ids w1 i _ G1') as [_ Hfr].
  specialize (Hfr sl).
  destruct ((i =? j) && existsb (acceptedOn sl) evs) eqn:C.
  - apply andb_true_iff in C. destruct C as [E Hex].
    apply String.eqb_eq in E. subst i.
    assert (p = nd) by congruence. subst p.
    destruct (updated_binding w nd sl Hex) as [B0 B1]. fold evs in B1.
    destruct Hfr as [E|[Ho _]]; [|congruence].
    rewrite E, B1, B0, binding_eqb_old_new, binding_eqb_refl.
    reflexivity.
  - simpl. unfold evs. rewrite (kept_binding w j nd i p sl Gj Gi C).
    reflexivity.
Qed.

Lemma changed_excl w j nd ids (x : string * Slot) :
  getNode w j = Some nd ->
  let evs := nodeEvents w nd old new ty in
  let w1 := fold_left perform evs w in
  let w' := fold_left perform (swapEvents w1 ids old new ty) w1 in
  (fst x =? j) && existsb (acceptedOn (snd x)) evs = true ->
  changed w1 w' x = false.
Proof.
  intros Gj evs w1 w' C. destruct x as [i sl]. simpl in C.
  apply andb_true_iff in C. destruct C as [E Hex].
  apply String.eqb_eq in E. subst i.
  unfold changed. simpl. unfold w'. rewrite getNode_performs.
  assert (getNode w1 j = Some (applyEvs evs nd)) as G1
    by (unfold w1; rewrite getNode_performs, Gj; reflexivity).
  rewrite G1. simpl.
  pose proof (swap_frame old new ty ids w1 j _ G1) as [_ Hfr].
  specialize (Hfr sl).
  destruct (updated_binding w nd sl Hex) as [_ B1]. fold evs in B1.
  destruct Hfr as [E|[Ho _]]; [|congruence].
  rewrite E, binding_eqb_refl. reflexivity.
Qed.

(** The count of a call is the number of bindings, among those of any
    duplicate-free list of layers that covers the listed ones, that differ
    after it. *)
Lemma count_changed universe ids : forall w,
  NoDup universe -> incl ids universe ->
  countAccepted (swapEvents w ids old new ty) =
  changedBindings w (fold_left perform (swapEvents w ids old new ty) w) universe.
Proof.
  induction ids as [|j ids IH]; intros w Hnd Hin; simpl.
  - rewrite changed_none. reflexivity.
  - assert (incl ids universe) as Hin' by (intros a Ha; apply Hin; right; exact Ha).
    destruct (getNode w j) as [nd|] eqn:Gj; [|apply IH; assumption].
    rewrite countAccepted_app, fold_left_app.
    rewrite (IH _ Hnd Hin'). unfold changedBindings.
    rewrite (filter_ext _ _ (fun x => changed_step w j nd ids x Gj)).
    rewrite filter_or_length.
    + f_equal.
      rewrite (count_pairs_of
                 (fun sl => existsb (acceptedOn sl) (nodeEvents w nd old new ty))
                 j universe Hnd).
      * symmetry. apply nodeEvents_count.
      * apply Hin. left. reflexivity.
    + intros x _. apply (changed_excl w j nd ids x Gj).
Qed.

End Counting.

(** C6. A rebind call skips layer ids that resolve to no node; it updates
    only bindings that hold the old identifier, and only those the kind
    looks at (fill and stroke, each on its own, for Fill; the one
    corresponding binding for Text, Effect and Grid); and it returns the
    number of bindings it changed, not the number of layers. *)
Theorem C6_rebind_counts_changed_bindings :
  forall (L : Type) (l : L) (w : World) (layerIds : list string)
         (old new styleType : string),
    exists count w' evs,
      swapStyle layerIds old new styleType (l, w) = (Ok count, (l, w')) /\
      (forall ids1 nid ids2,
          layerIds = ids1 ++ nid :: ids2 -> getNode w nid = None ->
          swapStyle (ids1 ++ ids2) old new styleType (l, w) =
          (Ok count, (l, w'))) /\
      (forall nid p,
          getNode w nid = Some p ->
          exists p', getNode w' nid = Some p' /\
                     reboundFrom layerIds old new styleType p p') /\
      ((forall n s, rejectsStyleId w n s new = false) ->
       forall nid p sl,
         In nid layerIds -> getNode w nid = Some p ->
         In sl (slotsOf styleType) -> binding sl p = Some (Val old) ->
         exists p', getNode w' nid = Some p' /\
                    binding sl p' = Some (Val new)) /\
      hostLog w' = hostLog w ++ evs /\
      count = countAccepted evs /\
      (old <> new ->
       count = changedBindings w w' (nodup string_dec layerIds)).
Proof.
  intros L l w ids old new ty.
  exists (countAccepted (swapEvents w ids old new ty)),
         (fold_left perform (swapEvents w ids old new ty) w),
         (swapEvents w ids old new ty).
  split; [apply swapStyle_run|]. split; [|split; [|split; [|split; [|split]]]].
  - intros ids1 nid ids2 -> G. rewrite swapStyle_run.
    rewrite (swapEvents_skip old new ty nid ids2 ids1 w G). reflexivity.
  - intros nid p G. exists (applyEvs (swapEvents w ids old new ty) p).
    split; [rewrite getNode_performs, G; reflexivity|].
    eapply swap_frame. exact G.
  - intros Hrej nid p sl Hin G Hsl Hb.
    exists (applyEvs (swapEvents w ids old new ty) p).
    split; [rewrite getNode_performs, G; reflexivity|].
    rewrite (swap_exact old new ty ids w nid p sl Hrej G).
    assert (existsb (String.eqb nid) ids = true) as E1.
    { apply existsb_exists. exists nid. split; [exact Hin|apply String.eqb_refl]. }
    assert (holds sl p old = true) as E2 by (apply holds_true; exact Hb).
    assert (existsb (slot_eqb sl) (slotsOf ty) = true) as E3.
    { apply existsb_exists. exists sl. split; [exact Hsl|apply slot_eqb_refl]. }
    rewrite E1, E2, E3. reflexivity.
  - apply hostLog_performs.
  - reflexivity.
  - intros Hne. apply (count_changed old new ty Hne).
    + apply NoDup_nodup.
    + intros a Ha. apply nodup_In. exact Ha.
Qed.

(* ===================================================================== *)
(** ** importRemoteStyle *)
(* ===================================================================== *)

Lemma importFrom_no_donor nd ty name s :
  donor ty nd = false -> importFrom nd ty name s = (Ok false, s).
Proof.
  unfold donor, importFrom.
  destruct ((ty =? "FILL") && isSome (fills nd)).
  { destruct (fills nd) as [[|fs]|]; [reflexivity|discriminate|reflexivity]. }
  destruct ((ty =? "TEXT") && (node_type nd =? "TEXT")).
  { destruct (fontSize nd), (fontName nd), (lineHeight nd), (letterSpacing nd),
      (textCase nd), (textDecoration nd); try reflexivity; discriminate. }
  destruct ((ty =? "EFFECT") && isSome (effects nd)); [discriminate|].
  destruct ((ty =? "GRID") && isSome (layoutGrids nd)); [discriminate|].
  reflexivity.
Qed.

Lemma importLoop_no_donor ty name ids : forall ns w,
  (forall id nd, In id ids -> getNode w id = Some nd -> donor ty nd = false) ->
  importLoop ids ty name (ns, w) = (Ok tt, (ns, w)).
Proof.
  induction ids as [|id ids IH]; intros ns w H; simpl; [reflexivity|].
  erewrite bind_ok by apply getNodeByIdAsync_run.
  destruct (getNode w id) as [nd|] eqn:G.
  - erewrite bind_ok.
    2:{ apply tryCatch_ok. apply importFrom_no_donor.
        apply (H id); [left; reflexivity|exact G]. }
    apply IH. intros i n Hi. apply H. right. exact Hi.
  - apply IH. intros i n Hi. apply H. right. exact Hi.
Qed.

(** No layer qualifies as a donor: nothing is created, nothing is
    rebound, the result is 0. *)
Lemma import_without_donor {L} (l : L) w ids ty name old :
  (forall id nd, In id ids -> getNode w id = Some nd -> donor ty nd = false) ->
  importRemoteStyle ids ty name old (l, w) = (Ok 0, (l, w)).
Proof.
  intros H. unfold importRemoteStyle, call. simpl snd.
  erewrite bind_ok by (apply importLoop_no_donor; exact H).
  reflexivity.
Qed.

(** Whatever the loop did, the rebind that follows a creation runs over
    the whole list of layer ids, towards the style [newStyle] refers to. *)
Lemma import_rebinds_whole_list {L} (l : L) w ids ty name old ns w1 :
  importLoop ids ty name (None, w) = (Ok tt, (ns, w1)) ->
  importRemoteStyle ids ty name old (l, w) =
  match ns with
  | Some sid => swapStyle ids old sid ty (l, w1)
  | None => (Ok 0, (l, w1))
  end.
Proof.
  intros H. unfold importRemoteStyle, call. simpl snd.
  erewrite bind_ok by exact H.
  erewrite bind_ok by reflexivity.
  destruct ns as [sid|]; cbn [fst]; [|reflexivity].
  rewrite !swapStyle_run. reflexivity.
Qed.

Lemma creations_app a b : creations (a ++ b) = creations a ++ creations b.
Proof. apply flat_map_app. Qed.

Lemma createStyle_run {L} k (l : L) w :
  let sid := styleIdSupply w (length (localStyles w)) in
  exists w1,
    createStyle k (l, w) = (Ok sid, (l, w1)) /\
    page w1 = page w /\ rejectsField w1 = rejectsField w /\
    hostLog w1 = hostLog w ++ [EvCreate k sid].
Proof.
  intros sid. eexists. split.
  - cbv [createStyle bind getW modW ret fst snd]. reflexivity.
  - destruct k; repeat split.
Qed.

Lemma assignName_run {L} sid name (l : L) w :
  rejectsField w "name" name = false ->
  exists w1,
    assignName sid name (l, w) = (Ok tt, (l, w1)) /\
    page w1 = page w /\ rejectsField w1 = rejectsField w /\
    hostLog w1 = hostLog w ++ [EvAssign sid "name" true].
Proof.
  intros H. eexists. split.
  - unfold assignName. cbv [bind getW snd]. rewrite H. reflexivity.
  - repeat split.
Qed.

Lemma assignField_run {L} sid field v (l : L) w :
  rejectsField w field v = false ->
  exists w1,
    assignField sid field v (l, w) = (Ok tt, (l, w1)) /\
    page w1 = page w /\ rejectsField w1 = rejectsField w /\
    hostLog w1 = hostLog w ++ [EvAssign sid field true].
Proof.
  intros H. eexists. split.
  - unfold assignField. cbv [bind getW snd]. rewrite H. reflexivity.
  - repeat split.
Qed.

Lemma copies_ret {L A} (a : A) (P : A -> Prop) :
  P a -> copies (ret a : M L A) P.
Proof. intros H l w _. exists a, w. repeat split. exact H. Qed.

Lemma copies_bind {L A B} (c : M L A) (k : A -> M L B) Q P :
  copies c Q -> (forall a, copies (k a) P) -> copies (bind c k) P.
Proof.
  intros Hc Hk l w Hrej. destruct (Hc l w Hrej) as [a [w1 [E [_ [Hp [Hr Hl]]]]]].
  assert (forall f v, rejectsField w1 f v = false) as Hrej1
    by (intros f v; rewrite Hr; apply Hrej).
  destruct (Hk a l w1 Hrej1) as [b [w2 [E2 [HP [Hp2 [Hr2 Hl2]]]]]].
  exists b, w2. split; [erewrite bind_ok by exact E; exact E2|].
  split; [exact HP|]. repeat split; congruence.
Qed.

Lemma copies_assignName {L} sid name :
  copies (assignName sid name : M L unit) (fun _ => True).
Proof.
  intros l w Hrej. destruct (assignName_run sid name l w (Hrej _ _))
    as [w1 [E [Hp [Hr Hl]]]].
  exists tt, w1. repeat split; auto. rewrite Hl, creations_app. apply app_nil_r.
Qed.

Lemma copies_assignField {L} sid field v :
  copies (assignField sid field v : M L unit) (fun _ => True).
Proof.
  intros l w Hrej. destruct (assignField_run sid field v l w (Hrej _ _))
    as [w1 [E [Hp [Hr Hl]]]].
  exists tt, w1. repeat split; auto. rewrite Hl, creations_app. apply app_nil_r.
Qed.

(** Creating a style and filling it in, every assignment accepted. *)
Lemma create_and_copy k (body : string -> M (option string) bool) ns w :
  (forall f v, rejectsField w f v = false) ->
  (forall sid, copies (body sid) (eq true)) ->
  exists sid w1,
    (sid <- createStyle k ;; putL (Some sid) ;; body sid) (ns, w) =
    (Ok true, (Some sid, w1)) /\
    page w1 = page w /\
    creations (hostLog w1) = creations (hostLog w) ++ [sid].
Proof.
  intros Hrej Hbody.
  destruct (createStyle_run k ns w) as [w0 [E [Hp [Hr Hl]]]].
  set (sid := styleIdSupply w (length (localStyles w))) in *.
  assert (forall f v, rejectsField w0 f v = false) as Hrej0
    by (intros f v; rewrite Hr; apply Hrej).
  destruct (Hbody sid (Some sid) w0 Hrej0) as [a [w1 [E1 [<- [Hp1 [Hr1 Hl1]]]]]].
  exists sid, w1. split.
  - erewrite bind_ok by exact E. erewrite bind_ok by reflexivity. exact E1.
  - split; [congruence|]. rewrite Hl1, Hl, creations_app. reflexivity.
Qed.

Ltac copy_steps :=
  repeat first
    [ apply copies_ret; reflexivity
    | eapply copies_bind;
      [first [apply copies_assignName | apply copies_assignField]|intros ?] ].

Lemma importFrom_donor nd ty name ns w :
  donor ty nd = true ->
  (forall f v, rejectsField w f v = false) ->
  exists sid w1,
    importFrom nd ty name (ns, w) = (Ok true, (Some sid, w1)) /\
    page w1 = page w /\
    creations (hostLog w1) = creations (hostLog w) ++ [sid].
Proof.
  intros Hd Hrej. unfold donor in Hd. unfold importFrom.
  destruct ((ty =? "FILL") && isSome (fills nd)).
  { destruct (fills nd) as [[|fs]|]; try discriminate.
    apply create_and_copy; [exact Hrej|intros sid; copy_steps]. }
  destruct ((ty =? "TEXT") && (node_type nd =? "TEXT")).
  { destruct (fontSize nd), (fontName nd), (lineHeight nd), (letterSpacing nd),
      (textCase nd), (textDecoration nd); try discriminate.
    apply create_and_copy; [exact Hrej|intros sid; copy_steps]. }
  destruct ((ty =? "EFFECT") && isSome (effects nd)) eqn:E.
  { destruct (effects nd) as [es|];
      [|rewrite andb_false_r in E; discriminate].
    apply create_and_copy; [exact Hrej|intros sid; copy_steps]. }
  destruct ((ty =? "GRID") && isSome (layoutGrids nd)) eqn:G; [|discriminate].
  destruct (layoutGrids nd) as [gs|];
    [|rewrite andb_false_r in G; discriminate].
  apply create_and_copy; [exact Hrej|intros sid; copy_steps].
Qed.

(** With every assignment accepted, the loop creates one style from the
    first donor and stops, or finds no donor and creates none. *)
Lemma importLoop_accepting ty name ids : forall w,
  (forall f v, rejectsField w f v = false) ->
  importLoop ids ty name (None, w) = (Ok tt, (None, w)) \/
  exists sid w1,
    importLoop ids ty name (None, w) = (Ok tt, (Some sid, w1)) /\
    page w1 = page w /\
    creations (hostLog w1) = creations (hostLog w) ++ [sid].
Proof.
  induction ids as [|id ids IH]; intros w Hrej; simpl; [left; reflexivity|].
  erewrite bind_ok by apply getNodeByIdAsync_run.
  destruct (getNode w id) as [nd|]; [|apply IH; exact Hrej].
  destruct (donor ty nd) eqn:D.
  - right. destruct (importFrom_donor nd ty name None w D Hrej)
      as [sid [w1 [E [Hp Hl]]]].
    exists sid, w1. split; [|auto].
    erewrite bind_ok by (apply tryCatch_ok; exact E). reflexivity.
  - erewrite bind_ok by (apply tryCatch_ok, importFrom_no_donor; exact D).
    apply IH. exact Hrej.
Qed.

(** With every assignment accepted, a call creates at most one style,
    and when it creates one it rebinds the whole list of layers to it. *)
Lemma import_accepting {L} (l : L) w ids ty name old :
  (forall f v, rejectsField w f v = false) ->
  importRemoteStyle ids ty name old (l, w) = (Ok 0, (l, w)) \/
  exists sid w1,
    importRemoteStyle ids ty name old (l, w) =
    swapStyle ids old sid ty (l, w1) /\
    page w1 = page w /\
    creations (hostLog w1) = creations (hostLog w) ++ [sid].
Proof.
  intros Hrej. destruct (importLoop_accepting ty name ids w Hrej)
    as [E|[sid [w1 [E [Hp Hl]]]]].
  - left. rewrite (import_rebinds_whole_list l w ids ty name old _ _ E).
    reflexivity.
  - right. exists sid, w1. split; [|auto].
    apply (import_rebinds_whole_list l w ids ty name old _ _ E).
Qed.

(** C3. On two text layers whose font the host refuses to assign to a
    style, one call creates two local styles where at most one is to be
    created: the failed copy from the first layer leaves its style behind
    and the loop goes on to the second layer, to whose style, itself only
    half filled in, both layers are then rebound. *)
Theorem C3_failed_copy_creates_second_style :
  let r := importRemoteStyle ["1"; "2"] "TEXT" "Recovered" "S:999"
             (tt, robotoWorld) in
  fst r = Ok 2 /\
  textStyles robotoWorld = [] /\
  map style_id (textStyles (snd (snd r))) = ["S:new0"; "S:new1"] /\
  creations (hostLog (snd (snd r))) = ["S:new0"; "S:new1"] /\
  map (binding SText) (allNodes (snd (snd r))) =
  [Some (Val "S:new1"); Some (Val "S:new1")].
Proof. vm_compute. repeat split. Qed.

(* ===================================================================== *)
(** ** The examples of the specification *)
(* ===================================================================== *)

(** Three layers bound to a fill style that does not exist locally: one
    entry with the three layers, in order. *)
Example scan_three_layers :
  fst (scan (tt, threeLayers)) =
  Ok ([mkRemote "S:999" unknownName FILL
         [layerL "L1"; layerL "L2"; layerL "L3"]],
      [mkLocal "S:111" "Brand" FILL]).
Proof. vm_compute. reflexivity. Qed.

(** Rebinding them to the local style counts 3 and the scan that follows
    reports no remote style. *)
Example swap_three_layers :
  fst (onSwapStyle ["L1"; "L2"; "L3"] "S:999" "S:111" "FILL"
         (tt, threeLayers)) =
  Ok (3, ([], [mkLocal "S:111" "Brand" FILL])).
Proof. vm_compute. reflexivity. Qed.

(** Importing from them creates one local fill style, applies it to the
    three layers, and the scan that follows lists it among the local
    styles and reports no remote style. *)
Example import_three_layers :
  fst (onImportStyle ["L1"; "L2"; "L3"] "FILL" "Recovered" "S:999"
         (tt, threeLayers)) =
  Ok (3, ([], [mkLocal "S:111" "Brand" FILL;
               mkLocal "S:new1" "Recovered" FILL])).
Proof. vm_compute. reflexivity. Qed.

(** A rejected update ends the work on its layer, stroke included, is
    logged, and leaves the other layers to be rebound. *)
Example swap_with_rejected_update :
  let r := swapStyle ["L1"; "L2"; "L3"] "S:999" "S:111" "FILL"
             (tt, stubbornWorld) in
  fst r = Ok 2 /\
  hostLog (snd (snd r)) =
  [EvSet "L1" SFill "S:111" false; EvError "Error swapping style:";
   EvSet "L2" SFill "S:111" true; EvSet "L3" SFill "S:111" true] /\
  map (binding SStroke) (allNodes (snd (snd r))) =
  [Some (Val "S:999"); None; None].
Proof. vm_compute. repeat split. Qed.

(* ===================================================================== *)
(** ** selectLayers *)
(* ===================================================================== *)

Lemma selectLoop_run ids : forall nodes u w,
  selectLoop ids nodes (u, w) = (Ok (nodes ++ resolved w ids), (u, w)).
Proof.
  induction ids as [|id ids IH]; intros nodes u w; simpl.
  - rewrite app_nil_r. reflexivity.
  - erewrite bind_ok by apply getNodeByIdAsync_run.
    destruct (getNode w id) as [nd|]; rewrite IH.
    + rewrite <- app_assoc. reflexivity.
    + reflexivity.
Qed.

Lemma resolved_ids w ids nd :
  In nd (resolved w ids) -> In (node_id nd) ids /\ getNode w (node_id nd) = Some nd.
Proof.
  unfold resolved. intros H. apply in_flat_map in H. destruct H as [id [Hid H]].
  destruct (getNode w id) as [p|] eqn:G; [|contradiction].
  destruct H as [<-|[]]. rewrite (getNode_id _ _ _ G). auto.
Qed.

(** [selectLayers] returns, and touches neither the document nor what was
    posted. *)
Lemma selectLayers_quiet ids u w :
  exists u',
    selectLayers ids (u, w) = (Ok tt, (u', w)) /\ posted u' = posted u.
Proof.
  unfold selectLayers. erewrite bind_ok by apply selectLoop_run.
  erewrite bind_ok by reflexivity.
  destruct (0 <? length ([] ++ resolved w ids))%nat; eexists; split; reflexivity.
Qed.

(** X1. [selectLayers] selects the nodes its ids resolve to, in the
    order of the ids, stale ids left out; it scrolls to them when there is
    one at least; and it changes nothing else of the host. *)
Theorem X1_selectLayers_selects_resolved_nodes :
  forall (layerIds : list string) (u : Ui) (w : World),
    exists u',
      selectLayers layerIds (u, w) = (Ok tt, (u', w)) /\
      selection u' = resolved w layerIds /\
      focused u' =
      (if (0 <? length (resolved w layerIds))%nat
       then focused u ++ [resolved w layerIds] else focused u) /\
      posted u' = posted u /\ notified u' = notified u /\
      closed u' = closed u /\
      (forall nd, In nd (selection u') ->
                  In (node_id nd) layerIds /\ In nd (allNodes w)).
Proof.
  intros ids u w. unfold selectLayers.
  erewrite bind_ok by apply selectLoop_run. simpl app.
  assert (forall nd, In nd (resolved w ids) ->
                     In (node_id nd) ids /\ In nd (allNodes w)) as Hin.
  { intros nd H. destruct (resolved_ids w ids nd H) as [Hi G]. split; [exact Hi|].
    unfold getNode in G. apply find_some in G. tauto. }
  erewrite bind_ok by reflexivity.
  destruct (0 <? length (resolved w ids))%nat; eexists;
    (split; [reflexivity|]); simpl; repeat split; auto; apply Hin; assumption.
Qed.

(** X2. When no id of the list resolves to a node (the list is empty, or
    the layers are gone), [selectLayers] empties the selection and leaves
    the viewport where it is. *)
Theorem X2_selectLayers_stale_ids_clear_selection :
  forall (layerIds : list string) (u : Ui) (w : World),
    (forall id, In id layerIds -> getNode w id = None) ->
    exists u',
      selectLayers layerIds (u, w) = (Ok tt, (u', w)) /\
      selection u' = [] /\ focused u' = focused u.
Proof.
  intros ids u w H. unfold selectLayers.
  erewrite bind_ok by apply selectLoop_run. simpl app.
  assert (resolved w ids = []) as E.
  { unfold resolved. induction ids as [|id ids IH]; simpl; [reflexivity|].
    rewrite (H id) by (left; reflexivity). simpl. apply IH.
    intros i Hi. apply H. right. exact Hi. }
  rewrite E. eexists. split; [reflexivity|]. split; reflexivity.
Qed.

Lemma X2_witness :
  exists u',
    selectLayers ["gone"; "9:9"]
      (mkUi [twiceBound] [] [] [] false true, twiceBoundWorld) =
    (Ok tt, (u', twiceBoundWorld)) /\
    selection u' = [] /\ focused u' = [].
Proof.
  apply (X2_selectLayers_stale_ids_clear_selection ["gone"; "9:9"]
           (mkUi [twiceBound] [] [] [] false true) twiceBoundWorld).
  intros id [<-|[<-|[]]]; reflexivity.
Defined.

(* ===================================================================== *)
(** ** The message handler *)
(* ===================================================================== *)

Lemma postMessage_run m u w :
  postMessage m (u, w) =
  (Ok tt, (mkUi (selection u) (focused u) (posted u ++ [m]) (notified u)
             (closed u) (interLoads u), w)).
Proof. reflexivity. Qed.

Lemma notify_run text u w :
  notify text (u, w) =
  (Ok tt, (mkUi (selection u) (focused u) (posted u) (notified u ++ [text])
             (closed u) (interLoads u), w)).
Proof. reflexivity. Qed.

Lemma postScan_run u w :
  postScan (u, w) =
  (Ok tt,
   (mkUi (selection u) (focused u)
      (posted u ++ [ScanResult (fst (reportOf w)) (snd (reportOf w))])
      (notified u) (closed u) (interLoads u),
    after w (lookups (pageRefs w)))).
Proof.
  unfold postScan.
  erewrite bind_ok by apply findLayersWithRemoteStyles_run.
  erewrite bind_ok by apply getLocalStyles_run.
  apply postMessage_run.
Qed.

Lemma loadFontAsync_ok u w :
  interLoads u = true -> loadFontAsync (u, w) = (Ok tt, (u, w)).
Proof. intros H. unfold loadFontAsync. cbv [bind getL fst]. rewrite H. reflexivity. Qed.

Lemma loadFontAsync_fails u w :
  interLoads u = false ->
  loadFontAsync (u, w) = (Throw "font could not be loaded", (u, w)).
Proof. intros H. unfold loadFontAsync. cbv [bind getL fst]. rewrite H. reflexivity. Qed.

(** [importRemoteStyle] returns: no fault of the host gets out of it. *)
Lemma importFrom_caught nd ty name s :
  exists b s',
    tryCatch (importFrom nd ty name)
      (fun _ => consoleError "Error importing style:" ;; ret false) s =
    (Ok b, s').
Proof.
  unfold tryCatch. destruct (importFrom nd ty name s) as [[b|e] s'].
  - exists b, s'. reflexivity.
  - eexists _, _. reflexivity.
Qed.

Lemma importLoop_returns ty name ids : forall s,
  exists s', importLoop ids ty name s = (Ok tt, s').
Proof.
  induction ids as [|id ids IH]; intros [ns w]; simpl.
  - eexists. reflexivity.
  - erewrite bind_ok by apply getNodeByIdAsync_run.
    destruct (getNode w id) as [nd|]; [|apply IH].
    destruct (importFrom_caught nd ty name (ns, w)) as [b [s' E]].
    erewrite bind_ok by exact E.
    destruct b; [eexists; reflexivity|apply IH].
Qed.

Lemma importRemoteStyle_returns {L} (l : L) w ids ty name old :
  exists count w',
    importRemoteStyle ids ty name old (l, w) = (Ok count, (l, w')).
Proof.
  destruct (importLoop_returns ty name ids (None, w)) as [[ns w1] E].
  rewrite (import_rebinds_whole_list l w ids ty name old ns w1 E).
  destruct ns as [sid|].
  - rewrite swapStyle_run. eexists _, _. reflexivity.
  - eexists _, _. reflexivity.
Qed.

(** What the handler's calls come to: a result, or the TypeError of a
    message without [layerIds], thrown before anything was done. *)
Lemma selectLayersOf_outcome ids u w :
  (exists u', selectLayersOf ids (u, w) = (Ok tt, (u', w)) /\
              posted u' = posted u) \/
  (exists e, selectLayersOf ids (u, w) = (Throw e, (u, w))).
Proof.
  destruct ids as [ids|]; simpl.
  - left. apply selectLayers_quiet.
  - right. eexists. reflexivity.
Qed.

Lemma swapStyleOf_outcome ids old new ty u w :
  (exists count w', swapStyleOf ids old new ty (u, w) = (Ok count, (u, w'))) \/
  (exists e, swapStyleOf ids old new ty (u, w) = (Throw e, (u, w))).
Proof.
  destruct ids as [ids|]; simpl; [left|right; eexists; reflexivity].
  destruct old as [old|], ty as [ty|];
    try (rewrite swapStyle_run); eexists _, _; reflexivity.
Qed.

Lemma importRemoteStyleOf_outcome ids ty name old u w :
  (exists count w',
      importRemoteStyleOf ids ty name old (u, w) = (Ok count, (u, w'))) \/
  (exists e, importRemoteStyleOf ids ty name old (u, w) = (Throw e, (u, w))).
Proof.
  destruct ids as [ids|]; simpl; [left|right; eexists; reflexivity].
  destruct ty as [ty|]; [|eexists _, _; reflexivity].
  destruct old as [old|]; [apply importRemoteStyle_returns|].
  destruct (importLoop_returns ty name ids (None, w)) as [[ns w1] E].
  unfold call. simpl snd. erewrite bind_ok by exact E.
  eexists _, _. reflexivity.
Qed.

Lemma postScan_current s : current (snd (postScan s)).
Proof.
  destruct s as [u w]. rewrite postScan_run. exists (posted u). reflexivity.
Qed.

Lemma postScan_after {A} (c : M Ui A) s a s' :
  c s = (Ok a, s') -> current (snd (bind c (fun _ => postScan) s)).
Proof.
  intros E. erewrite bind_ok by exact E. apply postScan_current.
Qed.

Lemma onmessage_current msg s : current s -> current (snd (onmessage msg s)).
Proof.
  intros Hc. destruct s as [u w]. unfold onmessage.
  destruct (msg_type msg =? "scan"); [apply postScan_current|].
  destruct (msg_type msg =? "select-layers").
  { destruct (selectLayersOf_outcome (msg_layerIds msg) u w)
      as [[u' [E Hp]]|[e E]]; rewrite E; [|exact Hc].
    destruct Hc as [earlier Hc]. exists earlier. simpl in *.
    rewrite Hp. exact Hc. }
  destruct (msg_type msg =? "swap-style").
  { destruct (swapStyleOf_outcome (msg_layerIds msg) (msg_oldStyleId msg)
                (msg_newStyleId msg) (msg_styleType msg) u w)
      as [[count [w' E]]|[e E]].
    - erewrite bind_ok by exact E.
      eapply postScan_after. apply notify_run.
    - erewrite bind_throw by exact E. exact Hc. }
  destruct (msg_type msg =? "import-style").
  { destruct (interLoads u) eqn:F.
    - erewrite bind_ok by (apply loadFontAsync_ok; exact F).
      destruct (importRemoteStyleOf_outcome (msg_layerIds msg)
                  (msg_styleType msg) (msg_styleName msg) (msg_styleId msg)
                  u w) as [[count [w' E]]|[e E]].
      + erewrite bind_ok by exact E.
        eapply postScan_after. apply notify_run.
      + erewrite bind_throw by exact E. exact Hc.
    - erewrite bind_throw by (apply loadFontAsync_fails; exact F). exact Hc. }
  destruct (msg_type msg =? "close").
  { destruct Hc as [earlier Hc]. exists earlier. exact Hc. }
  exact Hc.
Qed.

Lemma deliver_current msg s : current s -> current (deliver s msg).
Proof.
  intros Hc. unfold deliver. destruct (closed (fst s)); [exact Hc|].
  apply onmessage_current. exact Hc.
Qed.

(** X3. Through a whole session (the scan the plugin starts with, then
    any messages of the UI, whatever they do and whether or not a handler
    throws) the last report posted to the UI is the one a scan of the
    document as it now is returns. *)
Theorem X3_last_posted_report_is_current :
  forall (msgs : list Msg) (s0 : Ui * World),
    exists earlier remote local w',
      posted (fst (session msgs s0)) = earlier ++ [ScanResult remote local] /\
      scan (session msgs s0) =
      (Ok (remote, local), (fst (session msgs s0), w')).
Proof.
  intros msgs s0.
  assert (current (session msgs s0)) as [earlier H].
  { unfold session. generalize (postScan_current s0).
    generalize (snd (postScan s0)).
    induction msgs as [|m msgs IH]; intros s Hs; simpl; [exact Hs|].
    apply IH. apply deliver_current. exact Hs. }
  destruct (session msgs s0) as [u w]. simpl in H.
  exists earlier, (fst (reportOf w)), (snd (reportOf w)). eexists.
  split; [exact H|]. rewrite scan_run. reflexivity.
Qed.

(** X4. A [swap-style] message that carries its list of layers, the old
    identifier and the kind rebinds, notifies the count the rebind
    returned (the number in decimal, followed by the text of line 289),
    and posts one report, which is the scan of the document as the rebind
    left it; it leaves the selection alone. *)
Theorem X4_swap_style_message_reports_after_rebinding :
  forall (msg : Msg) (u : Ui) (w : World) (layerIds : list string)
         (old styleType : string),
    msg_type msg = "swap-style" ->
    msg_layerIds msg = Some layerIds ->
    msg_oldStyleId msg = Some old ->
    msg_styleType msg = Some styleType ->
    exists count w1 u' w2 remote local w3,
      swapStyle layerIds old (msg_newStyleId msg) styleType (u, w) =
      (Ok count, (u, w1)) /\
      scan (u, w1) = (Ok (remote, local), (u, w3)) /\
      onmessage msg (u, w) = (Ok tt, (u', w2)) /\
      notified u' =
      notified u ++
      [String.append (NilEmpty.string_of_uint (Nat.to_uint count))
         "個のレイヤーのスタイルを変更しました"] /\
      posted u' = posted u ++ [ScanResult remote local] /\
      selection u' = selection u /\ focused u' = focused u /\
      page w2 = page w1.
Proof.
  intros msg u w ids old ty Ht Hi Ho Hk. unfold onmessage.
  rewrite Ht, Hi, Ho, Hk. simpl.
  do 7 eexists. split; [apply swapStyle_run|].
  split; [apply scan_run|].
  split.
  - erewrite bind_ok by apply swapStyle_run.
    erewrite bind_ok by apply notify_run.
    apply postScan_run.
  - simpl. repeat split.
Qed.

Lemma X4_witness :
  exists count w1 u' w2 remote local w3,
    swapStyle ["L1"; "L2"; "L3"] "S:999" "S:111" "FILL"
      (mkUi [] [] [] [] false true, threeLayers) =
    (Ok count, (mkUi [] [] [] [] false true, w1)) /\
    scan (mkUi [] [] [] [] false true, w1) =
    (Ok (remote, local), (mkUi [] [] [] [] false true, w3)) /\
    onmessage
      (mkMsg "swap-style" (Some ["L1"; "L2"; "L3"]) (Some "S:999") "S:111"
         (Some "FILL") "" None)
      (mkUi [] [] [] [] false true, threeLayers) = (Ok tt, (u', w2)) /\
    notified u' =
    [] ++
    [String.append (NilEmpty.string_of_uint (Nat.to_uint count))
       "個のレイヤーのスタイルを変更しました"] /\
    posted u' = [] ++ [ScanResult remote local] /\
    selection u' = [] /\ focused u' = [] /\
    page w2 = page w1.
Proof.
  apply (X4_swap_style_message_reports_after_rebinding
           (mkMsg "swap-style" (Some ["L1"; "L2"; "L3"]) (Some "S:999")
              "S:111" (Some "FILL") "" None)
           (mkUi [] [] [] [] false true) threeLayers
           ["L1"; "L2"; "L3"] "S:999" "FILL"); reflexivity.
Defined.

(** X5. When the host cannot load the font, an [import-style] message
    fails before anything is imported: no style is created, no binding
    changed, nothing notified and nothing posted. *)
Theorem X5_import_style_message_needs_the_font :
  forall (msg : Msg) (u : Ui) (w : World),
    msg_type msg = "import-style" ->
    interLoads u = false ->
    exists e, onmessage msg (u, w) = (Throw e, (u, w)).
Proof.
  intros msg u w Ht Hf. unfold onmessage. rewrite Ht. simpl.
  eexists. erewrite bind_throw by (apply loadFontAsync_fails; exact Hf).
  reflexivity.
Qed.

Lemma X5_witness :
  exists e,
    onmessage (mkMsg "import-style" (Some ["L1"]) None "" (Some "FILL") "Recovered"
       (Some "S:999"))
      (mkUi [] [] [] [] false false, threeLayers) =
    (Throw e, (mkUi [] [] [] [] false false, threeLayers)).
Proof.
  apply (X5_import_style_message_needs_the_font
           (mkMsg "import-style" (Some ["L1"]) None "" (Some "FILL") "Recovered"
       (Some "S:999"))
           (mkUi [] [] [] [] false false) threeLayers); reflexivity.
Defined.

(* ===================================================================== *)
(** ** More on swapStyle *)
(* ===================================================================== *)

Lemma swapEvents_app old new ty a : forall b w,
  swapEvents w (a ++ b) old new ty =
  swapEvents w a old new ty ++
  swapEvents (fold_left perform (swapEvents w a old new ty) w) b old new ty.
Proof.
  induction a as [|j a IH]; intros b w; simpl; [reflexivity|].
  destruct (getNode w j) as [nd|]; [|apply IH].
  rewrite IH, fold_left_app, app_assoc. reflexivity.
Qed.

(** X6. Rebinding a list of layers that is the concatenation of two is
    rebinding the first and then, in the document this leaves, the second;
    the count is the sum of the two counts. *)
Theorem X6_swapStyle_of_concatenation :
  forall (L : Type) (l : L) (w : World) (ids1 ids2 : list string)
         (old new styleType : string),
    exists c1 w1 c2 w2,
      swapStyle ids1 old new styleType (l, w) = (Ok c1, (l, w1)) /\
      swapStyle ids2 old new styleType (l, w1) = (Ok c2, (l, w2)) /\
      swapStyle (ids1 ++ ids2) old new styleType (l, w) =
      (Ok (c1 + c2), (l, w2)).
Proof.
  intros L l w a b old new ty. do 4 eexists.
  split; [apply swapStyle_run|]. split; [apply swapStyle_run|].
  rewrite swapStyle_run, swapEvents_app, countAccepted_app, fold_left_app.
  reflexivity.
Qed.

Lemma attempt_count rej nd old new sls :
  countAccepted (attempt rej nd old new sls) <= length sls.
Proof.
  induction sls as [|sl sls IH]; simpl; [apply Nat.le_refl|].
  destruct (holds sl nd old); [|apply Nat.le_le_succ_r; exact IH].
  destruct (rej sl); unfold countAccepted in *; simpl.
  - apply Nat.le_0_l.
  - apply le_n_S. exact IH.
Qed.

Lemma swapEvents_count old new ty ids : forall w,
  countAccepted (swapEvents w ids old new ty) <=
  length (slotsOf ty) * length ids.
Proof.
  induction ids as [|j ids IH]; intros w; simpl;
    [unfold countAccepted; simpl; lia|].
  destruct (getNode w j) as [nd|].
  - rewrite countAccepted_app.
    pose proof (attempt_count
                  (fun sl => rejectsStyleId w (node_id nd) sl new) nd old new
                  (slotsOf ty)) as H1.
    fold (nodeEvents w nd old new ty) in H1.
    specialize (IH (fold_left perform (nodeEvents w nd old new ty) w)). nia.
  - specialize (IH w). nia.
Qed.

Lemma slotsOf_length ty :
  length (slotsOf ty) <= 2 /\ (ty <> "FILL" -> length (slotsOf ty) <= 1).
Proof.
  unfold slotsOf. destruct (ty =? "FILL") eqn:E.
  - apply String.eqb_eq in E. split; [simpl; lia|]. intros H. contradiction.
  - destruct (ty =? "TEXT"); [simpl; lia|].
    destruct (ty =? "EFFECT"); [simpl; lia|].
    destruct (ty =? "GRID"); simpl; lia.
Qed.

(** X7. The count a rebind returns is at most twice the number of layer
    ids it was given, at most that number when the kind is not Fill, and 0
    when the kind is none of the four. *)
Theorem X7_swapStyle_count_bounds :
  forall (L : Type) (l : L) (w : World) (layerIds : list string)
         (old new styleType : string),
    exists count w',
      swapStyle layerIds old new styleType (l, w) = (Ok count, (l, w')) /\
      count <= 2 * length layerIds /\
      (styleType <> "FILL" -> count <= length layerIds) /\
      (styleType <> "FILL" -> styleType <> "TEXT" ->
       styleType <> "EFFECT" -> styleType <> "GRID" ->
       count = 0 /\ w' = w).
Proof.
  intros L l w ids old new ty. do 2 eexists.
  split; [apply swapStyle_run|].
  pose proof (swapEvents_count old new ty ids w) as H.
  destruct (slotsOf_length ty) as [H2 H1].
  split; [nia|]. split; [intros Hf; specialize (H1 Hf); nia|].
  intros Hf Ht He Hg.
  assert (slotsOf ty = []) as Z.
  { unfold slotsOf. apply String.eqb_neq in Hf, Ht, He, Hg.
    rewrite Hf, Ht, He, Hg. reflexivity. }
  assert (forall w0, swapEvents w0 ids old new ty = []) as E.
  { clear H. induction ids as [|j ids IH]; intros w0; simpl; [reflexivity|].
    destruct (getNode w0 j) as [nd|]; [|apply IH].
    unfold nodeEvents. rewrite Z. simpl. apply IH. }
  rewrite E. split; reflexivity.
Qed.

Lemma mapNode_ext f g n :
  (forall p, f p = g p) -> mapNode f n = mapNode g n.
Proof.
  intros H. induction n as [p|p cs IH] using SceneNode_ind'; simpl.
  - rewrite H. reflexivity.
  - rewrite H. do 2 f_equal.
    induction IH as [|c cs Hc Hcs IHcs]; simpl; [reflexivity|].
    rewrite Hc, IHcs. reflexivity.
Qed.

Lemma mapNode_id n : mapNode (fun p => p) n = n.
Proof.
  induction n as [p|p cs IH] using SceneNode_ind'; simpl; [reflexivity|].
  do 2 f_equal.
  induction IH as [|c cs Hc Hcs IHcs]; simpl; [reflexivity|].
  rewrite Hc, IHcs. reflexivity.
Qed.

Lemma mapNode_mapNode f g n :
  mapNode f (mapNode g n) = mapNode (fun p => f (g p)) n.
Proof.
  induction n as [p|p cs IH] using SceneNode_ind'; simpl; [reflexivity|].
  do 2 f_equal. rewrite map_map.
  induction IH as [|c cs Hc Hcs IHcs]; simpl; [reflexivity|].
  rewrite Hc, IHcs. reflexivity.
Qed.

Lemma page_perform w e :
  page (perform w e) = map (mapNode (evUpdate e)) (page w).
Proof.
  assert (forall l, map (mapNode (fun p => p)) l = l) as Hid.
  { induction l as [|n l IH]; simpl; [reflexivity|].
    rewrite mapNode_id, IH. reflexivity. }
  destruct e as [|nid sl new []| | |]; simpl;
    try (symmetry; apply Hid).
  reflexivity.
Qed.

Lemma page_applyEvs evs : forall w,
  page (fold_left perform evs w) = map (mapNode (applyEvs evs)) (page w).
Proof.
  induction evs as [|e evs IH]; intros w; simpl.
  - symmetry. rewrite <- (map_id (page w)) at 2. apply map_ext.
    intros n. apply mapNode_id.
  - rewrite IH, page_perform, map_map. apply map_ext.
    intros n. rewrite mapNode_mapNode. apply mapNode_ext. reflexivity.
Qed.

Lemma styles_performs evs : forall w,
  paintStyles (fold_left perform evs w) = paintStyles w /\
  textStyles (fold_left perform evs w) = textStyles w /\
  effectStyles (fold_left perform evs w) = effectStyles w /\
  gridStyles (fold_left perform evs w) = gridStyles w.
Proof.
  induction evs as [|e evs IH]; intros w; simpl; [auto|].
  destruct (IH (perform w e)) as [H1 [H2 [H3 H4]]].
  rewrite H1, H2, H3, H4.
  destruct e as [|nid sl new []| | |]; auto.
Qed.

Lemma attempt_requests rej nd old new sls e :
  In e (attempt rej nd old new sls) ->
  e = EvError "Error swapping style:" \/
  exists sl ok, e = EvSet (node_id nd) sl new ok /\ In sl sls.
Proof.
  induction sls as [|s sls IH]; simpl; [contradiction|].
  destruct (holds s nd old).
  - destruct (rej s).
    + intros [<-|[<-|[]]]; [right; exists s, false; auto|left; reflexivity].
    + intros [<-|H]; [right; exists s, true; auto|].
      destruct (IH H) as [E|[sl [ok [E Hin]]]]; [left; exact E|].
      right. exists sl, ok. auto.
  - intros H. destruct (IH H) as [E|[sl [ok [E Hin]]]]; [left; exact E|].
    right. exists sl, ok. auto.
Qed.

(** The [try] block of a layer ends at the first refusal, which is logged
    once. *)
Lemma attempt_refusals rej nd old new sls :
  length (filter diagnostic (attempt rej nd old new sls)) =
  length (filter refused (attempt rej nd old new sls)) /\
  length (filter refused (attempt rej nd old new sls)) <= 1.
Proof.
  induction sls as [|s sls IH]; simpl; [auto|].
  destruct (holds s nd old); [|exact IH].
  destruct (rej s); simpl; [auto|exact IH].
Qed.

Lemma swapEvents_requests old new ty ids : forall w e,
  In e (swapEvents w ids old new ty) -> swapRequest w ids new ty e.
Proof.
  induction ids as [|j ids IH]; intros w e; simpl; [contradiction|].
  assert (forall w', (forall n, getNode w' n <> None -> getNode w n <> None) ->
            swapRequest w' ids new ty e -> swapRequest w (j :: ids) new ty e) as Hup.
  { intros w' Hw' [E|[nid [sl [ok [E [Hi [G Hs]]]]]]]; [left; exact E|].
    right. exists nid, sl, ok. repeat split; auto. right. exact Hi. }
  destruct (getNode w j) as [nd|] eqn:Gj.
  - rewrite in_app_iff. intros [H|H].
    + apply attempt_requests in H. destruct H as [E|[sl [ok [E Hs]]]]; [left; exact E|].
      right. exists j, sl, ok. rewrite <- (getNode_id _ _ _ Gj).
      repeat split; auto.
      * left. reflexivity.
      * rewrite (getNode_id _ _ _ Gj), Gj. discriminate.
    + apply (Hup (fold_left perform (nodeEvents w nd old new ty) w)).
      * intros n. rewrite getNode_performs. destruct (getNode w n); [discriminate|auto].
      * apply IH. exact H.
  - intros H. apply (Hup w); [auto|]. apply IH. exact H.
Qed.

Lemma swapEvents_refusals old new ty ids : forall w,
  length (filter diagnostic (swapEvents w ids old new ty)) =
  length (filter refused (swapEvents w ids old new ty)) /\
  length (filter refused (swapEvents w ids old new ty)) <= length ids.
Proof.
  induction ids as [|j ids IH]; intros w; simpl; [auto|].
  destruct (getNode w j) as [nd|].
  - rewrite !filter_app, !length_app.
    destruct (attempt_refusals (fun sl => rejectsStyleId w (node_id nd) sl new)
                nd old new (slotsOf ty)) as [H1 H2].
    destruct (IH (fold_left perform (nodeEvents w nd old new ty) w)) as [H3 H4].
    unfold nodeEvents in *. lia.
  - destruct (IH w) as [H3 H4]. lia.
Qed.

(** X8. All a rebind asks of the host: every event it adds to the host's
    log is an update, to the new identifier, of a binding its kind looks
    at on a listed layer that resolves, or the diagnostic of its [catch]
    block; it creates no style, assigns no property and asks the registry
    nothing.  The count is the number of updates the host accepted, each
    refusal is logged once, and a layer id meets at most one refusal,
    since the first one ends its [try] block. *)
Theorem X8_swapStyle_asks_only_for_style_ids :
  forall (L : Type) (l : L) (w : World) (layerIds : list string)
         (old new styleType : string),
    exists count w' evs,
      swapStyle layerIds old new styleType (l, w) = (Ok count, (l, w')) /\
      hostLog w' = hostLog w ++ evs /\
      (forall e, In e evs -> swapRequest w layerIds new styleType e) /\
      count = length (filter accepted evs) /\
      length (filter diagnostic evs) = length (filter refused evs) /\
      length (filter refused evs) <= length layerIds.
Proof.
  intros L l w ids old new ty.
  exists (countAccepted (swapEvents w ids old new ty)),
         (fold_left perform (swapEvents w ids old new ty) w),
         (swapEvents w ids old new ty).
  split; [apply swapStyle_run|]. split; [apply hostLog_performs|].
  split; [apply swapEvents_requests|]. split; [reflexivity|].
  apply swapEvents_refusals.
Qed.

Lemma getNode_doc w w' nid : page w' = page w -> getNode w' nid = getNode w nid.
Proof. intros H. unfold getNode, allNodes. rewrite H. reflexivity. Qed.

Lemma page_performs_doc evs w w' :
  page w' = page w ->
  page (fold_left perform evs w') = page (fold_left perform evs w).
Proof. intros H. rewrite !page_applyEvs, H. reflexivity. Qed.

(** The events of a call depend on the page and on what the host rejects,
    not on what it logged. *)
Lemma swapEvents_doc old new ty ids : forall w w',
  page w' = page w -> rejectsStyleId w' = rejectsStyleId w ->
  swapEvents w' ids old new ty = swapEvents w ids old new ty.
Proof.
  induction ids as [|j ids IH]; intros w w' Hp Hr; simpl; [reflexivity|].
  rewrite (getNode_doc w w' j Hp).
  destruct (getNode w j) as [nd|]; [|apply IH; assumption].
  rewrite (nodeEvents_same w w') by exact Hr. f_equal.
  apply IH.
  - apply page_performs_doc. exact Hp.
  - rewrite !rejects_performs. exact Hr.
Qed.

Section Repeats.

Variables old new ty : string.
Hypothesis distinct : old <> new.

Lemma filter_seen_member seen j (l : list string) :
  notIn seen j = false ->
  filter (notIn seen) (filter (fun y => negb (y =? j)) l) =
  filter (notIn seen) l.
Proof.
  intros N. rewrite filter_filter. apply filter_ext.
  intros a. destruct (a =? j) eqn:Ea; simpl; [|reflexivity].
  apply String.eqb_eq in Ea. subst a. rewrite N. reflexivity.
Qed.

Lemma filter_seen_new seen j (l : list string) :
  filter (notIn seen) (filter (fun y => negb (y =? j)) l) =
  filter (notIn (seen ++ [j])) l.
Proof.
  rewrite filter_filter. apply filter_ext.
  intros a. unfold notIn. rewrite existsb_app. simpl.
  rewrite orb_false_r, negb_orb. apply andb_comm.
Qed.

(** Layers that are settled, or listed before, can be left out. *)
Lemma swap_repeats ids : forall w seen,
  (forall i, In i seen -> settled w old new ty i) ->
  let short := filter (notIn seen) (firstOccurrences ids) in
  countAccepted (swapEvents w ids old new ty) =
  countAccepted (swapEvents w short old new ty) /\
  page (fold_left perform (swapEvents w ids old new ty) w) =
  page (fold_left perform (swapEvents w short old new ty) w).
Proof.
  induction ids as [|j ids IH]; intros w seen Hs; [split; reflexivity|].
  cbn [firstOccurrences filter].
  destruct (notIn seen j) eqn:N.
  - rewrite filter_seen_new. cbn [swapEvents].
    destruct (getNode w j) as [nd|] eqn:Gj.
    + set (w1 := fold_left perform (nodeEvents w nd old new ty) w).
      destruct (IH w1 (seen ++ [j])) as [Hc Hp].
      { intros i Hi. apply in_app_or in Hi. destruct Hi as [Hi|[<-|[]]].
        - apply (settled_step old new ty distinct w j); auto.
        - apply settled_after_step; assumption. }
      rewrite !countAccepted_app, !fold_left_app. fold w1.
      split; [rewrite Hc; reflexivity|exact Hp].
    + apply (IH w (seen ++ [j])).
      intros i Hi. apply in_app_or in Hi. destruct Hi as [Hi|[<-|[]]].
      * apply Hs. exact Hi.
      * unfold settled. rewrite Gj. exact I.
  - rewrite (filter_seen_member seen j _ N). cbn [swapEvents].
    assert (settled w old new ty j) as Hj by (apply Hs, notIn_false; exact N).
    destruct (getNode w j) as [nd|] eqn:Gj; [|apply IH; exact Hs].
    unfold settled in Hj. rewrite Gj in Hj.
    set (w1 := fold_left perform (nodeEvents w nd old new ty) w).
    assert (page w1 = page w) as Hp1 by (apply page_performs; exact Hj).
    assert (rejectsStyleId w1 = rejectsStyleId w) as Hr1
      by apply rejects_performs.
    rewrite countAccepted_app, fold_left_app, Hj. fold w1.
    rewrite (swapEvents_doc old new ty ids w w1 Hp1 Hr1).
    rewrite (page_performs_doc _ w w1 Hp1).
    apply IH. exact Hs.
Qed.

End Repeats.

(** X9. When the new identifier differs from the old one, layer ids
    that are repeated in the list count once: the call returns the same
    number, and leaves the same page, as the call on the list reduced to
    the first occurrence of each id. *)
Theorem X9_swapStyle_repeated_ids_count_once :
  forall (L : Type) (l : L) (w : World) (layerIds : list string)
         (old new styleType : string),
    old <> new ->
    exists count w1 w2,
      swapStyle layerIds old new styleType (l, w) = (Ok count, (l, w1)) /\
      swapStyle (firstOccurrences layerIds) old new styleType (l, w) =
      (Ok count, (l, w2)) /\
      page w1 = page w2.
Proof.
  intros L l w ids old new ty Hne.
  destruct (swap_repeats old new ty Hne ids w []) as [Hc Hp];
    [intros i []|].
  cbn zeta in Hc, Hp.
  rewrite (filter_ext _ (fun _ => true)), filter_true in Hc, Hp by reflexivity.
  do 3 eexists. split; [apply swapStyle_run|].
  split; [rewrite swapStyle_run, Hc; reflexivity|exact Hp].
Qed.

Lemma X9_witness :
  exists count w1 w2,
    swapStyle ["1:1"; "1:1"] "S:999" "S:111" "FILL" (tt, twiceBoundWorld) =
    (Ok count, (tt, w1)) /\
    swapStyle (firstOccurrences ["1:1"; "1:1"]) "S:999" "S:111" "FILL"
      (tt, twiceBoundWorld) = (Ok count, (tt, w2)) /\
    page w1 = page w2.
Proof.
  apply (X9_swapStyle_repeated_ids_count_once unit tt twiceBoundWorld
           ["1:1"; "1:1"] "S:999" "S:111" "FILL").
  discriminate.
Defined.

Lemma allNodes_performs evs : forall w,
  allNodes (fold_left perform evs w) = map (applyEvs evs) (allNodes w).
Proof.
  intros w. unfold allNodes. rewrite page_applyEvs. apply allNodes_map.
Qed.

Lemma refsOf_sid p r :
  In r (refsOf p) -> exists sl, binding sl p = Some (Val (ref_sid r)).
Proof.
  intros H. destruct (refsOf_origin p r H) as [sl [Hb _]]. eauto.
Qed.

(** X10. A rebind that covers every use of the old identifier (each
    binding that holds it is one the kind looks at, on a listed layer),
    towards another identifier and with no update rejected, leaves no
    binding that holds the old one: the scan that follows does not report
    it any more. *)
Theorem X10_complete_rebind_clears_the_report :
  forall (L : Type) (l : L) (w : World) (layerIds : list string)
         (old new styleType : string),
    uniqueIds w ->
    old <> new ->
    (forall n s, rejectsStyleId w n s new = false) ->
    (forall p sl, In p (allNodes w) -> binding sl p = Some (Val old) ->
                  In sl (slotsOf styleType) /\ In (node_id p) layerIds) ->
    exists count w1 entries w2,
      swapStyle layerIds old new styleType (l, w) = (Ok count, (l, w1)) /\
      findLayersWithRemoteStyles (l, w1) = (Ok entries, (l, w2)) /\
      (forall p sl, In p (allNodes w1) -> binding sl p <> Some (Val old)) /\
      (forall entry, In entry entries -> styleId entry <> old).
Proof.
  intros L l w ids old new ty Hu Hne Hrej Hcover.
  set (E := swapEvents w ids old new ty).
  assert (forall p sl, In p (allNodes (fold_left perform E w)) ->
                       binding sl p <> Some (Val old)) as Hgone.
  { intros p' sl Hin Hb. rewrite allNodes_performs in Hin.
    apply in_map_iff in Hin. destruct Hin as [p [<- Hp]].
    assert (getNode w (node_id p) = Some p) as G
      by (apply find_unique; assumption).
    unfold E in Hb.
    rewrite (swap_exact old new ty ids w (node_id p) p sl Hrej G) in Hb.
    destruct (existsb (String.eqb (node_id p)) ids && holds sl p old &&
              existsb (slot_eqb sl) (slotsOf ty)) eqn:C.
    - inversion Hb. congruence.
    - destruct (Hcover p sl Hp Hb) as [Hs Hi].
      assert (existsb (String.eqb (node_id p)) ids = true) as E1.
      { apply existsb_exists. exists (node_id p). split; [exact Hi|apply String.eqb_refl]. }
      assert (holds sl p old = true) as E2 by (apply holds_true; exact Hb).
      assert (existsb (slot_eqb sl) (slotsOf ty) = true) as E3.
      { apply existsb_exists. exists sl. split; [exact Hs|apply slot_eqb_refl]. }
      rewrite E1, E2, E3 in C. discriminate. }
  do 4 eexists. split; [apply swapStyle_run|].
  split; [apply findLayersWithRemoteStyles_run|].
  split; [exact Hgone|].
  intros entry Hin Hid. apply scan_entry in Hin.
  destruct Hin as [name [r [_ [Hf _]]]].
  apply find_some in Hf. destruct Hf as [Hr Hs]. unfold sidIs in Hs.
  apply String.eqb_eq in Hs.
  unfold pageRefs, refs in Hr. apply in_flat_map in Hr.
  destruct Hr as [p [Hp Hr]]. destruct (refsOf_sid p r Hr) as [sl Hb].
  apply (Hgone p sl Hp). rewrite Hb. congruence.
Qed.

Lemma X10_witness :
  exists count w1 entries w2,
    swapStyle ["L1"; "L2"; "L3"] "S:999" "S:111" "FILL" (tt, threeLayers) =
    (Ok count, (tt, w1)) /\
    findLayersWithRemoteStyles (tt, w1) = (Ok entries, (tt, w2)) /\
    (forall p sl, In p (allNodes w1) -> binding sl p <> Some (Val "S:999")) /\
    (forall entry, In entry entries -> styleId entry <> "S:999").
Proof.
  apply (X10_complete_rebind_clears_the_report unit tt threeLayers
           ["L1"; "L2"; "L3"] "S:999" "S:111" "FILL").
  - unfold uniqueIds. simpl. repeat constructor; simpl; intuition discriminate.
  - discriminate.
  - reflexivity.
  - intros p sl [<-|[<-|[<-|[]]]] Hb; destruct sl; simpl in Hb;
      try discriminate; simpl; auto.
Defined.

(* ===================================================================== *)
(** ** More on the scan *)
(* ===================================================================== *)

(** X11. Every entry a scan reports is made of the references to its
    identifier: its layer list holds, in the order of the traversal, one
    record for each binding of the page that holds the identifier, so it
    is never empty; its kind is that of the first such binding, whatever
    the kinds of the later ones; its name is the name of the style when
    the registry finds it, flagged remote, and the placeholder when the
    registry finds nothing or fails. *)
Theorem X11_entry_is_made_of_its_references :
  forall (L : Type) (l : L) (w : World),
    exists entries w',
      findLayersWithRemoteStyles (l, w) = (Ok entries, (l, w')) /\
      forall entry, In entry entries ->
        layers entry =
        map ref_layer (filter (sidIs (styleId entry)) (pageRefs w)) /\
        layers entry <> [] /\
        (exists first,
            find (sidIs (styleId entry)) (pageRefs w) = Some first /\
            styleType entry = ref_kind first) /\
        namedBy w entry /\
        (forall lr, In lr (layers entry) ->
           exists p sl, In p (allNodes w) /\ lr = layerOf p /\
                        binding sl p = Some (Val (styleId entry))).
Proof.
  intros L l w. do 2 eexists. split; [apply findLayersWithRemoteStyles_run|].
  intros entry Hin. apply scan_entry in Hin.
  destruct Hin as [name [r [Hn [Hf He]]]].
  assert (layers entry = layersFor (styleId entry) (pageRefs w)) as Hl
    by (rewrite He at 1; reflexivity).
  split; [exact Hl|]. split; [|split; [|split]].
  - rewrite Hl. pose proof (find_some _ _ Hf) as [Hr Hs].
    intros Z. assert (In (ref_layer r) (layersFor (styleId entry) (pageRefs w))) as H.
    { unfold layersFor. apply in_map. apply filter_In. auto. }
    rewrite Z in H. contradiction.
  - exists r. split; [exact Hf|]. rewrite He at 1. reflexivity.
  - unfold namedBy. unfold remoteName in Hn.
    assert (styleName entry = name) as Hname by (rewrite He at 1; reflexivity).
    destruct (lookupStyle w (styleId entry)) as [[st|]|e].
    + destruct (style_remote st); [|discriminate]. inversion Hn.
      split; [reflexivity|congruence].
    + inversion Hn. congruence.
    + inversion Hn. congruence.
  - intros lr Hlr. rewrite Hl in Hlr. unfold layersFor in Hlr.
    apply in_map_iff in Hlr. destruct Hlr as [r' [<- Hr']].
    apply filter_In in Hr'. destruct Hr' as [Hr' Hs].
    unfold sidIs in Hs. apply String.eqb_eq in Hs.
    destruct (pageRefs_origin w r' Hr') as [q [sl [Hq [Hb [_ Hlay]]]]].
    exists q, sl. rewrite <- Hs. auto.
Qed.

Lemma lookupsOf_lookups s rs :
  length (lookupsOf s (lookups rs)) = length (filter (sidIs s) rs).
Proof.
  unfold lookupsOf, lookups. induction rs as [|r rs IH]; simpl; [reflexivity|].
  unfold sidIs at 1. destruct (ref_sid r =? s); simpl; rewrite IH; reflexivity.
Qed.

(** X12. A scan asks the registry once for every binding that holds a
    non-empty string, in the order of the traversal, and nothing is
    remembered from one lookup to the next: an identifier that several
    bindings hold is looked up as many times, and as many times as its
    entry, when it has one, has layer records. *)
Theorem X12_one_lookup_per_reference :
  forall (L : Type) (l : L) (w : World),
    exists entries evs,
      findLayersWithRemoteStyles (l, w) = (Ok entries, (l, after w evs)) /\
      evs = map (fun r => EvLookup (ref_sid r)) (pageRefs w) /\
      (forall s, length (lookupsOf s evs) =
                 length (filter (sidIs s) (pageRefs w))) /\
      (forall entry, In entry entries ->
         length (lookupsOf (styleId entry) evs) = length (layers entry)).
Proof.
  intros L l w. do 2 eexists. split; [apply findLayersWithRemoteStyles_run|].
  split; [reflexivity|]. split; [intros s; apply lookupsOf_lookups|].
  intros entry Hin. rewrite lookupsOf_lookups. apply scan_entry in Hin.
  destruct Hin as [name [r [_ [_ He]]]]. rewrite He at 2. simpl.
  unfold layersFor. rewrite length_map. reflexivity.
Qed.

Lemma refOf_clearEmpty p sl k : refOf (clearEmpty p) sl k = refOf p sl k.
Proof.
  unfold refOf. destruct sl; simpl;
    match goal with |- context [dropEmpty ?b] => destruct b as [[|s]|] end;
    simpl; try reflexivity;
    destruct (s =? "") eqn:E; simpl; try rewrite E; reflexivity.
Qed.

Lemma refs_clearEmpty nodes : refs (map clearEmpty nodes) = refs nodes.
Proof.
  induction nodes as [|p nodes IH]; simpl; [reflexivity|].
  rewrite IH. f_equal. unfold refsOf. rewrite !refOf_clearEmpty. reflexivity.
Qed.

(** X13. A binding that holds the empty string (a layer with no style
    of that sort) is passed over by the scan: checking it asks the
    registry nothing and leaves the working map as it was, and the whole
    scan reports and looks up exactly what it would if those bindings were
    absent. *)
Theorem X13_empty_binding_is_skipped :
  (forall (p : NodeProps) (sl : Slot) (k : StyleKind) (m : RMap) (w : World),
      binding sl p = Some (Val "") ->
      checkBinding p sl k (m, w) = (Ok tt, (m, w))) /\
  (forall (L : Type) (l : L) (w : World),
      let w' := withPage w (map (mapNode clearEmpty) (page w)) in
      fst (findLayersWithRemoteStyles (l, w)) =
      fst (findLayersWithRemoteStyles (l, w')) /\
      hostLog (snd (snd (findLayersWithRemoteStyles (l, w)))) =
      hostLog (snd (snd (findLayersWithRemoteStyles (l, w'))))).
Proof.
  split.
  - intros p sl k m w Hb. unfold checkBinding. rewrite Hb. reflexivity.
  - intros L l w w'. rewrite !findLayersWithRemoteStyles_run.
    assert (pageRefs w' = pageRefs w) as E.
    { unfold pageRefs, allNodes, w'. simpl.
      rewrite allNodes_map. apply refs_clearEmpty. }
    rewrite E. split; reflexivity.
Qed.

Lemma recordCount_app a b : recordCount (a ++ b) = recordCount a + recordCount b.
Proof. unfold recordCount. rewrite map_app, list_sum_app. reflexivity. Qed.

Lemma recordCount_set k info lr m :
  map_get k m = Some info ->
  recordCount (map_set k (addLayers info [lr]) m) = S (recordCount m).
Proof.
  induction m as [|[k' v'] m IH]; simpl; [discriminate|].
  destruct (k' =? k) eqn:E; intros H.
  - inversion H. subst v'. unfold recordCount. simpl.
    rewrite length_app. simpl. lia.
  - unfold recordCount in *. simpl. rewrite (IH H). lia.
Qed.

Lemma recordCount_fold w rs : forall m,
  recordCount (fold_left (stepRef w) rs m) =
  recordCount m + length (filter (reported w) rs).
Proof.
  induction rs as [|r rs IH]; intros m; simpl; [lia|].
  rewrite IH. unfold stepRef, reported.
  destruct (remoteName w (ref_sid r)) as [name|]; simpl; [|lia].
  unfold record. destruct (map_get (ref_sid r) m) as [info|] eqn:G.
  - rewrite (recordCount_set _ _ _ _ G). lia.
  - rewrite recordCount_app. unfold recordCount at 2. simpl. lia.
Qed.

(** X14. Nothing is lost and nothing is counted in two places: the
    layer lists of the entries of a scan hold, all together, as many
    records as the page has bindings that hold a non-empty identifier which
    is not that of a local style. *)
Theorem X14_every_remote_reference_is_recorded_once :
  forall (L : Type) (l : L) (w : World),
    exists entries w',
      findLayersWithRemoteStyles (l, w) = (Ok entries, (l, w')) /\
      list_sum (map (fun entry => length (layers entry)) entries) =
      length (remoteRefs w).
Proof.
  intros L l w. do 2 eexists. split; [apply findLayersWithRemoteStyles_run|].
  pose proof (recordCount_fold w (pageRefs w) []) as H.
  unfold recordCount in H. simpl in H. unfold map_values, remoteRefs.
  rewrite map_map. exact H.
Qed.

(* ===================================================================== *)
(** ** More on importRemoteStyle *)
(* ===================================================================== *)

Lemma createStyle_is {L} k (l : L) w :
  createStyle k (l, w) =
  (Ok (styleIdSupply w (length (localStyles w))),
   (l, createdWorld k (styleIdSupply w (length (localStyles w))) w)).
Proof. cbv [createStyle bind getW modW ret fst snd]. reflexivity. Qed.

Lemma assignName_is {L} sid name (l : L) w :
  rejectsField w "name" name = false ->
  assignName sid name (l, w) = (Ok tt, (l, namedWorld sid name w)).
Proof.
  intros H. unfold assignName. cbv [bind getW snd]. rewrite H. reflexivity.
Qed.

Lemma assignField_is {L} sid field v (l : L) w :
  rejectsField w field v = false ->
  assignField sid field v (l, w) = (Ok tt, (l, fieldedWorld w sid (field, v))).
Proof.
  intros H. unfold assignField. cbv [bind getW snd]. rewrite H. reflexivity.
Qed.

Ltac import_steps Hrej :=
  cbn [isSome];
  erewrite bind_ok by apply createStyle_is;
  erewrite bind_ok by reflexivity;
  erewrite bind_ok by (apply assignName_is; apply Hrej);
  repeat (erewrite bind_ok by (apply assignField_is; apply Hrej));
  reflexivity.

(** The kind a donor is a donor of. *)
Lemma donor_kind ty nd : donor ty nd = true -> exists k, kindTag k = ty.
Proof.
  unfold donor.
  destruct (ty =? "FILL") eqn:E1; [apply String.eqb_eq in E1; exists FILL; auto|].
  destruct (ty =? "TEXT") eqn:E2; [apply String.eqb_eq in E2; exists TEXT; auto|].
  destruct (ty =? "EFFECT") eqn:E3; [apply String.eqb_eq in E3; exists EFFECT; auto|].
  destruct (ty =? "GRID") eqn:E4; [apply String.eqb_eq in E4; exists GRID; auto|].
  simpl. discriminate.
Qed.

Ltac kind_tests :=
  repeat match goal with
  | |- context [String ?c ?a =? String ?d ?b] =>
      let v := eval vm_compute in (String c a =? String d b) in
      change (String c a =? String d b) with v
  | H : context [String ?c ?a =? String ?d ?b] |- _ =>
      let v := eval vm_compute in (String c a =? String d b) in
      change (String c a =? String d b) with v in H
  end;
  cbn [andb] in *.

Lemma importFrom_is nd k name ns w :
  donor (kindTag k) nd = true ->
  (forall f v, rejectsField w f v = false) ->
  let sid := styleIdSupply w (length (localStyles w)) in
  importFrom nd (kindTag k) name (ns, w) =
  (Ok true,
   (Some sid, materialized k sid name (donorFields (kindTag k) nd) w)).
Proof.
  intros Hd Hrej sid. unfold donor in Hd. unfold importFrom, donorFields, sid.
  destruct k; cbn [kindTag] in *; kind_tests.
  - destruct (fills nd) as [[|fs]|]; try discriminate. import_steps Hrej.
  - destruct (node_type nd =? "TEXT"); [|discriminate].
    destruct (fontSize nd), (fontName nd), (lineHeight nd), (letterSpacing nd),
      (textCase nd), (textDecoration nd); try discriminate.
    import_steps Hrej.
  - destruct (effects nd) as [es|]; [|discriminate]. import_steps Hrej.
  - destruct (layoutGrids nd) as [gs|]; [|discriminate]. import_steps Hrej.
Qed.

Lemma find_app {A} (f : A -> bool) xs ys :
  find f (xs ++ ys) = match find f xs with Some x => Some x | None => find f ys end.
Proof.
  induction xs as [|x xs IH]; simpl; [reflexivity|].
  destruct (f x); [reflexivity|exact IH].
Qed.

(** With every assignment accepted, the loop stops at the first donor,
    having created one style from it. *)
Lemma importLoop_firstDonor k name ids : forall w,
  (forall f v, rejectsField w f v = false) ->
  importLoop ids (kindTag k) name (None, w) =
  (Ok tt,
   match firstDonor w ids (kindTag k) with
   | Some nd =>
       let sid := styleIdSupply w (length (localStyles w)) in
       (Some sid, materialized k sid name (donorFields (kindTag k) nd) w)
   | None => (None, w)
   end).
Proof.
  induction ids as [|id ids IH]; intros w Hrej; [reflexivity|].
  unfold firstDonor, resolved. cbn [importLoop flat_map].
  erewrite bind_ok by apply getNodeByIdAsync_run.
  rewrite find_app.
  destruct (getNode w id) as [nd|]; [|apply IH; exact Hrej].
  cbn [find]. destruct (donor (kindTag k) nd) eqn:D.
  - erewrite bind_ok.
    2:{ apply tryCatch_ok. apply importFrom_is; assumption. }
    reflexivity.
  - erewrite bind_ok.
    2:{ apply tryCatch_ok. apply importFrom_no_donor. exact D. }
    apply IH. exact Hrej.
Qed.

Lemma firstDonor_none w ids ty :
  firstDonor w ids ty = None ->
  forall id nd, In id ids -> getNode w id = Some nd -> donor ty nd = false.
Proof.
  unfold firstDonor, resolved. intros H id nd Hi G.
  apply (find_none _ _ H). apply in_flat_map. exists id. split; [exact Hi|].
  rewrite G. left. reflexivity.
Qed.

Lemma updStyle_fresh sid f xs :
  ~ In sid (map style_id xs) -> map (updStyle sid f) xs = xs.
Proof.
  induction xs as [|x xs IH]; simpl; intros H; [reflexivity|].
  rewrite IH by tauto. unfold updStyle.
  destruct (style_id x =? sid) eqn:E; [|reflexivity].
  apply String.eqb_eq in E. tauto.
Qed.

Lemma stylesOf_mapStyles k w f :
  stylesOf k (mapStyles w f) = map f (stylesOf k w).
Proof. destruct k; reflexivity. Qed.

Lemma stylesOf_logEvent k e w : stylesOf k (logEvent e w) = stylesOf k w.
Proof. destruct k; reflexivity. Qed.

Lemma stylesOf_created k k' sid w :
  stylesOf k' (createdWorld k sid w) =
  if kind_eqb k k' then stylesOf k' w ++ [mkStyle sid "" false []]
  else stylesOf k' w.
Proof. destruct k, k'; reflexivity. Qed.

Lemma stylesOf_fielded k sid fields : forall w,
  stylesOf k (fold_left (fun w fv => fieldedWorld w sid fv) fields w) =
  map (updStyle sid (fun s =>
         mkStyle (style_id s) (style_name s) (style_remote s)
           (style_fields s ++ fields))) (stylesOf k w).
Proof.
  induction fields as [|[f v] fields IH]; intros w; cbn [fold_left].
  - rewrite <- (map_id (stylesOf k w)) at 1. apply map_ext.
    intros [i n r fs]. unfold updStyle. simpl. rewrite app_nil_r.
    destruct (i =? sid); reflexivity.
  - rewrite IH. unfold fieldedWorld. rewrite stylesOf_logEvent, stylesOf_mapStyles.
    rewrite map_map. apply map_ext. intros [i n r fs]. unfold updStyle. simpl.
    destruct (i =? sid) eqn:E; simpl; rewrite ?E, <- ?app_assoc; reflexivity.
Qed.

(** What materializing adds to the collections: the new style, named and
    filled in, at the end of its kind's collection; nothing else moves
    when its identifier is fresh. *)
Lemma stylesOf_materialized k k' sid name fields w :
  ~ In sid (map style_id (localStyles w)) ->
  stylesOf k' (materialized k sid name fields w) =
  if kind_eqb k k' then stylesOf k' w ++ [mkStyle sid name false fields]
  else stylesOf k' w.
Proof.
  intros Hfresh. unfold materialized. rewrite stylesOf_fielded.
  unfold namedWorld. rewrite stylesOf_logEvent, stylesOf_mapStyles, map_map.
  rewrite stylesOf_created.
  assert (~ In sid (map style_id (stylesOf k' w))) as Hk.
  { intros H. apply Hfresh. unfold localStyles. rewrite !map_app, !in_app_iff.
    destruct k'; simpl in H; tauto. }
  assert (map (fun x => updStyle sid
            (fun s => mkStyle (style_id s) (style_name s) (style_remote s)
                        (style_fields s ++ fields))
            (updStyle sid
               (fun s => mkStyle (style_id s) name (style_remote s)
                           (style_fields s)) x)) (stylesOf k' w)
          = stylesOf k' w) as Hsame.
  { rewrite <- map_map. rewrite !updStyle_fresh; auto. rewrite updStyle_fresh; auto. }
  destruct (kind_eqb k k'); [|exact Hsame].
  rewrite map_app, Hsame. simpl. unfold updStyle. simpl.
  rewrite String.eqb_refl. simpl. rewrite String.eqb_refl. reflexivity.
Qed.

Lemma fielded_frame sid fields : forall w,
  let w1 := fold_left (fun w fv => fieldedWorld w sid fv) fields w in
  page w1 = page w /\ rejectsStyleId w1 = rejectsStyleId w /\
  hostLog w1 =
  hostLog w ++ map (fun fv => EvAssign sid (fst fv) true) fields.
Proof.
  induction fields as [|fv fields IH]; intros w; cbn [fold_left map].
  - rewrite app_nil_r. auto.
  - destruct (IH (fieldedWorld w sid fv)) as [Hp [Hr Hl]].
    cbv zeta. rewrite Hp, Hr, Hl. repeat split.
    simpl. rewrite <- app_assoc. reflexivity.
Qed.

(** Materializing leaves the page and the host's judgement of style ids
    alone, and logs the creation and the assignments. *)
Lemma materialized_frame k sid name fields w :
  let w1 := materialized k sid name fields w in
  page w1 = page w /\ rejectsStyleId w1 = rejectsStyleId w /\
  hostLog w1 =
  hostLog w ++ EvCreate k sid :: EvAssign sid "name" true ::
    map (fun fv => EvAssign sid (fst fv) true) fields.
Proof.
  unfold materialized.
  destruct (fielded_frame sid fields (namedWorld sid name (createdWorld k sid w)))
    as [Hp [Hr Hl]].
  cbv zeta. rewrite Hp, Hr, Hl. repeat split.
  - destruct k; reflexivity.
  - destruct k; reflexivity.
  - destruct k; simpl; rewrite <- !app_assoc; reflexivity.
Qed.

Lemma creations_assignments sid fields :
  creations (map (fun fv : string * Value => EvAssign sid (fst fv) true) fields) = [].
Proof. induction fields as [|fv fields IH]; simpl; auto. Qed.

Lemma creations_attempt rej nd old new sls :
  creations (attempt rej nd old new sls) = [].
Proof.
  induction sls as [|sl sls IH]; simpl; [reflexivity|].
  destruct (holds sl nd old); [|exact IH].
  destruct (rej sl); [reflexivity|exact IH].
Qed.

(** A rebind creates no style. *)
Lemma creations_swapEvents old new ty ids : forall w,
  creations (swapEvents w ids old new ty) = [].
Proof.
  induction ids as [|id ids IH]; intros w; simpl; [reflexivity|].
  destruct (getNode w id) as [nd|]; [|apply IH].
  rewrite creations_app, IH. unfold nodeEvents. rewrite creations_attempt.
  reflexivity.
Qed.

Lemma stylesOf_performs k evs w :
  stylesOf k (fold_left perform evs w) = stylesOf k w.
Proof.
  destruct (styles_performs evs w) as [H1 [H2 [H3 H4]]].
  destruct k; assumption.
Qed.

Lemma kind_eqb_refl k : kind_eqb k k = true.
Proof. destruct k; reflexivity. Qed.

Lemma kind_eqb_neq k k' : k' <> k -> kind_eqb k k' = false.
Proof. destruct k, k'; try reflexivity; intros H; contradiction H; reflexivity. Qed.

Lemma localCatalog_stylesOf w :
  localCatalog w =
  summaries FILL (stylesOf FILL w) ++ summaries TEXT (stylesOf TEXT w) ++
  summaries EFFECT (stylesOf EFFECT w) ++ summaries GRID (stylesOf GRID w).
Proof. reflexivity. Qed.

Lemma summaries_last k xs sid name fields :
  In (mkLocal sid name k) (summaries k (xs ++ [mkStyle sid name false fields])).
Proof.
  unfold summaries. rewrite filter_app, map_app. apply in_or_app. right.
  simpl. left. reflexivity.
Qed.

(** X15. No layer of the list qualifies as a donor (none resolves, none
    carries the properties of the kind, or the kind is none of the four):
    [importRemoteStyle] returns 0, creates nothing and leaves the host as
    it was. *)
Theorem X15_import_without_donor_changes_nothing {L} (l : L) w ids ty name old :
  firstDonor w ids ty = None ->
  importRemoteStyle ids ty name old (l, w) = (Ok 0, (l, w)).
Proof.
  intros H. apply import_without_donor. apply firstDonor_none. exact H.
Qed.

Lemma X15_witness :
  importRemoteStyle ["gone"; "L1"; "L2"] "TEXT" "Recovered" "S:999"
    (tt, threeLayers) = (Ok 0, (tt, threeLayers)).
Proof.
  apply (X15_import_without_donor_changes_nothing tt threeLayers
           ["gone"; "L1"; "L2"] "TEXT" "Recovered" "S:999").
  reflexivity.
Defined.

(** X16. Every assignment accepted and the host's new identifier fresh:
    [importRemoteStyle] creates exactly one style, from the first layer of
    the list that qualifies, as the last of its kind's collection; the
    style is local, carries the given name and the donor's properties; no
    other collection changes; the catalog lists it; and the count and the
    page are those of rebinding the whole list to it. *)
Theorem X16_import_materializes_first_donor {L} (l : L) w ids k name old nd :
  (forall f v, rejectsField w f v = false) ->
  firstDonor w ids (kindTag k) = Some nd ->
  let sid := styleIdSupply w (length (localStyles w)) in
  ~ In sid (map style_id (localStyles w)) ->
  let r := importRemoteStyle ids (kindTag k) name old (l, w) in
  let w' := snd (snd r) in
  let rebind := swapStyle ids old sid (kindTag k) (l, w) in
  stylesOf k w' =
    stylesOf k w ++ [mkStyle sid name false (donorFields (kindTag k) nd)] /\
  (forall k', k' <> k -> stylesOf k' w' = stylesOf k' w) /\
  In (mkLocal sid name k) (localCatalog w') /\
  creations (hostLog w') = creations (hostLog w) ++ [sid] /\
  fst r = fst rebind /\
  page w' = page (snd (snd rebind)).
Proof.
  intros Hrej Hd sid Hfresh r w' rebind.
  pose proof (importLoop_firstDonor k name ids w Hrej) as E.
  rewrite Hd in E. cbv zeta in E. fold sid in E.
  set (w1 := materialized k sid name (donorFields (kindTag k) nd) w) in *.
  assert (r = swapStyle ids old sid (kindTag k) (l, w1)) as Er.
  { unfold r. apply (import_rebinds_whole_list l w ids (kindTag k) name old _ _ E). }
  destruct (materialized_frame k sid name (donorFields (kindTag k) nd) w)
    as [Hp [Hr Hl]]. fold w1 in Hp, Hr, Hl.
  assert (forall k', stylesOf k' w' = stylesOf k' w1) as Hs.
  { intros k'. unfold w'. rewrite Er, swapStyle_run. simpl snd.
    apply stylesOf_performs. }
  assert (stylesOf k w' =
          stylesOf k w ++ [mkStyle sid name false (donorFields (kindTag k) nd)])
    as Hk.
  { rewrite Hs. unfold w1. rewrite stylesOf_materialized by exact Hfresh.
    rewrite kind_eqb_refl. reflexivity. }
  split; [exact Hk|]. split.
  { intros k' Hne. rewrite Hs. unfold w1.
    rewrite stylesOf_materialized by exact Hfresh.
    rewrite (kind_eqb_neq k k' Hne). reflexivity. }
  split.
  { rewrite localCatalog_stylesOf. rewrite !in_app_iff.
    pose proof (summaries_last k (stylesOf k w) sid name
                  (donorFields (kindTag k) nd)) as Hin.
    rewrite <- Hk in Hin. destruct k; tauto. }
  split.
  { unfold w'. rewrite Er, swapStyle_run. simpl snd.
    rewrite hostLog_performs, creations_app, creations_swapEvents, app_nil_r.
    rewrite Hl, creations_app. simpl. rewrite creations_assignments.
    reflexivity. }
  unfold w', rebind. rewrite Er, !swapStyle_run. simpl fst. simpl snd.
  rewrite (swapEvents_doc old sid (kindTag k) ids w w1 Hp Hr).
  split; [reflexivity|]. apply page_performs_doc. exact Hp.
Qed.

Lemma X16_witness :
  let r := importRemoteStyle ["gone"; "L2"; "L3"] "FILL" "Recovered" "S:999"
             (tt, threeLayers) in
  let w' := snd (snd r) in
  let rebind := swapStyle ["gone"; "L2"; "L3"] "S:999" "S:new1" "FILL"
                  (tt, threeLayers) in
  stylesOf FILL w' =
    stylesOf FILL threeLayers ++
    [mkStyle "S:new1" "Recovered" false [("paints", "solid")]] /\
  (forall k', k' <> FILL -> stylesOf k' w' = stylesOf k' threeLayers) /\
  In (mkLocal "S:new1" "Recovered" FILL) (localCatalog w') /\
  creations (hostLog w') = creations (hostLog threeLayers) ++ ["S:new1"] /\
  fst r = fst rebind /\
  page w' = page (snd (snd rebind)).
Proof.
  apply (X16_import_materializes_first_donor tt threeLayers
           ["gone"; "L2"; "L3"] FILL "Recovered" "S:999"
           (leaf "L2" (Some (Val "S:999")) None None)).
  - intros f v. reflexivity.
  - reflexivity.
  - simpl. intros [H|[]]. discriminate H.
Defined.
